(** * Session-based video generation and merging: a shallow embedding

    The development follows the two source files that carry the
    orchestration core, and the script that chains them:

    - [ads_generation.py]: the loading of the prompts ([load_prompts]),
      the job tracker ([generate_video_async]), the storage retrieval
      ([download_video_from_s3]), the session aggregator ([generate_ads])
      and [main];
    - [merge_videos.py]: the media prober ([get_video_info]), the
      transition merge ([merge_videos_with_transitions]), the fast path
      ([merge_videos_concat]) and the segment resolution
      ([get_latest_session_timestamp], [merge_generated_videos], [main]);
    - [generate_video_ads.py]: the validation of the folder, the list of
      steps and the loop that runs them.

    Python dictionaries with a fixed set of keys are records whose optional
    keys are [option] fields; the local directory is a finite map from
    paths to file contents; the remote services and the external tools are
    oracles passed as records of functions; exceptions are the [Raise] case
    of [outcome], carried by their text; everything the code does to the
    outside (remote calls, sleeps, retrievals, ffmpeg runs, file writes) is
    appended to a trace.

    What the model leaves out or idealises:
    - [print] and the diagnostic classification of error messages, which
      change no value;
    - wall-clock time: [time.time()] reads a clock in seconds that only
      [time.sleep] advances;
    - floating-point rounding: a duration is the rational number it
      denotes, and the subtraction of durations is exact;
    - failures of local file writes, the creation of directories, and
      the construction of the service clients, which is taken to succeed;
    - path normalisation: a path is its string, [folder / name] is
      [folder ++ "/" ++ name];
    - characters outside ASCII in [str.lower];
    - the typing of the prompts file: its [per_image_analysis] is a list
      of dictionaries, and prompt types are strings;
    - image handling ([encode_image_for_luma], a function of the
      environment), the two analysis scripts, and the summary the
      pipeline prints at its end. *)

From Stdlib Require Import ZArith QArith Qminmax Lqa Ascii String List Bool Lia.
From Stdlib Require Import DecimalString.
From stdpp Require Import base option list gmap strings sorting.

Local Open Scope stdpp_scope.

(** ** Text helpers *)

Module text.

(** [str(n)] for a non-negative [int]. *)
Definition str_of_nat (n : nat) : string :=
  NilEmpty.string_of_uint (Nat.to_uint n).

(** [f"{n:02d}"]: decimal, padded with zeros on the left to a width of at
    least two. *)
Definition fmt_02d (n : nat) : string :=
  let s := str_of_nat n in
  if String.length s <? 2 then "0" +:+ s else s.

(** [c.lower()] on one ASCII character. *)
Definition lower_char (c : ascii) : ascii :=
  let n := nat_of_ascii c in
  if (65 <=? n) && (n <=? 90) then ascii_of_nat (n + 32) else c.

Fixpoint map_chars (f : ascii → ascii) (s : string) : string :=
  match s with
  | EmptyString => EmptyString
  | String c s' => String (f c) (map_chars f s')
  end.

(** [s.lower()], on the ASCII letters. *)
Definition lower : string → string := map_chars lower_char.

(** [s.replace(old, new)] for one-character [old] and [new]. *)
Definition replace_char (old new : ascii) : string → string :=
  map_chars (λ c, if Ascii.eqb c old then new else c).

Fixpoint contains_char (c : ascii) (s : string) : bool :=
  match s with
  | EmptyString => false
  | String d s' => Ascii.eqb d c || contains_char c s'
  end.

(** [s.startswith(p)] *)
Definition startswith (p s : string) : bool := String.prefix p s.

Fixpoint drop_chars (n : nat) (s : string) : string :=
  match n, s with
  | S n', String _ s' => drop_chars n' s'
  | _, _ => s
  end.

(** [s.endswith(p)] *)
Definition endswith (p s : string) : bool :=
  (String.length p <=? String.length s) &&
  String.eqb (drop_chars (String.length s - String.length p) s) p.

(** [s.rstrip('/')] *)
Fixpoint rstrip_slash (s : string) : string :=
  match s with
  | EmptyString => EmptyString
  | String c s' =>
      match rstrip_slash s' with
      | EmptyString => if Ascii.eqb c "/" then EmptyString else String c EmptyString
      | r => String c r
      end
  end.

(** [s.split(sep, 1)]: [None] when [sep] does not occur (Python then gives
    the one-element list [[s]]), [Some (a, b)] for the two parts. *)
Fixpoint split_once (sep : ascii) (s : string) : option (string * string) :=
  match s with
  | EmptyString => None
  | String c s' =>
      if Ascii.eqb c sep then Some (EmptyString, s')
      else match split_once sep s' with
           | Some (a, b) => Some (String c a, b)
           | None => None
           end
  end.

(** [s.split(sep)] *)
Fixpoint split_go (sep : ascii) (cur : string) (s : string) : list string :=
  match s with
  | EmptyString => [String.rev cur]
  | String c s' =>
      if Ascii.eqb c sep then String.rev cur :: split_go sep EmptyString s'
      else split_go sep (String c cur) s'
  end.
Definition split (sep : ascii) (s : string) : list string :=
  split_go sep EmptyString s.

(** The part of a path after its last ['/'] ([Path(p).name] for a path
    that does not end in a separator). *)
Fixpoint path_name_go (cur : string) (s : string) : string :=
  match s with
  | EmptyString => String.rev cur
  | String c s' =>
      if Ascii.eqb c "/" then path_name_go EmptyString s'
      else path_name_go (String c cur) s'
  end.
Definition path_name (p : string) : string := path_name_go EmptyString p.

(** [folder / name] on path strings. *)
Definition path_join (folder name : string) : string := folder +:+ "/" +:+ name.

(** [str(n)] for an [int]. *)
Definition str_of_int (n : Z) : string :=
  NilEmpty.string_of_int (Z.to_int n).

End text.

(** ** Exceptions, the world and the computation monad *)

(** An exception is carried by its text, [str(e)]. *)
Definition exn := string.

Inductive outcome (A : Type) : Type :=
  | Ret (a : A)
  | Raise (e : exn).
Arguments Ret {A} a.
Arguments Raise {A} e.

(** What the program does to the outside, in the order it does it. *)
Inductive event : Type :=
  | EvStart (video_index : nat)        (* bedrock_client.start_async_invoke *)
  | EvSleep (seconds : nat)            (* time.sleep *)
  | EvPoll (video_index : nat)         (* bedrock_client.get_async_invoke *)
  | EvRetrieve (video_index : nat)     (* download_video_from_s3 is called *)
  | EvWrite (path : string)            (* a local file is (over)written *)
  | EvRemove (path : string)           (* Path.unlink *)
  | EvMerge (segments : list string) (with_transitions : bool).
                                       (* ffmpeg is run on these inputs *)

Global Instance event_eq_dec : EqDecision event.
Proof. solve_decision. Defined.

(** ** Data model of [ads_generation.py] *)

(** The request body built by [generate_video_async] ([model_input]). *)
Record model_input := {
  mi_prompt : string;
  mi_aspect_ratio : string;
  mi_loop : bool;
  mi_duration : string;
  mi_resolution : string;
  mi_keyframes : option string;      (* keyframes.frame0.source.data *)
}.

(** Responses of the generation service, with the keys the code reads. *)
Record start_response := { invocationArn : option string }.
Record s3_output_data_config := { s3Uri : option string }.
Record output_data_config := {
  s3OutputDataConfig : option s3_output_data_config }.
Record status_response := {
  status : option string;
  outputDataConfig : option output_data_config;
  failureReason : option string;
}.

(** The generation service. [get_async_invoke arn k] is the answer to the
    [k]-th status read (from 0) of the job [arn]; either call may raise. *)
Record bedrock_client := {
  start_async_invoke : string → model_input → string → outcome start_response;
  get_async_invoke : string → nat → outcome status_response;
}.

(** Object storage. *)
Record s3_object := { Key : string }.
Record list_response := { Contents : option (list s3_object) }.
Record s3_client := {
  list_objects_v2 : string → string → outcome list_response;
  download_file : string → string → string → outcome unit;
}.

(** The dictionary returned by [generate_video_async] and extended by
    [generate_ads]; a key that may be absent is an [option]. *)
Record video_result := {
  success : bool;
  s3_location : option string;
  error : option string;
  prompt : string;
  source_image : option string;
  generation_time : option nat;
  job_id : option string;
  video_index : nat;
  full_error_response : option status_response;
  prompt_type : option string;
  image_index : option nat;
  prompt_index : option nat;
  timestamp : option string;
  local_filename : option string;
}.

Record generation_details := {
  use_keyframes : bool;
  gd_aspect_ratio : string;
  gd_duration : string;
  gd_resolution : string;
}.

(** The generation report. *)
Record report := {
  rp_timestamp : string;
  rp_timestamp_iso : string;
  rp_s3_bucket : string;
  rp_s3_prefix : string;
  total_images_processed : nat;
  videos_per_image : Z;
  total_attempted : nat;
  successful_count : nat;
  failed_count : nat;
  successful_videos : list video_result;
  failed_videos : list video_result;
  rp_generation_details : generation_details;
}.

(** The session manifest ([session_data]); the same value is written to
    the session-scoped file and to the latest-session file. *)
Record session_data := {
  sd_timestamp : string;
  sd_timestamp_iso : string;
  session_videos : list string;
  generation_report : string;
}.

(** The merge report of [merge_videos.py]. *)
Record merge_report := {
  mr_timestamp : string;
  mr_session_timestamp : option string;
  source_videos : list string;
  output_video : string;
  mr_transition : bool;
  mr_transition_duration : Q;
  total_videos : nat;
  merge_type : string;
}.

(** Contents of a local file. *)
Inductive file : Type :=
  | FReport (r : report)
  | FSession (d : session_data)
  | FMergeReport (r : merge_report)
  | FJsonObject (ts : option string) (vids : option (list string))
      (* a JSON object from elsewhere, seen through its [timestamp] and
         [session_videos] keys *)
  | FVideo    (* an .mp4 payload *)
  | FOther.   (* anything that is not a JSON object *)

(** The local directory tree (a map from path to content), a clock in
    seconds that only [time.sleep] advances, and the trace. *)
Record world := {
  fs : gmap string file;
  clock : nat;
  trace : list event;
}.

Definition M (A : Type) : Type := world → outcome A * world.

Definition ret {A} (a : A) : M A := λ w, (Ret a, w).
Definition raise {A} (e : exn) : M A := λ w, (Raise e, w).
Definition bind {A B} (m : M A) (f : A → M B) : M B :=
  λ w, match m w with
       | (Ret a, w') => f a w'
       | (Raise e, w') => (Raise e, w')
       end.
(** [try: m except Exception as e: h e] *)
Definition try_except {A} (m : M A) (h : exn → M A) : M A :=
  λ w, match m w with
       | (Ret a, w') => (Ret a, w')
       | (Raise e, w') => h e w'
       end.
Definition lift {A} (o : outcome A) : M A := λ w, (o, w).
Definition emit (ev : event) : M unit :=
  λ w, (Ret tt, {| fs := fs w; clock := clock w; trace := trace w ++ [ev] |}).
(** [time.time()] *)
Definition time : M nat := λ w, (Ret (clock w), w).
(** [time.sleep(s)] *)
Definition sleep (s : nat) : M unit :=
  λ w, (Ret tt, {| fs := fs w; clock := clock w + s;
                   trace := trace w ++ [EvSleep s] |}).
(** [path.unlink()] of an existing file. *)
Definition remove_file (path : string) : M unit :=
  λ w, (Ret tt, {| fs := delete path (fs w); clock := clock w;
                   trace := trace w ++ [EvRemove path] |}).
(** [open(path, 'w')] followed by writing [c]. *)
Definition write_file (path : string) (c : file) : M unit :=
  λ w, (Ret tt, {| fs := <[path := c]> (fs w); clock := clock w;
                   trace := trace w ++ [EvWrite path] |}).
(** [d[key]] on a key that may be absent: [KeyError(key)] has the text
    ['key']. *)
Definition getitem {A} (key : string) (o : option A) : M A :=
  match o with
  | Some a => ret a
  | None => raise ("'" +:+ key +:+ "'")
  end.

Declare Scope M_scope.
Delimit Scope M_scope with M.
Notation "'let*' x ':=' m 'in' k" := (bind m (λ x, k))
  (at level 10, x pattern, m at level 100, k at level 200) : M_scope.
Local Open Scope M_scope.

(** ** The job tracker: [generate_video_async] *)

Module ads_generation.
Import text.

Definition max_attempts : nat := 60.
Definition poll_delay : nat := 10.
Global Arguments max_attempts : simpl never.
Global Arguments poll_delay : simpl never.

Definition timed_out_text : string :=
  "Generation timed out after maximum attempts".

(** The three dictionary shapes [generate_video_async] returns. *)
Definition completed_dict (output_location prompt_text : string)
    (image_filename : option string) (elapsed_time : nat) (uuid : string)
    (index : nat) : video_result :=
  {| success := true; s3_location := Some output_location; error := None;
     prompt := prompt_text; source_image := image_filename;
     generation_time := Some elapsed_time; job_id := Some uuid;
     video_index := index; full_error_response := None;
     prompt_type := None; image_index := None; prompt_index := None;
     timestamp := None; local_filename := None |}.

Definition unsuccessful_dict (error_text prompt_text : string)
    (image_filename : option string) (index : nat)
    (full : option status_response) : video_result :=
  {| success := false; s3_location := None; error := Some error_text;
     prompt := prompt_text; source_image := image_filename;
     generation_time := None; job_id := None;
     video_index := index; full_error_response := full;
     prompt_type := None; image_index := None; prompt_index := None;
     timestamp := None; local_filename := None |}.

Section job_tracker.
Variable bedrock_client : bedrock_client.
Variables (prompt_text s3_bucket s3_prefix : string).
Variable video_index : nat.
Variable keyframe_image : option string.
Variable image_filename : option string.
(** [job_id = str(uuid.uuid4())] *)
Variable job_id : string.

Definition s3_output_uri : string :=
  "s3://" +:+ s3_bucket +:+ "/" +:+ s3_prefix +:+ "/" +:+ job_id +:+ "/".

(** [if keyframe_image:] is false for [None] and for the empty string. *)
Definition build_model_input : model_input :=
  {| mi_prompt := prompt_text; mi_aspect_ratio := "16:9"; mi_loop := false;
     mi_duration := "5s"; mi_resolution := "720p";
     mi_keyframes := match keyframe_image with
                     | Some "" => None
                     | k => k
                     end |}.

Definition completed_result (output_location : string) (elapsed_time : nat)
  : video_result :=
  completed_dict output_location prompt_text image_filename elapsed_time
                 job_id video_index.

Definition unsuccessful (error_text : string)
    (full : option status_response) : video_result :=
  unsuccessful_dict error_text prompt_text image_filename video_index full.

Definition failed_result (status_response : status_response) : video_result :=
  let error_msg := default "No failureReason provided"
                           (failureReason status_response) in
  unsuccessful ("Generation failed: " +:+ error_msg) (Some status_response).

Definition timed_out_result : video_result :=
  unsuccessful timed_out_text None.

Definition exception_result (e : exn) : video_result :=
  unsuccessful ("Error generating video: " +:+ e) None.

(** [for attempt in range(max_attempts):] with [n] iterations left;
    [None] when the range is exhausted without a [return]. *)
Fixpoint poll_loop (invocation_arn : string) (start_time : nat)
    (n attempt : nat) : M (option video_result) :=
  match n with
  | 0 => ret None
  | S n' =>
      let* _ := sleep poll_delay in
      let* _ := emit (EvPoll video_index) in
      let* status_response :=
        lift (get_async_invoke bedrock_client invocation_arn attempt) in
      let* status := getitem "status" (status status_response) in
      if String.eqb status "Completed" then
        let* now := time in
        let elapsed_time := now - start_time in
        let* odc := getitem "outputDataConfig"
                      (outputDataConfig status_response) in
        let* s3c := getitem "s3OutputDataConfig" (s3OutputDataConfig odc) in
        let* output_location := getitem "s3Uri" (s3Uri s3c) in
        ret (Some (completed_result output_location elapsed_time))
      else if String.eqb status "Failed" then
        ret (Some (failed_result status_response))
      else poll_loop invocation_arn start_time n' (S attempt)
  end.

(** The body of the [try]. *)
Definition submit_and_poll : M video_result :=
  let* start_time := time in
  let* _ := emit (EvStart video_index) in
  let* response :=
    lift (start_async_invoke bedrock_client "luma.ray-v2:0"
            build_model_input s3_output_uri) in
  let* invocation_arn := getitem "invocationArn" (invocationArn response) in
  let* r := poll_loop invocation_arn start_time max_attempts 0 in
  match r with
  | Some result => ret result
  | None => ret timed_out_result
  end.

Definition generate_video_async : M video_result :=
  try_except submit_and_poll (λ e, ret (exception_result e)).
End job_tracker.

(** ** Storage retrieval: [download_video_from_s3] *)

Definition is_mp4 (obj : s3_object) : bool := endswith ".mp4" (Key obj).

Definition download_video_from_s3 (s3_client : s3_client)
    (s3_location local_path : string) : M bool :=
  try_except
    (let s3_uri := rstrip_slash s3_location in
     let s3_uri :=
       if startswith "s3://" s3_uri then drop_chars 5 s3_uri else s3_uri in
     match split_once "/" s3_uri with
     | None => ret false                       (* len(parts) != 2 *)
     | Some (bucket, prefix) =>
         let* response := lift (list_objects_v2 s3_client bucket prefix) in
         match Contents response with
         | Some objs =>
             (* the first object whose key ends in .mp4 *)
             match List.find is_mp4 objs with
             | Some obj =>
                 let* _ :=
                   lift (download_file s3_client bucket (Key obj) local_path) in
                 let* _ := write_file local_path FVideo in
                 ret true
             | None => ret false
             end
         | None => ret false
         end
     end)
    (λ _, ret false).

(** ** The session aggregator: [generate_ads] *)

(** One entry of [video_prompts]: a dictionary, or anything else (then the
    code takes [str(prompt_data)]). *)
Inductive prompt_data : Type :=
  | PromptDict (prompt_key : option string) (prompt_type_key : option string)
  | PromptOther (text : string).

(** One entry of [per_image_analysis]. *)
Record image_analysis := {
  ia_image_filename : option string;
  ia_video_prompts : option (list prompt_data);
}.

(** What [generate_ads] reads from its surroundings besides the remote
    services. *)
Record environment := {
  bedrock : bedrock_client;
  s3 : s3_client;
  uuid4 : nat → string;             (* the identifier minted for job k *)
  strftime_now : string;            (* datetime.now().strftime(...) *)
  isoformat_report : string;        (* datetime.now().isoformat(), report *)
  isoformat_session : string;       (* the same, for the session file *)
  image_exists : string → bool;     (* img_path.exists() *)
  encode_image_for_luma : string → option string;
}.

(** [l[:n]] *)
Definition slice_to {A} (n : Z) (l : list A) : list A :=
  if (0 <=? n)%Z then take (Z.to_nat n) l
  else take (length l - Z.to_nat (- n)) l.

(** The keys [generate_ads] adds to a result. *)
Definition annotate (r : video_result) (image_name type_name : string)
    (img_idx prompt_idx : nat) (stamp : string) : video_result :=
  {| success := success r; s3_location := s3_location r; error := error r;
     prompt := prompt r; source_image := Some image_name;
     generation_time := generation_time r; job_id := job_id r;
     video_index := video_index r;
     full_error_response := full_error_response r;
     prompt_type := Some type_name; image_index := Some img_idx;
     prompt_index := Some prompt_idx; timestamp := Some stamp;
     local_filename := local_filename r |}.

(** [result['local_filename'] = str(local_path)] *)
Definition set_local_filename (r : video_result) (path : string)
    : video_result :=
  {| success := success r; s3_location := s3_location r; error := error r;
     prompt := prompt r; source_image := source_image r;
     generation_time := generation_time r; job_id := job_id r;
     video_index := video_index r;
     full_error_response := full_error_response r;
     prompt_type := prompt_type r; image_index := image_index r;
     prompt_index := prompt_index r; timestamp := timestamp r;
     local_filename := Some path |}.

(** [prompt_type.lower().replace(' ', '_')] *)
Definition slug (type_name : string) : string :=
  replace_char " " "_" (lower type_name).

(** [f"video_{timestamp}_{img_idx:02d}_{prompt_idx:02d}_{slug}.mp4"] *)
Definition local_filename_of (stamp : string) (img_idx prompt_idx : nat)
    (type_name : string) : string :=
  "video_" +:+ stamp +:+ "_" +:+ fmt_02d img_idx +:+ "_" +:+
  fmt_02d prompt_idx +:+ "_" +:+ slug type_name +:+ ".mp4".

Definition report_name (stamp : string) : string :=
  "generation_report_" +:+ stamp +:+ ".json".
Definition session_file_name (stamp : string) : string :=
  "session_videos_" +:+ stamp +:+ ".json".
Definition latest_session_name : string := "latest_session_videos.json".

(** The three local variables the loops update. *)
Record progress := {
  p_total_video_index : nat;
  p_successful_videos : list video_result;
  p_failed_videos : list video_result;
}.

Definition mk_report (stamp iso bucket prefix : string) (images : nat)
    (per_image : Z) (st : progress) (keyframes : bool) : report :=
  {| rp_timestamp := stamp; rp_timestamp_iso := iso;
     rp_s3_bucket := bucket; rp_s3_prefix := prefix;
     total_images_processed := images; videos_per_image := per_image;
     total_attempted := p_total_video_index st;
     successful_count := length (p_successful_videos st);
     failed_count := length (p_failed_videos st);
     successful_videos := p_successful_videos st;
     failed_videos := p_failed_videos st;
     rp_generation_details :=
       {| use_keyframes := keyframes; gd_aspect_ratio := "16:9";
          gd_duration := "5s"; gd_resolution := "720p" |} |}.

(** [session_videos]: the names of the successful results that carry a
    [local_filename], in order. *)
Definition session_videos_of (successful : list video_result) : list string :=
  omap (λ video, path_name <$> local_filename video) successful.

Section session.
Variable env : environment.
Variable folder_path : string.
Variable num_videos_per_image : Z.
Variable s3_bucket : string.
Variable use_images : bool.
(** The session id, and the prefix derived from it. *)
Variable timestamp : string.

Definition generated_folder : string := path_join folder_path "generated_ads".
Definition product_images_path : string :=
  path_join folder_path "product_images".
Definition s3_prefix : string := "luma-videos/" +:+ timestamp.

Definition prompt_fields (d : prompt_data) : string * string :=
  match d with
  | PromptDict p t => (default "" p, default "Unknown" t)
  | PromptOther text => (text, "Unknown")
  end.

(** One iteration of the inner loop, from [total_video_index += 1] to
    the [append]. *)
Definition process_pair (image_filename : string)
    (keyframe_image : option string) (img_idx prompt_idx : nat)
    (d : prompt_data) (st : progress) : M progress :=
  let total_video_index := S (p_total_video_index st) in
  let '(prompt_text, prompt_type) := prompt_fields d in
  let* result :=
    generate_video_async (bedrock env) prompt_text s3_bucket s3_prefix
      total_video_index keyframe_image (Some image_filename)
      (uuid4 env total_video_index) in
  let result :=
    annotate result image_filename prompt_type img_idx prompt_idx timestamp in
  if success result then
    let local_filename :=
      local_filename_of timestamp img_idx prompt_idx prompt_type in
    let local_path := path_join generated_folder local_filename in
    let* location := getitem "s3_location" (s3_location result) in
    let* _ := emit (EvRetrieve total_video_index) in
    let* ok := download_video_from_s3 (s3 env) location local_path in
    let result := if ok then set_local_filename result local_path
                  else result in
    ret {| p_total_video_index := total_video_index;
           p_successful_videos := p_successful_videos st ++ [result];
           p_failed_videos := p_failed_videos st |}
  else
    ret {| p_total_video_index := total_video_index;
           p_successful_videos := p_successful_videos st;
           p_failed_videos := p_failed_videos st ++ [result] |}.

(** [for prompt_idx, prompt_data in enumerate(prompts_to_use, 1):] *)
Fixpoint prompts_loop (image_filename : string)
    (keyframe_image : option string) (img_idx prompt_idx : nat)
    (prompts : list prompt_data) (st : progress) : M progress :=
  match prompts with
  | [] => ret st
  | d :: rest =>
      let* st' :=
        process_pair image_filename keyframe_image img_idx prompt_idx d st in
      prompts_loop image_filename keyframe_image img_idx (S prompt_idx)
                   rest st'
  end.

Definition keyframe_for (image_filename : string) (img_idx : nat)
    : option string :=
  if use_images &&
     negb (String.eqb image_filename ("image_" +:+ str_of_nat img_idx))
  then
    let img_path := path_join product_images_path image_filename in
    if image_exists env img_path then encode_image_for_luma env img_path
    else None
  else None.

(** [for img_idx, image_analysis in enumerate(per_image_analyses, 1):] *)
Fixpoint images_loop (img_idx : nat) (analyses : list image_analysis)
    (st : progress) : M progress :=
  match analyses with
  | [] => ret st
  | image_analysis :: rest =>
      let image_filename :=
        default ("image_" +:+ str_of_nat img_idx)
                (ia_image_filename image_analysis) in
      let video_prompts := default [] (ia_video_prompts image_analysis) in
      match video_prompts with
      | [] => images_loop (S img_idx) rest st          (* continue *)
      | _ =>
          let keyframe_image := keyframe_for image_filename img_idx in
          let prompts_to_use := slice_to num_videos_per_image video_prompts in
          let* st' :=
            prompts_loop image_filename keyframe_image img_idx 1
                         prompts_to_use st in
          images_loop (S img_idx) rest st'
      end
  end.

Definition initial_progress : progress :=
  {| p_total_video_index := 0; p_successful_videos := [];
     p_failed_videos := [] |}.

Definition report_file : string :=
  path_join generated_folder (report_name timestamp).
Definition session_file : string :=
  path_join generated_folder (session_file_name timestamp).
Definition latest_session_file : string :=
  path_join generated_folder latest_session_name.

Definition mk_session_data (videos : list string) : session_data :=
  {| sd_timestamp := timestamp; sd_timestamp_iso := isoformat_session env;
     session_videos := videos;
     generation_report := report_name timestamp |}.

(** The session once the bucket and the session id are known: the two
    loops, the report, then the two manifest files when
    [session_videos] is not empty. *)
Definition run_session (per_image_analyses : list image_analysis)
    : M report :=
  let* st := images_loop 1 per_image_analyses initial_progress in
  let report :=
    mk_report timestamp (isoformat_report env) s3_bucket s3_prefix
              (length per_image_analyses) num_videos_per_image st
              use_images in
  let* _ := write_file report_file (FReport report) in
  let videos := session_videos_of (p_successful_videos st) in
  let* _ :=
    match videos with
    | [] => ret tt
    | _ =>
        let session_data := mk_session_data videos in
        let* _ := write_file session_file (FSession session_data) in
        write_file latest_session_file (FSession session_data)
    end in
  ret report.
End session.

(** [if x:] on an optional string. *)
Definition truthy (o : option string) : option string :=
  match o with
  | Some "" => None
  | o => o
  end.

(** [generate_ads], from the loaded [per_image_analysis] list on. *)
Definition generate_ads (env : environment) (folder_path : string)
    (per_image_analyses : list image_analysis) (num_videos_per_image : Z)
    (s3_bucket : option string) (use_images : bool)
    (session_timestamp : option string) : M (option report) :=
  match truthy s3_bucket with
  | None => ret None
  | Some bucket =>
      let timestamp := default (strftime_now env) (truthy session_timestamp) in
      let* report :=
        run_session env folder_path num_videos_per_image bucket use_images
                    timestamp per_image_analyses in
      ret (Some report)
  end.

(** ** Loading the prompts: [load_prompts] *)

(** The JSON object of [product_analysis_prompts.json], seen through the
    two keys the code reads. *)
Record analysis_data := {
  per_image_analysis : option (list image_analysis);
  video_prompts : option (list prompt_data);
}.

Definition prompts_file_name : string := "product_analysis_prompts.json".

Definition file_not_found_text : string :=
  "Product analysis file not found. Please run product_analysis.py first.".
Definition no_prompts_text : string :=
  "No video prompts found in the analysis file".

(** [read_json path] is [None] when the file does not exist, and else what
    [json.load] returns or raises. A [ValueError] is carried by its text. *)
Definition load_prompts (read_json : string → option (outcome analysis_data))
    (folder_path : string) : outcome analysis_data :=
  let prompts_file := path_join folder_path prompts_file_name in
  match read_json prompts_file with
  | None => Raise file_not_found_text
  | Some (Raise e) => Raise e
  | Some (Ret data) =>
      match per_image_analysis data with
      | Some _ => Ret data
      | None =>
          match video_prompts data with
          | Some prompts =>
              Ret {| per_image_analysis :=
                       Some [{| ia_image_filename := None;
                                ia_video_prompts := Some prompts |}];
                     video_prompts := None |}
          | None => Raise no_prompts_text
          end
      end
  end.

(** Lines 249-254: the list the loops run over. *)
Definition per_image_analyses_of (analysis_data : analysis_data)
    : list image_analysis :=
  match per_image_analysis analysis_data with
  | Some per_image_analyses => per_image_analyses
  | None =>
      [{| ia_image_filename := None;
          ia_video_prompts :=
            Some (default [] (video_prompts analysis_data)) |}]
  end.

(** [generate_ads] as a whole: the bucket is checked before the prompts
    are loaded. *)
Definition generate_ads_from_folder (env : environment)
    (read_json : string → option (outcome analysis_data))
    (folder_path : string) (num_videos_per_image : Z)
    (s3_bucket : option string) (use_images : bool)
    (session_timestamp : option string) : M (option report) :=
  match truthy s3_bucket with
  | None => ret None
  | Some _ =>
      let* analysis_data := lift (load_prompts read_json folder_path) in
      generate_ads env folder_path (per_image_analyses_of analysis_data)
                   num_videos_per_image s3_bucket use_images
                   session_timestamp
  end.

(** ** [main] *)
Record arguments := {
  ga_folder : string;
  ga_num_videos : Z;
  ga_s3_bucket : option string;
  ga_no_images : bool;
  ga_timestamp : option string;
}.

(** The exit status of the process: [exit(1)] in the handler, 0 when the
    script runs to its end. *)
Definition main (env : environment)
    (read_json : string → option (outcome analysis_data))
    (args : arguments) : M Z :=
  try_except
    (let use_images := negb (ga_no_images args) in
     let* result :=
       generate_ads_from_folder env read_json (ga_folder args)
         (ga_num_videos args) (ga_s3_bucket args) use_images
         (ga_timestamp args) in
     ret 0%Z)
    (λ _, ret 1%Z).

End ads_generation.

(** ** [merge_videos.py] *)

Module merge_videos.
Import text.

(** *** The media prober: [get_video_info] *)

Record media_info := { width : Z; height : Z; duration : Q }.

(** One entry of ffprobe's [streams]; the duration is a JSON string that
    [float] may fail to parse. *)
Record stream := {
  codec_type : option string;
  st_width : option Z;
  st_height : option Z;
  st_duration : option (outcome Q);
}.

(** The result of [subprocess.run]: the exit status, and what
    [json.loads(result.stdout)] gives (an exception, or the [streams] key
    of the object). *)
Record completed_process := {
  returncode : Z;
  stdout_streams : outcome (option (list stream));
}.

(** The loop over streams: the first video stream decides. *)
Fixpoint first_video_stream (streams : list stream)
    : outcome (option media_info) :=
  match streams with
  | [] => Ret None
  | s :: rest =>
      match codec_type s with
      | None => Raise "'codec_type'"
      | Some c =>
          if String.eqb c "video" then
            match default (Ret 0%Q) (st_duration s) with
            | Ret d => Ret (Some {| width := default 0%Z (st_width s);
                                    height := default 0%Z (st_height s);
                                    duration := d |})
            | Raise e => Raise e
            end
          else first_video_stream rest
      end
  end.

Definition get_video_info (ffprobe : string → outcome completed_process)
    (video_path : string) : option media_info :=
  match ffprobe video_path with
  | Ret result =>
      if (returncode result =? 0)%Z then
        match stdout_streams result with
        | Ret streams =>
            match first_video_stream (default [] streams) with
            | Ret info => info
            | Raise _ => None
            end
        | Raise _ => None
        end
      else None
  | Raise _ => None
  end.

(** *** The transition path: [merge_videos_with_transitions] *)

Inductive fade_type := fade_in | fade_out.

(** The filters the code writes into a chain. *)
Inductive vfilter : Type :=
  | scale (w h : Z)
      (* scale=w:h:force_original_aspect_ratio=decrease *)
  | pad (w h : Z)
      (* pad=w:h:(ow-iw)/2:(oh-ih)/2 *)
  | setsar1
      (* setsar=1 *)
  | fade (t : fade_type) (st d : Q).
      (* fade=t=in|out:st=st:d=d *)

(** One entry of [filter_complex]. *)
Inductive graph_entry : Type :=
  | chain (input : nat) (filters : list vfilter) (label : nat)
      (* [input:v]filters[vlabel] *)
  | concat (labels : list nat) (n : nat).
      (* [v0][v1]...concat=n=n:v=1:a=0[outv] *)

Inductive ffmpeg_command : Type :=
  | concat_copy (concat_file output : string)
  | filter_encode (inputs : list string) (filter_complex : list graph_entry)
                  (output : string).

(** The external tools. *)
Record tools := {
  ffmpeg_installed : bool;
  ffprobe : string → outcome completed_process;
  ffmpeg : ffmpeg_command → outcome Z;          (* the exit status *)
  dir_exists : string → bool;
  strftime_now : string;
}.

Definition Qltb (a b : Q) : bool := negb (Qle_bool b a).

Section transitions.
Variable tl : tools.
Variable video_files : list string.
Variable transition_duration : Q.
Variables target_width target_height : Z.

(** The fade-out the loop adds for [video_files[i]], if any. *)
Definition fade_out_of (video : string) : list vfilter :=
  match get_video_info (ffprobe tl) video with
  | Some video_info =>
      if Qltb 0 (duration video_info) then
        let fade_start := (duration video_info - transition_duration)%Q in
        [fade fade_out fade_start transition_duration]
      else []
  | None => []
  end.

(** The body of [for i in range(len(video_files)):]. *)
Definition segment_chain (i : nat) (video : string) : graph_entry :=
  chain i
    ([scale target_width target_height;
      pad target_width target_height; setsar1]
     ++ (if 0 <? i then [fade fade_in 0 transition_duration] else [])
     ++ (if i <? length video_files - 1 then fade_out_of video else []))
    i.
End transitions.

(** [filter_complex] as it stands when the command is built; [None] when
    the first probe gives nothing ([return False]). The head of an empty
    list is an [IndexError]. *)
Definition filter_complex (tl : tools) (video_files : list string)
    (transition_duration : Q) : outcome (option (list graph_entry)) :=
  match video_files with
  | [] => Raise "list index out of range"
  | first :: _ =>
      match get_video_info (ffprobe tl) first with
      | None => Ret None
      | Some first_info =>
          let target_width := width first_info in
          let target_height := height first_info in
          Ret (Some
            (imap (segment_chain tl video_files transition_duration
                                 target_width target_height) video_files
             ++ [concat (seq 0 (length video_files)) (length video_files)]))
      end
  end.

(** Running ffmpeg: the exit status decides, an exception is caught. *)
Definition run_ffmpeg (tl : tools) (segments : list string)
    (with_transitions : bool) (cmd : ffmpeg_command) (output_path : string)
    : M bool :=
  let* _ := emit (EvMerge segments with_transitions) in
  match ffmpeg tl cmd with
  | Ret code =>
      if (code =? 0)%Z then
        let* _ := write_file output_path FVideo in ret true
      else ret false
  | Raise _ => ret false
  end.

Definition merge_videos_with_transitions (tl : tools)
    (video_files : list string) (output_path : string)
    (transition_duration : Q) : M bool :=
  let* fc := lift (filter_complex tl video_files transition_duration) in
  match fc with
  | None => ret false
  | Some entries =>
      run_ffmpeg tl video_files true
                 (filter_encode video_files entries output_path) output_path
  end.

(** [Path(p).parent] *)
Fixpoint path_parent_go (s : string) : option string :=
  match s with
  | EmptyString => None
  | String c s' =>
      match path_parent_go s' with
      | Some d => Some (String c d)
      | None => if Ascii.eqb c "/" then Some EmptyString else None
      end
  end.
Definition path_parent (p : string) : string :=
  match path_parent_go p with
  | Some EmptyString => "/"
  | Some d => d
  | None => "."
  end.

(** *** The fast path: [merge_videos_concat] *)
Definition merge_videos_concat (tl : tools) (video_files : list string)
    (output_path : string) : M bool :=
  let concat_file := path_join (path_parent output_path) "concat_list.txt" in
  let* _ := write_file concat_file FOther in
  let* success :=
    run_ffmpeg tl video_files false
               (concat_copy concat_file output_path) output_path in
  let* _ := remove_file concat_file in
  ret success.

(** *** Directory listings *)

(** Paths compare component by component, as [pathlib] orders them. *)
Fixpoint parts_compare (a b : list string) : comparison :=
  match a, b with
  | [], [] => Eq
  | [], _ :: _ => Lt
  | _ :: _, [] => Gt
  | x :: a', y :: b' =>
      match String.compare x y with
      | Eq => parts_compare a' b'
      | c => c
      end
  end.
Definition path_compare (p q : string) : comparison :=
  parts_compare (split "/" p) (split "/" q).
Definition path_le (p q : string) : Prop := path_compare p q ≠ Gt.

Global Instance path_le_dec : RelDecision path_le.
Proof. intros p q. unfold path_le. apply _. Defined.

(** [sorted(paths)] and [paths.sort()] *)
Definition sorted (paths : list string) : list string :=
  merge_sort path_le paths.

(** The name of [p] when [p] is an entry of the directory [dir]. *)
Definition entry_name (dir p : string) : option string :=
  if startswith (dir +:+ "/") p then
    let name := drop_chars (String.length dir + 1) p in
    if contains_char "/" name || String.eqb name "" then None else Some name
  else None.

(** A pattern [pre*suf], with [pre] and [suf] taken literally. *)
Definition glob_match (pre suf name : string) : bool :=
  startswith pre name && endswith suf name &&
  (String.length pre + String.length suf <=? String.length name).

(** [dir.glob(pre*suf)]: the entries of [dir] whose name matches, in the
    order the listing happens to give. *)
Definition glob (fs : gmap string file) (dir pre suf : string) : list string :=
  List.filter
    (λ p, match entry_name dir p with
          | Some name => glob_match pre suf name
          | None => false
          end)
    (fst <$> map_to_list fs).

(** [path.exists()] *)
Definition exists_in (fs : gmap string file) (p : string) : bool :=
  bool_decide (is_Some (fs !! p)).

(** [json.load(f)] followed by [.get('timestamp')]. *)
Definition load_timestamp (f : file) : outcome (option string) :=
  match f with
  | FSession d => Ret (Some (sd_timestamp d))
  | FReport r => Ret (Some (rp_timestamp r))
  | FMergeReport r => Ret (Some (mr_timestamp r))
  | FJsonObject ts _ => Ret ts
  | FVideo | FOther => Raise "Expecting value"
  end.

(** [json.load(f)] followed by [.get('session_videos', [])]. *)
Definition load_session_videos (f : file) : outcome (list string) :=
  match f with
  | FSession d => Ret (session_videos d)
  | FReport _ | FMergeReport _ => Ret []
  | FJsonObject _ vids => Ret (default [] vids)
  | FVideo | FOther => Raise "Expecting value"
  end.

(** [latest_file.stem] for a name that ends in [.json]. *)
Definition stem (name : string) : string :=
  String.substring 0 (String.length name - 5) name.

(** *** [get_latest_session_timestamp] *)
Definition get_latest_session_timestamp (fs : gmap string file)
    (generated_ads_dir : string) : option string :=
  let latest_session_file :=
    path_join generated_ads_dir ads_generation.latest_session_name in
  let fallback :=
    let session_files := glob fs generated_ads_dir "session_videos_" ".json" in
    match last (sorted session_files) with
    | Some latest_file =>
        let filename := stem (path_name latest_file) in
        if contains_char "_" filename then
          match split "_" filename with
          | _ :: _ :: p2 :: p3 :: _ => Some (p2 +:+ "_" +:+ p3)
          | _ => None
          end
        else None
    | None => None
    end in
  match fs !! latest_session_file with
  | Some f =>
      match load_timestamp f with
      | Ret ts => ts
      | Raise _ => fallback
      end
  | None => fallback
  end.

(** *** Segment resolution *)

Inductive strategy := by_explicit_list | by_manifest | by_pattern | by_scan.

Global Instance strategy_eq_dec : EqDecision strategy.
Proof. solve_decision. Defined.

(** Lines 239-258: the produced-files list of the session file, kept where
    the file exists. *)
Definition manifest_videos (fs : gmap string file)
    (generated_ads_dir session_timestamp : string) : list string :=
  let session_file :=
    path_join generated_ads_dir
              (ads_generation.session_file_name session_timestamp) in
  match fs !! session_file with
  | Some f =>
      match load_session_videos f with
      | Ret names =>
          List.filter (exists_in fs) (path_join generated_ads_dir <$> names)
      | Raise _ => []
      end
  | None => []
  end.

(** Lines 263-264. *)
Definition pattern_videos (fs : gmap string file)
    (generated_ads_dir session_timestamp : string) : list string :=
  sorted (glob fs generated_ads_dir
               ("video_" +:+ session_timestamp +:+ "_") ".mp4").

(** Line 277. *)
Definition all_videos_in (fs : gmap string file) (generated_ads_dir : string)
    : list string :=
  sorted (glob fs generated_ads_dir "video_" ".mp4").

(** The local variables of [merge_generated_videos] once the segment list
    is settled (line 284), with the strategy that produced the list. *)
Record resolution := {
  video_files : list string;
  session_timestamp : option string;
  session_only : bool;
  used : strategy;
}.

Definition resolve (fs : gmap string file) (generated_ads_dir : string)
    (session_only0 : bool) (use_timestamp : option string) : resolution :=
  (* video_files = []; session_timestamp = use_timestamp *)
  let ts0 := use_timestamp in
  (* if session_only: if not session_timestamp: ... *)
  let ts :=
    if session_only0 then
      match ads_generation.truthy ts0 with
      | Some _ => ts0
      | None => get_latest_session_timestamp fs generated_ads_dir
      end
    else ts0 in
  (* if session_only: if session_timestamp: ... *)
  let '(files1, used1) :=
    if session_only0 then
      match ads_generation.truthy ts with
      | Some t =>
          match manifest_videos fs generated_ads_dir t with
          | [] => (pattern_videos fs generated_ads_dir t, by_pattern)
          | vs => (vs, by_manifest)
          end
      | None => ([], by_pattern)
      end
    else ([], by_pattern) in
  (* if session_only: if not video_files: session_only = False *)
  let session_only1 :=
    if session_only0 then
      match files1 with [] => false | _ => true end
    else false in
  (* if not session_only or not video_files: *)
  let '(files2, used2) :=
    if negb session_only1 || match files1 with [] => true | _ => false end
    then (all_videos_in fs generated_ads_dir, by_scan)
    else (files1, used1) in
  {| video_files := sorted files2; session_timestamp := ts;
     session_only := session_only1; used := used2 |}.

(** *** [merge_generated_videos] *)
Definition merge_generated_videos (tl : tools) (folder_path : string)
    (transition : bool) (transition_duration : Q) (session_only0 : bool)
    (use_timestamp : option string) : M bool :=
  let generated_ads_dir := folder_path in
  if negb (dir_exists tl generated_ads_dir) then ret false else
  λ w,
    let r := resolve (fs w) generated_ads_dir session_only0 use_timestamp in
    match video_files r with
    | [] => ret false w
    | _ =>
        let scoped :=
          if session_only r then ads_generation.truthy (session_timestamp r)
          else None in
        let merge_type :=
          match scoped with
          | Some t => "session " +:+ t
          | None => "all available"
          end in
        let timestamp := strftime_now tl in
        let output_filename :=
          match scoped with
          | Some t => "merged_" +:+ t +:+ ".mp4"
          | None => "merged_" +:+ timestamp +:+ ".mp4"
          end in
        let output_path := path_join generated_ads_dir output_filename in
        (let* success :=
           if transition then
             merge_videos_with_transitions tl (video_files r) output_path
                                           transition_duration
           else merge_videos_concat tl (video_files r) output_path in
         if success then
           let report :=
             {| mr_timestamp := timestamp;
                mr_session_timestamp :=
                  if session_only r then session_timestamp r else None;
                source_videos := path_name <$> video_files r;
                output_video := output_filename;
                mr_transition := transition;
                mr_transition_duration :=
                  if transition then transition_duration else 0%Q;
                total_videos := length (video_files r);
                merge_type := merge_type |} in
           let* _ :=
             write_file (path_join generated_ads_dir
                           ("merge_report_" +:+ timestamp +:+ ".json"))
                        (FMergeReport report) in
           ret true
         else ret false) w
    end.

(** *** [main] *)
Record arguments := {
  folder : string;
  arg_transition : bool;
  arg_transition_duration : Q;
  all_videos : bool;
  arg_timestamp : option string;
  videos : option (list string);
}.

(** The exit status of the process. *)
Definition main (tl : tools) (args : arguments) : M Z :=
  if negb (ffmpeg_installed tl) then ret 1%Z else
  match videos args with
  | Some (v :: vs) =>
      λ w,
        let video_files := List.filter (exists_in (fs w)) (v :: vs) in
        match video_files with
        | [] => ret 1%Z w
        | first :: _ =>
            let output_dir := path_parent first in
            let output_path :=
              path_join output_dir
                        ("merged_" +:+ strftime_now tl +:+ ".mp4") in
            (let* success :=
               if arg_transition args then
                 merge_videos_with_transitions tl video_files output_path
                   (arg_transition_duration args)
               else merge_videos_concat tl video_files output_path in
             ret (if success then 0%Z else 1%Z)) w
        end
  | _ =>
      let* success :=
        merge_generated_videos tl (folder args) (arg_transition args)
          (arg_transition_duration args) (negb (all_videos args))
          (arg_timestamp args) in
      ret (if success then 0%Z else 1%Z)
  end.

End merge_videos.

(** ** [generate_video_ads.py]: the pipeline *)

Module generate_video_ads.
Import text.

(** [subprocess.run(command, check=True)] gives the exit status of the
    command, or raises something else than [CalledProcessError]. *)
Definition run_command (subprocess_run : list string → outcome Z)
    (command : list string) : outcome bool :=
  match subprocess_run command with
  | Ret returncode => Ret (returncode =? 0)%Z
  | Raise e => Raise e
  end.

(** The number of [*.jpg], [*.jpeg] and [*.png] entries of a folder. *)
Definition image_count (fs : gmap string file) (dir : string) : nat :=
  length (merge_videos.glob fs dir "" ".jpg"
          ++ merge_videos.glob fs dir "" ".jpeg"
          ++ merge_videos.glob fs dir "" ".png").

Definition validate_folder_structure (dir_exists : string → bool)
    (fs : gmap string file) (folder_path : string) : bool :=
  if negb (dir_exists folder_path) then false else
  let product_images := path_join folder_path "product_images" in
  if negb (dir_exists product_images) then false else
  if image_count fs product_images =? 0 then false else true.

Record arguments := {
  folder : string;
  num_images : Z;
  prompts : Z;
  skip_selection : bool;
  skip_analysis : bool;
  s3_bucket : option string;
  merge : bool;
  merge_all : bool;
  transition : bool;
}.

Record step := { name : string; command : list string }.

(** The list [steps] as it stands when the loop starts. *)
Definition steps (args : arguments) (session_timestamp : string)
    : list step :=
  let total_videos := (num_images args * prompts args)%Z in
  let generated_folder := path_join (folder args) "generated_ads" in
  (if skip_selection args then [] else
     [{| name := "Image Selection (" +:+ str_of_int (num_images args)
                 +:+ " images)";
         command := ["python"; "image_analysis_and_selection.py";
                     folder args; "--num-images";
                     str_of_int (num_images args)] |}])
  ++ (if skip_analysis args then [] else
        [{| name := "Product Analysis & Prompt Generation ("
                    +:+ str_of_int (prompts args) +:+ " prompts per image)";
            command := ["python"; "product_analysis.py"; folder args; "-n";
                        str_of_int (prompts args)] |}])
  ++ match ads_generation.truthy (s3_bucket args) with
     | Some bucket =>
         [{| name := "Video Generation (" +:+ str_of_int (prompts args)
                     +:+ " videos per image, " +:+ str_of_int total_videos
                     +:+ " total)";
             command := ["python"; "ads_generation.py"; folder args; "-n";
                         str_of_int (prompts args); "--s3-bucket"; bucket;
                         "--timestamp"; session_timestamp] |}]
         ++ (if merge args || merge_all args then
               [{| name := if merge_all args
                           then "Video Merging (All Videos)"
                           else "Video Merging (Session "
                                +:+ session_timestamp +:+ ")";
                   command :=
                     ["python"; "merge_videos.py"; generated_folder]
                     ++ (if transition args then ["--transition"] else [])
                     ++ (if merge_all args then ["--all-videos"]
                         else ["--timestamp"; session_timestamp]) |}]
             else [])
     | None => []
     end.

(** How the pipeline ends: with [sys.exit(code)], or by running on to the
    summary. *)
Inductive pipeline_result : Type :=
  | exited (code : Z)
  | completed.

(** The loop over the steps, with the commands run so far. *)
Fixpoint run_steps (subprocess_run : list string → outcome Z)
    (steps : list step) (log : list (list string))
    : outcome pipeline_result * list (list string) :=
  match steps with
  | [] => (Ret completed, log)
  | step :: rest =>
      let log := log ++ [command step] in
      match run_command subprocess_run (command step) with
      | Ret true => run_steps subprocess_run rest log
      | Ret false => (Ret (exited 1), log)
      | Raise e => (Raise e, log)
      end
  end.

(** [main], up to the end of the loop; [completed] stands for the summary
    that follows, which prints what it finds in the folder. *)
Definition main (dir_exists : string → bool)
    (fs : gmap string file) (subprocess_run : list string → outcome Z)
    (strftime_now : string) (args : arguments)
    : outcome pipeline_result * list (list string) :=
  if negb (validate_folder_structure dir_exists fs (folder args))
  then (Ret (exited 1), [])
  else run_steps subprocess_run (steps args strftime_now) [].

End generate_video_ads.

(** * Properties *)

(** ** The job tracker *)

Section job_tracker_facts.
Import text ads_generation.

Variable client : bedrock_client.
Variables (prompt_text s3_bucket s3_prefix : string).
Variable k : nat.
Variable keyframe_image : option string.
Variable image_filename : option string.
Variable uuid : string.

(** A status that ends the polling neither way. *)
Definition is_pending (sr : status_response) : bool :=
  match status sr with
  | Some s => negb (String.eqb s "Completed") && negb (String.eqb s "Failed")
  | None => false
  end.

(** The status reads [a], [a+1], ..., [a+j-1] of [arn] all answer with a
    pending status. *)
Definition pending_until (arn : string) (a j : nat) : Prop :=
  ∀ i, i < j → ∃ sr, get_async_invoke client arn (a + i) = Ret sr
                     ∧ is_pending sr = true.

(** What [m] rounds of the polling loop leave in the trace. *)
Definition poll_events (m : nat) : list event :=
  concat (replicate m [EvSleep poll_delay; EvPoll k]).

Definition after_polls (w : world) (m : nat) : world :=
  {| fs := fs w; clock := clock w + poll_delay * m;
     trace := trace w ++ poll_events m |}.

Lemma after_polls_0 w : after_polls w 0 = w.
Proof.
  destruct w as [f c t]. unfold after_polls; simpl.
  f_equal; solve [lia | by rewrite app_nil_r].
Qed.

Lemma after_polls_S w m : after_polls (after_polls w 1) m = after_polls w (S m).
Proof.
  unfold after_polls, poll_events; simpl.
  f_equal; solve [lia | by rewrite <- app_assoc].
Qed.

Local Abbreviation poll_loop :=
  (poll_loop client prompt_text k image_filename uuid).

(** One round of the loop, case by case. *)
Lemma poll_loop_step arn t0 n a w :
  poll_loop arn t0 (S n) a w =
  match get_async_invoke client arn a with
  | Raise e => (Raise e, after_polls w 1)
  | Ret sr =>
      match status sr with
      | None => (Raise "'status'", after_polls w 1)
      | Some s =>
          if String.eqb s "Completed" then
            match outputDataConfig sr with
            | None => (Raise "'outputDataConfig'", after_polls w 1)
            | Some odc =>
                match s3OutputDataConfig odc with
                | None => (Raise "'s3OutputDataConfig'", after_polls w 1)
                | Some s3c =>
                    match s3Uri s3c with
                    | None => (Raise "'s3Uri'", after_polls w 1)
                    | Some loc =>
                        (Ret (Some (completed_result prompt_text k
                                      image_filename uuid loc
                                      (clock w + poll_delay - t0))),
                         after_polls w 1)
                    end
                end
            end
          else if String.eqb s "Failed" then
            (Ret (Some (failed_result prompt_text k image_filename sr)),
             after_polls w 1)
          else poll_loop arn t0 n (S a) (after_polls w 1)
      end
  end.
Proof.
  assert (Hw : ∀ w0 : world,
    {| fs := fs w0; clock := clock w0 + poll_delay;
       trace := (trace w0 ++ [EvSleep poll_delay]) ++ [EvPoll k] |}
    = after_polls w0 1).
  { intros w0. unfold after_polls, poll_events; simpl.
    f_equal; solve [done | by rewrite <- app_assoc]. }
  cbn [ads_generation.poll_loop].
  unfold bind, sleep, emit, lift, time, getitem, ret, raise; simpl.
  rewrite Hw.
  destruct (get_async_invoke client arn a) as [sr|e]; [|done].
  destruct (status sr) as [s|]; [|done].
  destruct (String.eqb s "Completed").
  - destruct (outputDataConfig sr) as [odc|]; [|done].
    destruct (s3OutputDataConfig odc) as [s3c|]; [|done].
    destruct (s3Uri s3c) as [loc|]; done.
  - destruct (String.eqb s "Failed"); done.
Qed.

(** Pending answers only pass the time. *)
Lemma poll_loop_pending arn t0 j : ∀ n a w,
  pending_until arn a j →
  poll_loop arn t0 (j + n) a w = poll_loop arn t0 n (a + j) (after_polls w j).
Proof.
  induction j as [|j IH]; intros n a w Hp.
  - by rewrite after_polls_0, Nat.add_0_r.
  - change (S j + n) with (S (j + n)). rewrite poll_loop_step.
    destruct (Hp 0 ltac:(lia)) as (sr & Hsr & Hpend).
    rewrite Nat.add_0_r in Hsr. rewrite Hsr.
    unfold is_pending in Hpend. destruct (status sr) as [s|]; [|done].
    apply andb_true_iff in Hpend as [H1 H2].
    apply negb_true_iff in H1, H2. rewrite H1, H2.
    rewrite IH.
    + by rewrite after_polls_S, <- Nat.add_succ_comm.
    + intros i Hi. destruct (Hp (S i) ltac:(lia)) as (sr' & Hsr' & Hp').
      exists sr'. by rewrite Nat.add_succ_comm.
Qed.

(** The loop never runs more than [n] rounds, whatever the service
    answers, and touches nothing but the clock and the trace. *)
Lemma poll_loop_bounded arn t0 : ∀ n a w,
  ∃ m, m ≤ n ∧ snd (poll_loop arn t0 n a w) = after_polls w m.
Proof.
  induction n as [|n IH]; intros a w.
  - exists 0. by rewrite after_polls_0.
  - rewrite poll_loop_step.
    destruct (get_async_invoke client arn a) as [sr|e];
      [|exists 1; split; [lia|done]].
    destruct (status sr) as [s|]; [|exists 1; split; [lia|done]].
    destruct (String.eqb s "Completed").
    { exists 1. split; [lia|].
      destruct (outputDataConfig sr) as [odc|]; [|done].
      destruct (s3OutputDataConfig odc) as [s3c|]; [|done].
      destruct (s3Uri s3c) as [loc|]; done. }
    destruct (String.eqb s "Failed"); [exists 1; split; [lia|done]|].
    destruct (IH (S a) (after_polls w 1)) as (m & Hm & Heq).
    exists (S m). split; [lia|]. by rewrite Heq, after_polls_S.
Qed.

(** A result the loop returns is a completed or a failed one. *)
Lemma poll_loop_result arn t0 : ∀ n a w r,
  fst (poll_loop arn t0 n a w) = Ret (Some r) →
  (∃ loc t, r = completed_result prompt_text k image_filename uuid loc t)
  ∨ (∃ sr, r = failed_result prompt_text k image_filename sr).
Proof.
  induction n as [|n IH]; intros a w r; [done|].
  rewrite poll_loop_step.
  destruct (get_async_invoke client arn a) as [sr|e]; [|done].
  destruct (status sr) as [s|]; [|done].
  destruct (String.eqb s "Completed").
  { destruct (outputDataConfig sr) as [odc|]; [|done].
    destruct (s3OutputDataConfig odc) as [s3c|]; [|done].
    destruct (s3Uri s3c) as [loc|]; [|done].
    simpl. intros [= <-]. left; eauto. }
  destruct (String.eqb s "Failed"); [|by apply IH].
  simpl. intros [= <-]. right; eauto.
Qed.

(** The events of one job that polled [m] times. *)
Definition job_events (m : nat) : list event := EvStart k :: poll_events m.

Definition after_job (w : world) (m : nat) : world :=
  {| fs := fs w; clock := clock w + poll_delay * m;
     trace := trace w ++ job_events m |}.

Lemma after_polls_start w m :
  after_polls {| fs := fs w; clock := clock w;
                 trace := trace w ++ [EvStart k] |} m = after_job w m.
Proof.
  unfold after_polls, after_job, job_events; simpl.
  f_equal. by rewrite <- app_assoc.
Qed.

Local Abbreviation submit_and_poll :=
  (submit_and_poll client prompt_text s3_bucket s3_prefix k keyframe_image
                   image_filename uuid).
Local Abbreviation generate_video_async :=
  (generate_video_async client prompt_text s3_bucket s3_prefix k
                        keyframe_image image_filename uuid).
Local Abbreviation start_call :=
  (start_async_invoke client "luma.ray-v2:0"
     (build_model_input prompt_text keyframe_image)
     (s3_output_uri s3_bucket s3_prefix uuid)).
Local Abbreviation timed_out :=
  (timed_out_result prompt_text k image_filename).
Local Abbreviation from_exception :=
  (exception_result prompt_text k image_filename).

(** The body of the [try], case by case. *)
Lemma submit_and_poll_unfold w :
  submit_and_poll w =
  match start_call with
  | Raise e => (Raise e, after_job w 0)
  | Ret response =>
      match invocationArn response with
      | None => (Raise "'invocationArn'", after_job w 0)
      | Some arn =>
          match poll_loop arn (clock w) max_attempts 0 (after_job w 0) with
          | (Ret (Some result), w') => (Ret result, w')
          | (Ret None, w') => (Ret timed_out, w')
          | (Raise e, w') => (Raise e, w')
          end
      end
  end.
Proof.
  unfold ads_generation.submit_and_poll.
  unfold bind at 1 2 3 4, time, emit, lift; cbv beta iota.
  rewrite <- (after_polls_start w 0), after_polls_0.
  destruct start_call as [response|e]; [|done].
  destruct (invocationArn response) as [arn|]; [|done].
  unfold getitem, ret, bind; cbv beta iota.
  by destruct (poll_loop _ _ _ _ _) as [[[r|]|e] w'].
Qed.

(** The function catches whatever the body raises. *)
Lemma generate_video_async_unfold w :
  generate_video_async w =
  match submit_and_poll w with
  | (Ret r, w') => (Ret r, w')
  | (Raise e, w') => (Ret (from_exception e), w')
  end.
Proof. done. Qed.

(** The four shapes of a result. *)
Inductive job_result : video_result → Prop :=
  | jr_completed loc t :
      job_result (completed_result prompt_text k image_filename uuid loc t)
  | jr_failed sr : job_result (failed_result prompt_text k image_filename sr)
  | jr_timed_out : job_result timed_out
  | jr_exception e : job_result (from_exception e).

(** Every call returns a result, after at most [max_attempts] rounds of
    polling, having changed only the clock and the trace. *)
Lemma generate_video_async_returns w :
  ∃ r m, m ≤ max_attempts ∧ job_result r
         ∧ generate_video_async w = (Ret r, after_job w m).
Proof.
  rewrite generate_video_async_unfold, submit_and_poll_unfold.
  destruct start_call as [response|e];
    [|exists (from_exception e), 0; split_and!; [lia|constructor|done]].
  destruct (invocationArn response) as [arn|];
    [|eexists _, 0; split_and!; [lia|constructor|done]].
  destruct (poll_loop_bounded arn (clock w) max_attempts 0 (after_job w 0))
    as (m & Hm & Hsnd).
  pose proof (poll_loop_result arn (clock w) max_attempts 0 (after_job w 0))
    as Hres.
  destruct (poll_loop _ _ _ _ _) as [[[r|]|e] w'] eqn:Hloop;
    simpl in Hsnd; subst w'.
  - exists r, m. split_and!; [done| |].
    + destruct (Hres r eq_refl) as [(loc & t & ->)|(sr & ->)]; constructor.
    + unfold after_job at 1. unfold after_polls, after_job; simpl.
      f_equal. f_equal; solve [lia | by rewrite <- app_assoc].
  - exists timed_out, m. split_and!; [done|constructor|].
    unfold after_polls, after_job; simpl.
    f_equal. f_equal; solve [lia | by rewrite <- app_assoc].
  - exists (from_exception e), m. split_and!; [done|constructor|].
    unfold after_polls, after_job; simpl.
    f_equal. f_equal; solve [lia | by rewrite <- app_assoc].
Qed.

(** An exception raised by the service during submission or polling. *)
Inductive remote_exception : exn → Prop :=
  | start_raises e : start_call = Raise e → remote_exception e
  | poll_raises response arn j e :
      start_call = Ret response →
      invocationArn response = Some arn →
      j < max_attempts →
      pending_until arn 0 j →
      get_async_invoke client arn j = Raise e →
      remote_exception e.

Lemma remote_exception_caught e w :
  remote_exception e →
  ∃ m, m ≤ max_attempts
       ∧ generate_video_async w = (Ret (from_exception e), after_job w m).
Proof.
  intros He. rewrite generate_video_async_unfold, submit_and_poll_unfold.
  destruct He as [e He|response arn j e Hs Harn Hj Hp He].
  - rewrite He. exists 0. split; [lia|done].
  - rewrite Hs, Harn. exists (S j). split; [lia|].
    assert (poll_loop arn (clock w) max_attempts 0 (after_job w 0)
            = (Raise e, after_job w (S j))) as ->; [|done].
    replace max_attempts with (j + S (max_attempts - S j)) by lia.
    rewrite (poll_loop_pending _ _ _ _ _ _ Hp), poll_loop_step.
    simpl. rewrite He. f_equal.
    unfold after_polls, after_job, job_events, poll_events; simpl.
    f_equal; [lia|].
    rewrite <- !app_assoc. simpl. do 2 f_equal.
    change [EvSleep poll_delay; EvPoll k]
      with (concat (replicate 1 [EvSleep poll_delay; EvPoll k])).
    rewrite <- concat_app, <- replicate_add.
    by rewrite Nat.add_1_r.
Qed.

(** Sixty pending answers exhaust the budget. *)
Lemma budget_exhausted response arn w :
  start_call = Ret response →
  invocationArn response = Some arn →
  pending_until arn 0 max_attempts →
  generate_video_async w = (Ret timed_out, after_job w max_attempts).
Proof.
  intros Hs Harn Hp.
  rewrite generate_video_async_unfold, submit_and_poll_unfold, Hs, Harn.
  assert (poll_loop arn (clock w) max_attempts 0 (after_job w 0)
          = (Ret None, after_job w max_attempts)) as ->; [|done].
  replace (poll_loop arn (clock w) max_attempts)
    with (poll_loop arn (clock w) (max_attempts + 0))
    by (f_equal; lia).
  rewrite (poll_loop_pending _ _ _ _ _ _ Hp). simpl. f_equal.
  unfold after_polls, after_job; simpl.
  f_equal; solve [lia | by rewrite <- app_assoc].
Qed.
End job_tracker_facts.

(** ** Retrieval *)

Section retrieval_facts.
Import text ads_generation.

(** The world after [path] has been downloaded. *)
Definition downloaded (w : world) (path : string) : world :=
  {| fs := <[path := FVideo]> (fs w); clock := clock w;
     trace := trace w ++ [EvWrite path] |}.

(** [download_video_from_s3] always returns, and writes the local file
    exactly when it returns [True]. *)
Lemma download_video_from_s3_returns s3c location path w :
  ∃ ok : bool,
    download_video_from_s3 s3c location path w
    = (Ret ok, if ok then downloaded w path else w).
Proof.
  unfold download_video_from_s3, try_except.
  destruct (split_once _ _) as [[bucket prefix]|]; [|by exists false].
  unfold bind, lift, ret.
  destruct (list_objects_v2 s3c bucket prefix) as [response|e];
    [|by exists false].
  destruct (Contents response) as [objs|]; [|by exists false].
  destruct (List.find is_mp4 objs) as [obj|]; [|by exists false].
  destruct (download_file s3c bucket (Key obj) path) as [[]|e];
    [by exists true | by exists false].
Qed.
End retrieval_facts.

(** ** The session aggregator *)

Section session_facts.
Import text ads_generation.

Variable env : environment.
Variable folder_path : string.
Variable num_videos_per_image : Z.
Variable s3_bucket : string.
Variable use_images : bool.
Variable ts : string.

Local Abbreviation process_pair :=
  (process_pair env folder_path s3_bucket ts).
Local Abbreviation prompts_loop :=
  (prompts_loop env folder_path s3_bucket ts).
Local Abbreviation images_loop :=
  (images_loop env folder_path num_videos_per_image s3_bucket use_images ts).
Local Abbreviation run_session :=
  (run_session env folder_path num_videos_per_image s3_bucket use_images ts).

(** The local path derived for the pair [(img_idx, prompt_idx)]. *)
Definition local_path_of (img_idx prompt_idx : nat) (d : prompt_data)
    : string :=
  path_join (generated_folder folder_path)
    (local_filename_of ts img_idx prompt_idx (snd (prompt_fields d))).

(** What the aggregator records about the job [k] run for a pair. *)
Record pair_outcome (img_idx prompt_idx : nat) (d : prompt_data) (k : nat)
    (r : video_result) : Prop := {
  po_video_index : video_index r = k;
  po_image_index : image_index r = Some img_idx;
  po_prompt_index : prompt_index r = Some prompt_idx;
  po_prompt_type : prompt_type r = Some (snd (prompt_fields d));
  po_prompt : prompt r = fst (prompt_fields d);
  po_timestamp : timestamp r = Some ts;
  po_terminal : success r = true ∨ (success r = false ∧ is_Some (error r));
  po_local_filename :
    local_filename r = None
    ∨ (success r = true
       ∧ local_filename r = Some (local_path_of img_idx prompt_idx d));
}.

(** The appends of one iteration. *)
Definition record_result (st : progress) (r : video_result) : progress :=
  {| p_total_video_index := S (p_total_video_index st);
     p_successful_videos :=
       if success r then p_successful_videos st ++ [r]
       else p_successful_videos st;
     p_failed_videos :=
       if success r then p_failed_videos st
       else p_failed_videos st ++ [r] |}.

(** What the retrieval of job [k] leaves in the trace and in the
    directory, read off the recorded result. *)
Definition retrieval_events (k : nat) (r : video_result) : list event :=
  if success r then
    EvRetrieve k :: match local_filename r with
                    | Some p => [EvWrite p]
                    | None => []
                    end
  else [].

Definition retrieval_fs (r : video_result) (f : gmap string file)
    : gmap string file :=
  match local_filename r with
  | Some p => <[p := FVideo]> f
  | None => f
  end.

(** The world after a job that polled [m] times and was recorded as [r]. *)
Definition after_pair (w : world) (rm : video_result * nat) : world :=
  {| fs := retrieval_fs rm.1 (fs w);
     clock := clock w + poll_delay * rm.2;
     trace := trace w ++ job_events (video_index rm.1) rm.2
                      ++ retrieval_events (video_index rm.1) rm.1 |}.

Lemma process_pair_spec image_filename keyframe img_idx prompt_idx d st w :
  ∃ r m, m ≤ max_attempts
    ∧ pair_outcome img_idx prompt_idx d (S (p_total_video_index st)) r
    ∧ process_pair image_filename keyframe img_idx prompt_idx d st w
      = (Ret (record_result st r), after_pair w (r, m)).
Proof.
  unfold ads_generation.process_pair, local_path_of.
  destruct (prompt_fields d) as [prompt_text type_name] eqn:Hd. simpl.
  set (k := S (p_total_video_index st)).
  destruct (generate_video_async_returns (bedrock env) prompt_text s3_bucket
              (s3_prefix ts) k keyframe (Some image_filename)
              (uuid4 env k) w) as (r0 & m & Hm & Hr0 & Hrun).
  unfold bind at 1. rewrite Hrun.
  set (r := annotate r0 image_filename type_name img_idx prompt_idx ts).
  assert (Hfields : ∀ r', success r' = success r0 →
            video_index r' = video_index r0 → image_index r' = image_index r →
            prompt_index r' = prompt_index r → prompt_type r' = prompt_type r →
            prompt r' = prompt r0 → timestamp r' = timestamp r →
            error r' = error r0 →
            (local_filename r' = None
             ∨ success r' = true
               ∧ local_filename r' = Some
                   (path_join (generated_folder folder_path)
                      (local_filename_of ts img_idx prompt_idx type_name))) →
            pair_outcome img_idx prompt_idx d k r').
  { intros r' Hs Hv Hi Hp Ht Hpr Hts He Hl.
    split.
    - rewrite Hv. by destruct Hr0.
    - by rewrite Hi.
    - by rewrite Hp.
    - by rewrite Ht, Hd.
    - rewrite Hpr, Hd. by destruct Hr0.
    - by rewrite Hts.
    - rewrite Hs, He. destruct Hr0; simpl; eauto.
    - unfold local_path_of. by rewrite Hd. }
  destruct Hr0 as [loc t|sr| |e]; simpl.
  - (* completed: one retrieval *)
    unfold bind, emit, ret; simpl.
    edestruct (download_video_from_s3_returns (s3 env) loc) as [ok Hdl].
    rewrite Hdl.
    destruct ok.
    + eexists (set_local_filename r _), m. split_and!; [done| |].
      * apply Hfields; simpl; auto.
      * unfold record_result, after_pair, downloaded, after_job; simpl.
        f_equal. f_equal. by rewrite <- !app_assoc.
    + exists r, m. split_and!; [done| |].
      * apply Hfields; simpl; auto.
      * unfold record_result, after_pair, after_job; simpl.
        f_equal. f_equal. by rewrite <- !app_assoc.
  - exists r, m. split_and!; [done|apply Hfields; simpl; auto|].
    unfold ret, record_result, after_pair, after_job; simpl.
    f_equal. f_equal. by rewrite app_nil_r.
  - exists r, m. split_and!; [done|apply Hfields; simpl; auto|].
    unfold ret, record_result, after_pair, after_job; simpl.
    f_equal. f_equal. by rewrite app_nil_r.
  - exists r, m. split_and!; [done|apply Hfields; simpl; auto|].
    unfold ret, record_result, after_pair, after_job; simpl.
    f_equal. f_equal. by rewrite app_nil_r.
Qed.

(** The (image, prompt) pairs in the order the two loops visit them:
    image-major, prompt-minor, ordinals from 1. *)
Fixpoint pairs_of_prompts (img_idx prompt_idx : nat)
    (prompts : list prompt_data) : list (nat * nat * prompt_data) :=
  match prompts with
  | [] => []
  | d :: rest =>
      (img_idx, prompt_idx, d) :: pairs_of_prompts img_idx (S prompt_idx) rest
  end.

Fixpoint pairs_of (img_idx : nat) (analyses : list image_analysis)
    : list (nat * nat * prompt_data) :=
  match analyses with
  | [] => []
  | a :: rest =>
      pairs_of_prompts img_idx 1
        (slice_to num_videos_per_image (default [] (ia_video_prompts a)))
      ++ pairs_of (S img_idx) rest
  end.

(** [outcomes k pairs outs]: [outs] lists, pair by pair, a recorded result
    and the number of status reads of its job; jobs are numbered from
    [k + 1]. *)
Inductive outcomes : nat → list (nat * nat * prompt_data)
                     → list (video_result * nat) → Prop :=
  | outcomes_nil k : outcomes k [] []
  | outcomes_cons k i p d pairs r m outs :
      m ≤ max_attempts →
      pair_outcome i p d (S k) r →
      outcomes (S k) pairs outs →
      outcomes k ((i, p, d) :: pairs) ((r, m) :: outs).

Lemma outcomes_length k pairs outs :
  outcomes k pairs outs → length outs = length pairs.
Proof. induction 1; simpl; auto. Qed.

Lemma outcomes_app k pairs1 outs1 pairs2 outs2 :
  outcomes k pairs1 outs1 →
  outcomes (k + length pairs1) pairs2 outs2 →
  outcomes k (pairs1 ++ pairs2) (outs1 ++ outs2).
Proof.
  induction 1 as [k|k i p d pairs r m outs Hm Hr _ IH]; simpl.
  - by rewrite Nat.add_0_r.
  - intros H2. constructor; [done..|].
    apply IH. by rewrite Nat.add_succ_comm.
Qed.

Lemma record_results_total st rs :
  p_total_video_index (foldl record_result st rs)
  = p_total_video_index st + length rs.
Proof.
  revert st. induction rs as [|r rs IH]; intros st; simpl; [lia|].
  rewrite IH. simpl. lia.
Qed.

Lemma record_results_successful st rs :
  p_successful_videos (foldl record_result st rs)
  = p_successful_videos st ++ List.filter success rs.
Proof.
  revert st. induction rs as [|r rs IH]; intros st; simpl.
  - by rewrite app_nil_r.
  - rewrite IH. simpl. destruct (success r); [|done].
    by rewrite <- app_assoc.
Qed.

Lemma record_results_failed st rs :
  p_failed_videos (foldl record_result st rs)
  = p_failed_videos st ++ List.filter (λ r, negb (success r)) rs.
Proof.
  revert st. induction rs as [|r rs IH]; intros st; simpl.
  - by rewrite app_nil_r.
  - rewrite IH. simpl. destruct (success r); [done|].
    by rewrite <- app_assoc.
Qed.

Lemma prompts_loop_spec image_filename keyframe img_idx :
  ∀ prompts prompt_idx st w,
  ∃ outs,
    outcomes (p_total_video_index st)
             (pairs_of_prompts img_idx prompt_idx prompts) outs
    ∧ prompts_loop image_filename keyframe img_idx prompt_idx prompts st w
      = (Ret (foldl record_result st outs.*1), foldl after_pair w outs).
Proof.
  induction prompts as [|d rest IH]; intros prompt_idx st w.
  - exists []. split; [simpl; constructor | reflexivity].
  - destruct (process_pair_spec image_filename keyframe img_idx prompt_idx
                d st w) as (r & m & Hm & Hr & Hrun).
    destruct (IH (S prompt_idx) (record_result st r) (after_pair w (r, m)))
      as (outs & Houts & Hloop).
    exists ((r, m) :: outs). split; [by constructor|].
    cbn [ads_generation.prompts_loop]. unfold bind. by rewrite Hrun, Hloop.
Qed.

Lemma slice_to_nil {A} n : slice_to n (@nil A) = [].
Proof. unfold slice_to. destruct (0 <=? n)%Z; apply take_nil. Qed.

Lemma images_loop_spec :
  ∀ analyses img_idx st w,
  ∃ outs,
    outcomes (p_total_video_index st) (pairs_of img_idx analyses) outs
    ∧ images_loop img_idx analyses st w
      = (Ret (foldl record_result st outs.*1), foldl after_pair w outs).
Proof.
  induction analyses as [|a rest IH]; intros img_idx st w.
  - exists []. split; [simpl; constructor | reflexivity].
  - cbn [ads_generation.images_loop pairs_of].
    destruct (default [] (ia_video_prompts a)) as [|d ds] eqn:Hprompts.
    + rewrite slice_to_nil. apply IH.
    + set (image_filename :=
             default ("image_" +:+ str_of_nat img_idx) (ia_image_filename a)).
      destruct (prompts_loop_spec image_filename
                  (keyframe_for env folder_path use_images image_filename
                                img_idx)
                  img_idx (slice_to num_videos_per_image (d :: ds)) 1 st w)
        as (outs1 & Houts1 & Hrun1).
      destruct (IH (S img_idx) (foldl record_result st outs1.*1)
                   (foldl after_pair w outs1)) as (outs2 & Houts2 & Hrun2).
      exists (outs1 ++ outs2). split.
      * apply outcomes_app; [done|].
        rewrite record_results_total, length_fmap in Houts2.
        by rewrite <- (outcomes_length _ _ _ Houts1).
      * unfold bind. rewrite Hrun1, Hrun2.
        by rewrite fmap_app, !foldl_app.
Qed.

(** What a run of jobs leaves in the trace. *)
Definition pair_trace (rm : video_result * nat) : list event :=
  job_events (video_index rm.1) rm.2
  ++ retrieval_events (video_index rm.1) rm.1.
Definition pairs_trace (outs : list (video_result * nat)) : list event :=
  concat (pair_trace <$> outs).

Lemma after_pairs_trace outs : ∀ w,
  trace (foldl after_pair w outs) = trace w ++ pairs_trace outs.
Proof.
  induction outs as [|rm outs IH]; intros w; simpl.
  - by rewrite app_nil_r.
  - rewrite IH. unfold pairs_trace; simpl.
    by rewrite <- app_assoc.
Qed.

(** The world after [open(path, 'w')] and the dump of [c]. *)
Definition written (w : world) (path : string) (c : file) : world :=
  {| fs := <[path := c]> (fs w); clock := clock w;
     trace := trace w ++ [EvWrite path] |}.

Local Abbreviation report_file := (report_file folder_path ts).
Local Abbreviation session_file := (session_file folder_path ts).
Local Abbreviation latest_session_file := (latest_session_file folder_path).

(** The progress, the report and the manifest of a session whose jobs
    came out as [outs]. *)
Definition session_progress (outs : list (video_result * nat)) : progress :=
  foldl record_result initial_progress outs.*1.

Definition session_report (analyses : list image_analysis)
    (outs : list (video_result * nat)) : report :=
  mk_report ts (isoformat_report env) s3_bucket (s3_prefix ts)
    (length analyses) num_videos_per_image (session_progress outs)
    use_images.

Definition session_manifest (rep : report) : session_data :=
  mk_session_data env ts (session_videos_of (successful_videos rep)).

(** The two manifest writes, made only for a non-empty list. *)
Definition publish (rep : report) (w : world) : world :=
  match session_videos_of (successful_videos rep) with
  | [] => w
  | _ => written (written w session_file (FSession (session_manifest rep)))
                 latest_session_file (FSession (session_manifest rep))
  end.

Definition after_session (analyses : list image_analysis)
    (outs : list (video_result * nat)) (w : world) : world :=
  let rep := session_report analyses outs in
  publish rep (written (foldl after_pair w outs) report_file (FReport rep)).

Lemma run_session_spec analyses w :
  ∃ outs,
    outcomes 0 (pairs_of 1 analyses) outs
    ∧ run_session analyses w
      = (Ret (session_report analyses outs), after_session analyses outs w).
Proof.
  destruct (images_loop_spec analyses 1 initial_progress w)
    as (outs & Houts & Hrun).
  exists outs. split; [done|].
  unfold ads_generation.run_session, bind. rewrite Hrun.
  unfold after_session, publish, session_report, session_progress,
    session_manifest, write_file, ret; simpl.
  by destruct (session_videos_of _).
Qed.

(** *** Counting *)

Lemma filter_partition_length {A} (f : A → bool) (l : list A) :
  length l = length (List.filter f l)
             + length (List.filter (λ x, negb (f x)) l).
Proof. induction l as [|x l IH]; simpl; [done|]. destruct (f x); simpl; lia. Qed.

Lemma session_progress_results outs :
  p_total_video_index (session_progress outs) = length outs
  ∧ p_successful_videos (session_progress outs) = List.filter success outs.*1
  ∧ p_failed_videos (session_progress outs)
    = List.filter (λ r, negb (success r)) outs.*1.
Proof.
  unfold session_progress.
  rewrite record_results_total, record_results_successful,
    record_results_failed, length_fmap.
  done.
Qed.

(** How often the retrieval of job [k] was attempted in a trace. *)
Definition retrieval_attempts (k : nat) (tr : list event) : nat :=
  count_occ event_eq_dec tr (EvRetrieve k).

Lemma retrieval_attempts_app k tr1 tr2 :
  retrieval_attempts k (tr1 ++ tr2)
  = retrieval_attempts k tr1 + retrieval_attempts k tr2.
Proof. apply count_occ_app. Qed.

Lemma retrieval_attempts_job k k' m :
  retrieval_attempts k (job_events k' m) = 0.
Proof.
  unfold retrieval_attempts, job_events, poll_events.
  rewrite count_occ_cons_neq by done.
  induction m as [|m IH]; simpl; auto.
Qed.

Lemma retrieval_attempts_retrieval k k' r :
  retrieval_attempts k (retrieval_events k' r)
  = if success r && (k' =? k) then 1 else 0.
Proof.
  unfold retrieval_attempts, retrieval_events.
  destruct (success r); [|done].
  assert (Htail : count_occ event_eq_dec
                    match local_filename r with
                    | Some p => [EvWrite p]
                    | None => []
                    end (EvRetrieve k) = 0).
  { destruct (local_filename r); [|done]. by rewrite count_occ_cons_neq. }
  destruct (Nat.eqb_spec k' k) as [->|Hne]; cbn [andb].
  - by rewrite count_occ_cons_eq, Htail.
  - rewrite count_occ_cons_neq by congruence. exact Htail.
Qed.

Lemma retrieval_attempts_pair k r m :
  retrieval_attempts k (pair_trace (r, m))
  = if success r && (video_index r =? k) then 1 else 0.
Proof.
  unfold pair_trace; cbn [fst snd].
  by rewrite retrieval_attempts_app, retrieval_attempts_job,
    retrieval_attempts_retrieval.
Qed.

Lemma pairs_trace_cons rm outs :
  pairs_trace (rm :: outs) = pair_trace rm ++ pairs_trace outs.
Proof. done. Qed.

(** Jobs are numbered upwards from [k0 + 1] ... *)
Lemma outcomes_index k0 pairs outs :
  outcomes k0 pairs outs → ∀ r m, (r, m) ∈ outs → k0 < video_index r.
Proof.
  induction 1 as [|k0 i p d pairs r1 m1 outs Hm Hr _ IH]; intros r m Hin.
  - by apply elem_of_nil in Hin.
  - apply elem_of_cons in Hin as [[= -> ->]|Hin].
    + rewrite (po_video_index _ _ _ _ _ Hr). lia.
    + specialize (IH _ _ Hin). lia.
Qed.

(** ... so no retrieval is attempted for a number not yet given out ... *)
Lemma retrieval_attempts_fresh k0 pairs outs :
  outcomes k0 pairs outs →
  ∀ k, k ≤ k0 → retrieval_attempts k (pairs_trace outs) = 0.
Proof.
  induction 1 as [k1|k0 i p d pairs r1 m1 outs Hm Hr _ IH]; intros k Hk;
    [done|].
  rewrite pairs_trace_cons.
  rewrite retrieval_attempts_app, retrieval_attempts_pair, IH by lia.
  rewrite (po_video_index _ _ _ _ _ Hr).
  destruct (Nat.eqb_spec (S k0) k); [lia|].
  by rewrite andb_false_r.
Qed.

(** ... and the retrieval of a recorded job is attempted once if the job
    succeeded and never otherwise. *)
Lemma retrieval_attempts_recorded k0 pairs outs :
  outcomes k0 pairs outs →
  ∀ r m, (r, m) ∈ outs →
    retrieval_attempts (video_index r) (pairs_trace outs)
    = if success r then 1 else 0.
Proof.
  induction 1 as [|k0 i p d pairs r1 m1 outs Hm Hr Houts IH]; intros r m Hin.
  - by apply elem_of_nil in Hin.
  - rewrite pairs_trace_cons.
    rewrite retrieval_attempts_app, retrieval_attempts_pair.
    apply elem_of_cons in Hin as [[= -> ->]|Hin].
    + rewrite Nat.eqb_refl, andb_true_r.
      rewrite (retrieval_attempts_fresh _ _ _ Houts); [lia|].
      rewrite (po_video_index _ _ _ _ _ Hr). lia.
    + rewrite (IH _ _ Hin).
      pose proof (outcomes_index _ _ _ Houts _ _ Hin) as Hlt.
      rewrite (po_video_index _ _ _ _ _ Hr).
      destruct (Nat.eqb_spec (S k0) (video_index r)); [lia|].
      by rewrite andb_false_r.
Qed.

(** *** Files *)

Lemma path_join_inj dir a b : path_join dir a = path_join dir b → a = b.
Proof.
  unfold path_join. intros H.
  apply (inj (String.app dir)) in H. by apply (inj (String.app "/")) in H.
Qed.

(** The paths [download_video_from_s3] is given. *)
Definition is_video_path (q : string) : Prop :=
  ∃ rest, q = path_join (generated_folder folder_path) ("video_" +:+ rest).

Lemma local_path_is_video_path i p d : is_video_path (local_path_of i p d).
Proof. unfold is_video_path, local_path_of, local_filename_of. eauto. Qed.

Lemma report_file_not_video : ¬ is_video_path report_file.
Proof. intros [rest H]. apply path_join_inj in H. discriminate H. Qed.

Lemma session_file_not_video : ¬ is_video_path session_file.
Proof. intros [rest H]. apply path_join_inj in H. discriminate H. Qed.

Lemma latest_session_file_not_video : ¬ is_video_path latest_session_file.
Proof. intros [rest H]. apply path_join_inj in H. discriminate H. Qed.

Lemma report_file_not_latest : report_file ≠ latest_session_file.
Proof. intros H. apply path_join_inj in H. discriminate H. Qed.

Lemma session_file_not_latest : session_file ≠ latest_session_file.
Proof. intros H. apply path_join_inj in H. discriminate H. Qed.

Lemma report_file_not_session_file : report_file ≠ session_file.
Proof. intros H. apply path_join_inj in H. discriminate H. Qed.

Lemma job_events_no_write k m q : EvWrite q ∉ job_events k m.
Proof.
  unfold job_events, poll_events. intros H.
  apply elem_of_cons in H as [[=]|H].
  induction m as [|m IH]; simpl in H; [by apply elem_of_nil in H|].
  apply elem_of_cons in H as [[=]|H].
  apply elem_of_cons in H as [[=]|H]. auto.
Qed.

(** The jobs of a session write video files only. *)
Lemma pairs_trace_writes k0 pairs outs :
  outcomes k0 pairs outs →
  ∀ q, EvWrite q ∈ pairs_trace outs → is_video_path q.
Proof.
  induction 1 as [k1|k0 i p d pairs r m outs Hm Hr _ IH]; intros q Hq.
  - by apply elem_of_nil in Hq.
  - rewrite pairs_trace_cons in Hq. apply elem_of_app in Hq as [Hq|Hq];
      [|by apply IH].
    unfold pair_trace, retrieval_events in Hq. cbn [fst snd] in Hq.
    apply elem_of_app in Hq as [Hq|Hq];
      [by apply job_events_no_write in Hq|].
    destruct (success r); [|by apply elem_of_nil in Hq].
    apply elem_of_cons in Hq as [[=]|Hq].
    destruct (po_local_filename _ _ _ _ _ Hr) as [Hnone|[_ Hsome]].
    + rewrite Hnone in Hq. by apply elem_of_nil in Hq.
    + rewrite Hsome in Hq. apply list_elem_of_singleton in Hq as [= ->].
      apply local_path_is_video_path.
Qed.

Lemma after_pairs_frame k0 pairs outs :
  outcomes k0 pairs outs →
  ∀ w q, ¬ is_video_path q → fs (foldl after_pair w outs) !! q = fs w !! q.
Proof.
  induction 1 as [k1|k0 i p d pairs r m outs Hm Hr _ IH]; intros w q Hq;
    [done|].
  simpl. rewrite IH by done. unfold after_pair, retrieval_fs; simpl.
  destruct (po_local_filename _ _ _ _ _ Hr) as [->|[_ ->]]; [done|].
  apply lookup_insert_ne. intros <-. apply Hq, local_path_is_video_path.
Qed.

(** With nothing retrieved, the jobs leave the directory as it was. *)
Lemma nothing_retrieved k0 pairs outs :
  outcomes k0 pairs outs →
  session_videos_of (List.filter success outs.*1) = [] →
  ∀ w, fs (foldl after_pair w outs) = fs w
       ∧ ∀ q, EvWrite q ∉ pairs_trace outs.
Proof.
  induction 1 as [k1|k0 i p d pairs r m outs Hm Hr _ IH]; intros Hnil w.
  - split; [done|]. intros q. apply not_elem_of_nil.
  - assert (local_filename r = None
            ∧ session_videos_of (List.filter success outs.*1) = [])
      as [Hr0 Hrest].
    { simpl in Hnil.
      destruct (po_local_filename _ _ _ _ _ Hr) as [Hn|[Hs Hl]].
      - split; [done|]. destruct (success r); [|done].
        unfold session_videos_of in *. simpl in Hnil.
        by rewrite Hn in Hnil.
      - rewrite Hs in Hnil. unfold session_videos_of in Hnil. simpl in Hnil.
        by rewrite Hl in Hnil. }
    destruct (IH Hrest (after_pair w (r, m))) as [Hfs Htr].
    split.
    + simpl. rewrite Hfs. unfold after_pair, retrieval_fs; simpl.
      by rewrite Hr0.
    + intros q. rewrite pairs_trace_cons. intros Hq.
      apply elem_of_app in Hq as [Hq|Hq]; [|by apply (Htr q)].
      unfold pair_trace, retrieval_events in Hq.
      cbn [fst snd] in Hq. rewrite Hr0 in Hq.
      apply elem_of_app in Hq as [Hq|Hq];
        [by apply job_events_no_write in Hq|].
      destruct (success r); [|by apply elem_of_nil in Hq].
      apply elem_of_cons in Hq as [[=]|Hq]. by apply elem_of_nil in Hq.
Qed.

(** *** Names *)

Lemma filter_none_rejected {A} (f : A → bool) (l : list A) :
  List.filter (λ x, negb (f x)) l = [] → List.filter f l = l.
Proof.
  induction l as [|x l IH]; simpl; [done|].
  destruct (f x); simpl; [|done]. intros H. by rewrite IH.
Qed.

(** The manifest names of the pairs, in order. *)
Definition manifest_names (pairs : list (nat * nat * prompt_data))
    : list string :=
  (λ '(i, p, d), path_name (local_path_of i p d)) <$> pairs.

(** When every job succeeded and every artifact was retrieved, the
    manifest lists one name per pair, in the order of the pairs. *)
Lemma all_retrieved_names k0 pairs outs :
  outcomes k0 pairs outs →
  Forall (λ r, is_Some (local_filename r)) outs.*1 →
  session_videos_of outs.*1 = manifest_names pairs.
Proof.
  unfold session_videos_of, manifest_names.
  induction 1 as [k1|k0 i p d pairs r m outs Hm Hr _ IH]; simpl; [done|].
  intros Hall. apply Forall_cons in Hall as [[q Hq] Hall].
  destruct (po_local_filename _ _ _ _ _ Hr) as [Hn|[_ Hl]]; [congruence|].
  rewrite Hl. simpl. f_equal. by apply IH.
Qed.
End session_facts.

(** ** [generate_ads] as a whole *)

Section generate_ads_facts.
Import text ads_generation.

Variable env : environment.
Variable folder_path : string.
Variable per_image_analyses : list image_analysis.
Variable num_videos_per_image : Z.
Variable s3_bucket : option string.
Variable use_images : bool.
Variable session_timestamp : option string.

Local Abbreviation generate_ads :=
  (generate_ads env folder_path per_image_analyses num_videos_per_image
                s3_bucket use_images session_timestamp).

(** The session id [generate_ads] settles on. *)
Definition session_id : string :=
  default (strftime_now env) (truthy session_timestamp).

Lemma generate_ads_spec w :
  match truthy s3_bucket with
  | None => generate_ads w = (Ret None, w)
  | Some bucket =>
      ∃ outs,
        outcomes folder_path session_id 0
                 (pairs_of num_videos_per_image 1 per_image_analyses) outs
        ∧ generate_ads w
          = (Ret (Some (session_report env num_videos_per_image bucket
                          use_images session_id per_image_analyses outs)),
             after_session env folder_path num_videos_per_image bucket
                           use_images session_id per_image_analyses outs w)
  end.
Proof.
  unfold ads_generation.generate_ads.
  destruct (truthy s3_bucket) as [bucket|]; [|done].
  destruct (run_session_spec env folder_path num_videos_per_image bucket
              use_images session_id per_image_analyses w)
    as (outs & Houts & Hrun).
  exists outs. split; [done|].
  unfold bind. fold session_id. by rewrite Hrun.
Qed.

(** [generate_ads] returns normally in every world. *)
Lemma generate_ads_returns w :
  ∃ o w', generate_ads w = (Ret o, w').
Proof.
  pose proof (generate_ads_spec w) as H.
  destruct (truthy s3_bucket); [destruct H as (outs & _ & ->)|]; eauto.
Qed.

Lemma generate_ads_inv w rep w' :
  generate_ads w = (Ret (Some rep), w') →
  ∃ bucket outs,
    truthy s3_bucket = Some bucket
    ∧ outcomes folder_path session_id 0
               (pairs_of num_videos_per_image 1 per_image_analyses) outs
    ∧ rep = session_report env num_videos_per_image bucket use_images
                           session_id per_image_analyses outs
    ∧ w' = after_session env folder_path num_videos_per_image bucket
                         use_images session_id per_image_analyses outs w.
Proof.
  pose proof (generate_ads_spec w) as H.
  destruct (truthy s3_bucket) as [bucket|]; [|by rewrite H].
  destruct H as (outs & Houts & ->). intros [= <- <-]. eauto 10.
Qed.

(** C9. The report's [total_attempted] is the sum of its
    [successful_count] and [failed_count]: the jobs of the session, one
    per (image, prompt) pair, are split between the two lists by their
    [success] flag, each result going to exactly one of them. *)
Theorem report_counts_add_up w rep w' :
  generate_ads w = (Ret (Some rep), w') →
  total_attempted rep = successful_count rep + failed_count rep
  ∧ ∃ results : list video_result,
      length results
      = length (pairs_of num_videos_per_image 1 per_image_analyses)
      ∧ total_attempted rep = length results
      ∧ successful_videos rep = List.filter success results
      ∧ failed_videos rep = List.filter (λ r, negb (success r)) results.
Proof.
  intros (bucket & outs & _ & Houts & -> & _)%generate_ads_inv.
  destruct (session_progress_results outs) as (Htot & Hsucc & Hfail).
  unfold session_report, mk_report; simpl.
  rewrite Htot, Hsucc, Hfail. split.
  - rewrite <- (length_fmap fst outs). apply filter_partition_length.
  - exists outs.*1. rewrite length_fmap.
    by rewrite (outcomes_length _ _ _ _ _ Houts).
Qed.

Local Abbreviation report_file := (report_file folder_path session_id).
Local Abbreviation session_file := (session_file folder_path session_id).
Local Abbreviation latest_session_file := (latest_session_file folder_path).

(** C10. When the produced-files list of a session is empty, the only
    file the session writes is its report: neither the session-scoped
    manifest nor the latest-session file is written, and both read after
    the session as they did before it. *)
Theorem no_manifest_without_retrieved_artifact w rep w' :
  generate_ads w = (Ret (Some rep), w') →
  session_videos_of (successful_videos rep) = [] →
  fs w' = <[report_file := FReport rep]> (fs w)
  ∧ fs w' !! latest_session_file = fs w !! latest_session_file
  ∧ fs w' !! session_file = fs w !! session_file
  ∧ ∃ added, trace w' = trace w ++ added
      ∧ (EvWrite session_file ∉ added)
      ∧ (EvWrite latest_session_file ∉ added)
      ∧ ∀ q, EvWrite q ∈ added → q = report_file.
Proof.
  intros (bucket & outs & _ & Houts & -> & ->)%generate_ads_inv Hnil.
  destruct (session_progress_results outs) as (_ & Hsucc & _).
  assert (Hnil' : session_videos_of (List.filter success outs.*1) = []).
  { by rewrite <- Hsucc. }
  destruct (nothing_retrieved _ _ _ _ _ Houts Hnil' w) as [Hfs Hnowrite].
  unfold after_session, publish. rewrite Hnil.
  unfold written; simpl. rewrite Hfs, after_pairs_trace.
  assert (Hreport : ∀ q, EvWrite q ∈ pairs_trace outs ++ [EvWrite report_file]
                         → q = report_file).
  { intros q [Hq|Hq]%elem_of_app; [by apply Hnowrite in Hq|].
    by apply list_elem_of_singleton in Hq as [= ->]. }
  split_and!.
  - done.
  - apply lookup_insert_ne, report_file_not_latest.
  - apply lookup_insert_ne, report_file_not_session_file.
  - exists (pairs_trace outs ++ [EvWrite report_file]).
    rewrite app_assoc. split_and!; [done| | |done].
    + intros Hq%Hreport.
      by apply (report_file_not_session_file folder_path session_id).
    + intros Hq%Hreport.
      by apply (report_file_not_latest folder_path session_id).
Qed.


(** With a retrieved artifact, the session ends by writing its manifest
    twice, the latest-session file last. *)
Lemma after_session_published bucket outs w :
  let rep := session_report env num_videos_per_image bucket use_images
                            session_id per_image_analyses outs in
  let w' := after_session env folder_path num_videos_per_image bucket
                          use_images session_id per_image_analyses outs w in
  session_videos_of (successful_videos rep) ≠ [] →
  trace w' = trace w ++ pairs_trace outs
             ++ [EvWrite report_file; EvWrite session_file;
                 EvWrite latest_session_file]
  ∧ fs w' !! latest_session_file
    = Some (FSession (session_manifest env session_id rep))
  ∧ fs w' !! session_file
    = Some (FSession (session_manifest env session_id rep)).
Proof.
  intros rep w' Hne. unfold w', after_session, publish. fold rep.
  destruct (session_videos_of (successful_videos rep)); [done|].
  unfold written; simpl. rewrite after_pairs_trace. split_and!.
  - by rewrite <- !app_assoc.
  - apply lookup_insert_eq.
  - rewrite lookup_insert_ne by (symmetry; apply session_file_not_latest).
    apply lookup_insert_eq.
Qed.

(** Without one, it ends with the report. *)
Lemma after_session_unpublished bucket outs w :
  let rep := session_report env num_videos_per_image bucket use_images
                            session_id per_image_analyses outs in
  let w' := after_session env folder_path num_videos_per_image bucket
                          use_images session_id per_image_analyses outs w in
  outcomes folder_path session_id 0
           (pairs_of num_videos_per_image 1 per_image_analyses) outs →
  session_videos_of (successful_videos rep) = [] →
  trace w' = trace w ++ pairs_trace outs ++ [EvWrite report_file]
  ∧ fs w' !! latest_session_file = fs w !! latest_session_file.
Proof.
  intros rep w' Houts Hnil. unfold w', after_session, publish. fold rep.
  rewrite Hnil. unfold written; simpl. rewrite after_pairs_trace. split.
  - by rewrite <- app_assoc.
  - rewrite lookup_insert_ne by apply report_file_not_latest.
    apply (after_pairs_frame _ _ _ _ _ Houts),
      latest_session_file_not_video.
Qed.
End generate_ads_facts.

(** ** Sequences of sessions *)

Module sessions.
Import text ads_generation.

(** One invocation of [generate_ads] on a folder. *)
Record session_call := {
  sc_env : environment;
  sc_analyses : list image_analysis;
  sc_num_videos : Z;
  sc_bucket : option string;
  sc_use_images : bool;
  sc_timestamp : option string;
}.

Definition run_call (folder_path : string) (c : session_call)
    : M (option report) :=
  generate_ads (sc_env c) folder_path (sc_analyses c) (sc_num_videos c)
               (sc_bucket c) (sc_use_images c) (sc_timestamp c).

(** Sessions run one after the other on the same folder. *)
Fixpoint run_sessions (folder_path : string) (cs : list session_call)
    : M (list (option report)) :=
  match cs with
  | [] => ret []
  | c :: rest =>
      let* r := run_call folder_path c in
      let* rs := run_sessions folder_path rest in
      ret (r :: rs)
  end.

Definition call_session_id (c : session_call) : string :=
  session_id (sc_env c) (sc_timestamp c).

(** The manifest a session would publish for its report. *)
Definition manifest_of (c : session_call) (rep : report) : file :=
  FSession (session_manifest (sc_env c) (call_session_id c) rep).

Lemma run_sessions_snoc folder_path cs c : ∀ w,
  ∃ reports w1 o w',
    run_sessions folder_path cs w = (Ret reports, w1)
    ∧ run_call folder_path c w1 = (Ret o, w')
    ∧ run_sessions folder_path (cs ++ [c]) w = (Ret (reports ++ [o]), w').
Proof.
  induction cs as [|c0 cs IH]; intros w; simpl.
  - destruct (generate_ads_returns (sc_env c) folder_path (sc_analyses c)
                (sc_num_videos c) (sc_bucket c) (sc_use_images c)
                (sc_timestamp c) w) as (o & w' & Hrun).
    exists [], w, o, w'. unfold bind, run_call. rewrite Hrun. done.
  - destruct (generate_ads_returns (sc_env c0) folder_path (sc_analyses c0)
                (sc_num_videos c0) (sc_bucket c0) (sc_use_images c0)
                (sc_timestamp c0) w) as (o0 & w0 & Hrun0).
    destruct (IH w0) as (reports & w1 & o & w' & H1 & H2 & H3).
    exists (o0 :: reports), w1, o, w'. unfold bind, run_call in *.
    rewrite Hrun0, H1, H3. done.
Qed.

End sessions.

(** ** Sample services and sessions *)

Module samples.
Import text ads_generation sessions.

Definition answer (arn state : string) : status_response :=
  {| status := Some state;
     outputDataConfig :=
       Some {| s3OutputDataConfig :=
                 Some {| s3Uri := Some ("s3://bucket/luma-videos/"
                                        +:+ arn +:+ "/") |} |};
     failureReason := None |}.

(** A service that names each job after its prompt: the job "fail" fails,
    "slow" stays in progress, "boom" breaks the connection, any other
    completes, each at the first status read. *)
Definition client : bedrock_client :=
  {| start_async_invoke := λ _ input _,
       Ret {| invocationArn := Some (mi_prompt input) |};
     get_async_invoke := λ arn _,
       if String.eqb arn "fail" then Ret (answer arn "Failed")
       else if String.eqb arn "slow" then Ret (answer arn "InProgress")
       else if String.eqb arn "boom" then Raise "ReadTimeout"
       else Ret (answer arn "Completed") |}.

(** A store that holds the video of every job but "lost". *)
Definition store : s3_client :=
  {| list_objects_v2 := λ _ prefix,
       Ret {| Contents :=
                if String.eqb prefix "luma-videos/lost" then None
                else Some [{| Key := prefix +:+ "/video.mp4" |}] |};
     download_file := λ _ _ _, Ret tt |}.

Definition env : environment :=
  {| bedrock := client; s3 := store; uuid4 := λ _, "job";
     strftime_now := "20240101_000000";
     isoformat_report := "2024-01-01T00:00:00";
     isoformat_session := "2024-01-01T00:00:01";
     image_exists := λ _, false;
     encode_image_for_luma := λ _, None |}.

Definition empty_world : world := {| fs := ∅; clock := 0; trace := [] |}.

Definition described (p : string) : prompt_data :=
  PromptDict (Some p) (Some "Hero Shot").

Definition image (prompts : list string) : image_analysis :=
  {| ia_image_filename := None;
     ia_video_prompts := Some (described <$> prompts) |}.

Definition call (stamp : string) (images : list image_analysis)
    : session_call :=
  {| sc_env := env; sc_analyses := images; sc_num_videos := 3;
     sc_bucket := Some "bucket"; sc_use_images := false;
     sc_timestamp := Some stamp |}.

(** A first session that produces one video, a second whose only job
    fails. *)
Definition first_session : session_call :=
  call "20240101_000000" [image ["ok"]].
Definition second_session : session_call :=
  call "20240102_000000" [image ["fail"]].

End samples.

Section latest_pointer.
Import text ads_generation sessions.


(** The claim as the specification words it: after the sessions, the
    latest-session file holds the manifest of the last one. *)
Definition latest_is_manifest_of_last (folder_path : string)
    (cs : list session_call) (c : session_call) (w : world) : Prop :=
  ∀ reports rep w',
    run_sessions folder_path (cs ++ [c]) w
    = (Ret (reports ++ [Some rep]), w') →
    fs w' !! latest_session_file folder_path = Some (manifest_of c rep).

(** After a session with a retrieved video and one whose only job failed,
    the latest-session file still holds the first session's manifest, and
    the second session has no manifest. *)
Local Abbreviation two_sessions :=
  (run_sessions "shop" ([samples.first_session] ++ [samples.second_session])
                samples.empty_world).

End latest_pointer.

(** ** What the aggregator does with one result *)

Section downstream.
Import text ads_generation.

Variable env : environment.
Variables (folder_path s3_bucket ts image_name : string).
Variable keyframe : option string.
Variables (img_idx prompt_idx : nat).
Variable d : prompt_data.
Variable st : progress.

Local Abbreviation job :=
  (generate_video_async (bedrock env) (prompt_fields d).1 s3_bucket
     (s3_prefix ts) (S (p_total_video_index st)) keyframe (Some image_name)
     (uuid4 env (S (p_total_video_index st)))).
Local Abbreviation pair :=
  (process_pair env folder_path s3_bucket ts image_name keyframe img_idx
                prompt_idx d st).
Local Abbreviation annotated :=
  (λ r0, annotate r0 image_name (prompt_fields d).2 img_idx prompt_idx ts).

(** A result with [success = False] goes to [failed_videos], without any
    retrieval. *)
Lemma process_pair_unsuccessful w r0 w1 :
  job w = (Ret r0, w1) →
  success r0 = false →
  pair w = (Ret {| p_total_video_index := S (p_total_video_index st);
                   p_successful_videos := p_successful_videos st;
                   p_failed_videos := p_failed_videos st ++ [annotated r0] |},
            w1).
Proof.
  intros Hjob Hs. unfold ads_generation.process_pair.
  destruct (prompt_fields d) as [text type_name]. simpl in *.
  unfold bind at 1. rewrite Hjob. simpl. by rewrite Hs.
Qed.

(** A successful result whose retrieval fails goes to
    [successful_videos] without a [local_filename]. *)
Lemma process_pair_retrieval_failed w r0 w1 location w2 :
  job w = (Ret r0, w1) →
  success r0 = true →
  s3_location r0 = Some location →
  download_video_from_s3 (s3 env) location
    (local_path_of folder_path ts img_idx prompt_idx d)
    {| fs := fs w1; clock := clock w1;
       trace := trace w1 ++ [EvRetrieve (S (p_total_video_index st))] |}
  = (Ret false, w2) →
  pair w = (Ret {| p_total_video_index := S (p_total_video_index st);
                   p_successful_videos :=
                     p_successful_videos st ++ [annotated r0];
                   p_failed_videos := p_failed_videos st |},
            w2)
  ∧ local_filename (annotated r0) = local_filename r0.
Proof.
  intros Hjob Hs Hloc Hdl. unfold ads_generation.process_pair, local_path_of in *.
  destruct (prompt_fields d) as [text type_name]. simpl in *.
  unfold bind at 1. rewrite Hjob. simpl. rewrite Hs, Hloc.
  unfold bind, emit, getitem, ret; simpl. by rewrite Hdl.
Qed.
End downstream.

(** ** Claims about the job tracker *)

Section job_tracker_claims.
Import text ads_generation.

Variable client : bedrock_client.
Variables (prompt_text s3_bucket s3_prefix : string).
Variable k : nat.
Variable keyframe_image : option string.
Variable image_filename : option string.
Variable uuid : string.

Local Abbreviation generate_video_async :=
  (generate_video_async client prompt_text s3_bucket s3_prefix k
                        keyframe_image image_filename uuid).
Local Abbreviation submit_and_poll :=
  (submit_and_poll client prompt_text s3_bucket s3_prefix k keyframe_image
                   image_filename uuid).
Local Abbreviation timed_out :=
  (timed_out_result prompt_text k image_filename).
Local Abbreviation failed := (failed_result prompt_text k image_filename).
Local Abbreviation from_exception :=
  (exception_result prompt_text k image_filename).

Lemma timed_out_is_not_failed sr : timed_out ≠ failed sr.
Proof. intros H. discriminate H. Qed.

Lemma timed_out_is_not_exception e : timed_out ≠ from_exception e.
Proof. intros H. discriminate H. Qed.

(** C3. [generate_video_async] returns a result in every world and under
    every behaviour of the service: a successful one, or an unsuccessful
    one that carries an error text. Whatever the body of its [try]
    raises, and in particular an exception of the service at submission
    or at any status read, comes back as the unsuccessful result whose
    error is "Error generating video: " followed by the exception text. *)
Theorem exceptions_become_failed_results w :
  (∃ r m, m ≤ max_attempts
      ∧ generate_video_async w = (Ret r, after_job k w m)
      ∧ (success r = true ∨ (success r = false ∧ is_Some (error r))))
  ∧ (∀ e w1, submit_and_poll w = (Raise e, w1) →
       generate_video_async w = (Ret (from_exception e), w1))
  ∧ (∀ e, remote_exception client prompt_text s3_bucket s3_prefix
                           keyframe_image uuid e →
       ∃ m, m ≤ max_attempts
         ∧ generate_video_async w = (Ret (from_exception e), after_job k w m))
  ∧ (∀ e, success (from_exception e) = false
          ∧ error (from_exception e)
            = Some ("Error generating video: " +:+ e)).
Proof.
  split_and!.
  - destruct (generate_video_async_returns client prompt_text s3_bucket
                s3_prefix k keyframe_image image_filename uuid w)
      as (r & m & Hm & Hr & Hrun).
    exists r, m. split_and!; [done..|].
    destruct Hr; simpl; eauto.
  - intros e w1 Hbody. rewrite generate_video_async_unfold. by rewrite Hbody.
  - intros e He. by apply remote_exception_caught.
  - done.
Qed.

(** C7. The polling of a job makes at most [max_attempts] status reads,
    each after a sleep of [poll_delay] seconds, so the call returns after
    at most [max_attempts * poll_delay] seconds of waiting; when all
    [max_attempts] reads answer with a pending status the result is the
    timed-out one, which differs from every failed result; both have
    [success = False], and the aggregator appends any such result to
    [failed_videos]. *)
Theorem polling_is_bounded w :
  (∃ r m, m ≤ max_attempts
      ∧ generate_video_async w = (Ret r, after_job k w m)
      ∧ job_events k m
        = EvStart k :: concat (replicate m [EvSleep poll_delay; EvPoll k])
      ∧ clock (after_job k w m) = clock w + poll_delay * m
      ∧ clock (after_job k w m) ≤ clock w + max_attempts * poll_delay)
  ∧ (∀ response arn,
       start_async_invoke client "luma.ray-v2:0"
         (build_model_input prompt_text keyframe_image)
         (s3_output_uri s3_bucket s3_prefix uuid) = Ret response →
       invocationArn response = Some arn →
       pending_until client arn 0 max_attempts →
       generate_video_async w = (Ret timed_out, after_job k w max_attempts))
  ∧ success timed_out = false
  ∧ error timed_out = Some timed_out_text
  ∧ (∀ sr, timed_out ≠ failed sr ∧ success (failed sr) = false)
  ∧ (∀ e, timed_out ≠ from_exception e)
  ∧ (∀ env folder_path ts image_name key img_idx prompt_idx d st w0 r0 w1,
       ads_generation.generate_video_async (bedrock env) (prompt_fields d).1
         s3_bucket (ads_generation.s3_prefix ts)
         (S (p_total_video_index st)) key (Some image_name)
         (uuid4 env (S (p_total_video_index st))) w0 = (Ret r0, w1) →
       success r0 = false →
       process_pair env folder_path s3_bucket ts image_name key img_idx
                    prompt_idx d st w0
       = (Ret {| p_total_video_index := S (p_total_video_index st);
                 p_successful_videos := p_successful_videos st;
                 p_failed_videos :=
                   p_failed_videos st
                   ++ [annotate r0 image_name (prompt_fields d).2 img_idx
                                prompt_idx ts] |},
          w1)).
Proof.
  split_and!; [..|by intros; apply process_pair_unsuccessful].
  - destruct (generate_video_async_returns client prompt_text s3_bucket
                s3_prefix k keyframe_image image_filename uuid w)
      as (r & m & Hm & Hr & Hrun).
    exists r, m. split_and!; [done..| |]; simpl; [lia|].
    unfold max_attempts in *. unfold poll_delay. nia.
  - intros response arn Hs Harn Hp. by eapply budget_exhausted.
  - done.
  - done.
  - intros sr. split; [apply timed_out_is_not_failed|done].
  - apply timed_out_is_not_exception.
Qed.
End job_tracker_claims.

(** ** File names *)

Section names.
Import text ads_generation.

(** The decimal digit [d] as a character. *)
Definition digit (d : nat) : ascii := ascii_of_nat (48 + d).

Definition two_digits (n : nat) : string :=
  String (digit (n / 10)) (String (digit (n mod 10)) EmptyString).

Lemma below_100 (P : nat → bool) :
  forallb P (seq 0 100) = true → ∀ n, n < 100 → P n = true.
Proof.
  intros H n Hn. rewrite forallb_forall in H. apply H, in_seq. lia.
Qed.

(** Below 100, [:02d] gives exactly the two decimal digits. *)
Lemma fmt_02d_two_digits n : n < 100 → fmt_02d n = two_digits n.
Proof.
  intros Hn.
  apply (below_100 (λ n, String.eqb (fmt_02d n) (two_digits n)))
    in Hn; [by apply String.eqb_eq|].
  by vm_compute.
Qed.

(** Reading two decimal digits back. *)
Definition read_two_digits (s : string) : nat :=
  match s with
  | String a (String b EmptyString) =>
      (nat_of_ascii a - 48) * 10 + (nat_of_ascii b - 48)
  | _ => 0
  end.

Lemma read_two_digits_fmt n : n < 100 → read_two_digits (fmt_02d n) = n.
Proof.
  intros Hn.
  apply (below_100 (λ n, read_two_digits (fmt_02d n) =? n)) in Hn;
    [by apply Nat.eqb_eq|by vm_compute].
Qed.

Lemma two_digits_inj n n' :
  n < 100 → n' < 100 → two_digits n = two_digits n' → n = n'.
Proof.
  intros Hn Hn' H. rewrite <- !fmt_02d_two_digits in H by done.
  by rewrite <- (read_two_digits_fmt n), <- (read_two_digits_fmt n'), H.
Qed.

Lemma two_digits_app_inj n n' t t' :
  two_digits n +:+ t = two_digits n' +:+ t' →
  two_digits n = two_digits n' ∧ t = t'.
Proof.
  unfold two_digits.
  change (String ?a (String ?b EmptyString) +:+ ?r)
    with (String a (String b r)).
  intros H. injection H as Ha Hb Hr. split; [|done].
  f_equal; [exact Ha|]. f_equal. exact Hb.
Qed.

Lemma string_app_length s t :
  String.length (s +:+ t) = String.length s + String.length t.
Proof. induction s as [|c s IH]; simpl; [done|]. by rewrite <- IH. Qed.

Lemma string_app_inj_r t : ∀ s1 s2, s1 +:+ t = s2 +:+ t → s1 = s2.
Proof.
  induction s1 as [|c1 s1 IH]; intros [|c2 s2] H.
  - done.
  - apply (f_equal String.length) in H.
    rewrite !string_app_length in H. simpl in H. lia.
  - apply (f_equal String.length) in H.
    rewrite !string_app_length in H. simpl in H. lia.
  - change (String c1 (s1 +:+ t) = String c2 (s2 +:+ t)) in H.
    injection H as -> H. f_equal. by apply IH.
Qed.

(** The slug has the length of the prompt type, no space and no
    upper-case ASCII letter. *)
Definition is_upper (c : ascii) : bool :=
  (65 <=? nat_of_ascii c) && (nat_of_ascii c <=? 90).

Fixpoint all_chars (P : ascii → bool) (s : string) : bool :=
  match s with
  | EmptyString => true
  | String c s' => P c && all_chars P s'
  end.

Lemma slug_char_ok c :
  let c' := if Ascii.eqb (lower_char c) " " then "_"%char else lower_char c in
  negb (Ascii.eqb c' " ") && negb (is_upper c') = true.
Proof.
  assert (H : forallb (λ n,
                let c := ascii_of_nat n in
                let c' := if Ascii.eqb (lower_char c) " " then "_"%char
                          else lower_char c in
                negb (Ascii.eqb c' " ") && negb (is_upper c'))
              (seq 0 256) = true) by (by vm_compute).
  rewrite forallb_forall in H.
  specialize (H (nat_of_ascii c)). rewrite ascii_nat_embedding in H.
  apply H, in_seq. pose proof (nat_ascii_bounded c). lia.
Qed.

Lemma slug_spec type_name :
  String.length (slug type_name) = String.length type_name
  ∧ all_chars (λ c, negb (Ascii.eqb c " ") && negb (is_upper c))
              (slug type_name) = true.
Proof.
  unfold slug, replace_char, lower.
  induction type_name as [|c s [IH1 IH2]]; simpl; [done|].
  split; [by rewrite IH1|].
  rewrite IH2, andb_true_r. apply slug_char_ok.
Qed.

(** The file name determines the two ordinals and the slug. *)
Lemma local_filename_of_inj stamp i p type_name i' p' type_name' :
  i < 100 → p < 100 → i' < 100 → p' < 100 →
  local_filename_of stamp i p type_name
  = local_filename_of stamp i' p' type_name' →
  i = i' ∧ p = p' ∧ slug type_name = slug type_name'.
Proof.
  intros Hi Hp Hi' Hp' H. unfold local_filename_of in H.
  rewrite !fmt_02d_two_digits in H by done.
  apply (inj (String.app "video_")), (inj (String.app stamp)),
    (inj (String.app "_")) in H.
  apply two_digits_app_inj in H as [Hii H].
  apply two_digits_inj in Hii as <-; [|done..].
  apply (inj (String.app "_")) in H.
  apply two_digits_app_inj in H as [Hpp H].
  apply two_digits_inj in Hpp as <-; [|done..].
  apply (inj (String.app "_")), string_app_inj_r in H. done.
Qed.

(** [Path(...).name] gives back a name without separator. *)
Lemma path_name_go_skip s : ∀ cur t,
  path_name_go cur (s +:+ String "/" t) = path_name_go EmptyString t.
Proof.
  induction s as [|c s IH]; intros cur t.
  - done.
  - change (String c s +:+ String "/" t) with (String c (s +:+ String "/" t)).
    simpl. destruct (Ascii.eqb c "/"); apply IH.
Qed.

Lemma path_name_go_plain t : ∀ cur,
  contains_char "/" t = false → path_name_go cur t = String.rev_app cur t.
Proof.
  induction t as [|c t IH]; intros cur H; simpl in *; [done|].
  apply orb_false_iff in H as [-> H]. by rewrite IH.
Qed.

Lemma path_name_join dir name :
  contains_char "/" name = false → path_name (path_join dir name) = name.
Proof.
  intros H. unfold path_name, path_join.
  change ("/" +:+ name) with (String "/" name).
  by rewrite path_name_go_skip, path_name_go_plain.
Qed.

Lemma contains_char_app c s t :
  contains_char c (s +:+ t) = contains_char c s || contains_char c t.
Proof.
  induction s as [|a s IH]; [done|].
  change (String a s +:+ t) with (String a (s +:+ t)). simpl.
  by rewrite IH, orb_assoc.
Qed.

(** For ordinals below 100 the file name has a separator only if the
    session id or the slug has one. *)
Lemma local_filename_of_plain stamp i p type_name :
  i < 100 → p < 100 →
  contains_char "/" stamp = false →
  contains_char "/" (slug type_name) = false →
  contains_char "/" (local_filename_of stamp i p type_name) = false.
Proof.
  intros Hi Hp Hs Ht. unfold local_filename_of.
  rewrite !contains_char_app, Hs, Ht.
  assert (Hd : ∀ n, n < 100 → contains_char "/" (fmt_02d n) = false).
  { intros n Hn.
    apply (below_100 (λ n, negb (contains_char "/" (fmt_02d n)))) in Hn;
      [by apply negb_true_iff|by vm_compute]. }
  by rewrite !Hd.
Qed.
End names.

(** ** Names in the manifest *)

Section manifest_order.
Import text ads_generation.

Variable env : environment.
Variable folder_path : string.
Variable num_videos_per_image : Z.
Variable s3_bucket : option string.
Variable use_images : bool.
Variable session_timestamp : option string.

Local Abbreviation ts := (session_id env session_timestamp).

(** When no job failed and every artifact was retrieved, the report
    counts one success per pair and the produced-files list names the
    pairs in the order of the loops. *)
Lemma all_retrieved_session analyses w rep w' :
  generate_ads env folder_path analyses num_videos_per_image s3_bucket
               use_images session_timestamp w = (Ret (Some rep), w') →
  failed_videos rep = [] →
  Forall (λ r, is_Some (local_filename r)) (successful_videos rep) →
  let pairs := pairs_of num_videos_per_image 1 analyses in
  total_attempted rep = length pairs
  ∧ successful_count rep = length pairs
  ∧ session_videos_of (successful_videos rep)
    = manifest_names folder_path ts pairs
  ∧ (pairs ≠ [] →
     fs w' !! session_file folder_path ts
     = Some (FSession (mk_session_data env ts
                         (manifest_names folder_path ts pairs)))
     ∧ fs w' !! latest_session_file folder_path
       = Some (FSession (mk_session_data env ts
                           (manifest_names folder_path ts pairs)))).
Proof.
  intros (bucket & outs & _ & Houts & -> & ->)%generate_ads_inv Hfail Hall
    pairs.
  destruct (session_progress_results outs) as (Htot & Hsucc & Hfailed).
  unfold session_report, mk_report in Hfail, Hall; simpl in Hfail, Hall.
  rewrite Hfailed in Hfail. apply filter_none_rejected in Hfail.
  rewrite Hsucc, Hfail in Hall.
  pose proof (all_retrieved_names _ _ _ _ _ Houts Hall) as Hnames.
  assert (Hlist : session_videos_of
            (successful_videos
               (session_report env num_videos_per_image bucket use_images
                  ts analyses outs))
          = manifest_names folder_path ts pairs).
  { unfold session_report, mk_report; simpl. by rewrite Hsucc, Hfail. }
  split_and!.
  - unfold session_report, mk_report; simpl.
    by rewrite Htot, (outcomes_length _ _ _ _ _ Houts).
  - unfold session_report, mk_report; simpl.
    by rewrite Hsucc, Hfail, length_fmap, (outcomes_length _ _ _ _ _ Houts).
  - done.
  - intros Hne.
    destruct (after_session_published env folder_path analyses
                num_videos_per_image use_images session_timestamp bucket
                outs w) as (_ & Hlatest & Hsession).
    { rewrite Hlist. unfold manifest_names. by destruct pairs. }
    unfold session_manifest in *. rewrite Hlist in *. done.
Qed.

Variables a1 a2 : image_analysis.
Variables d11 d12 d13 d21 d22 d23 : prompt_data.

(** The file name derived for a pair. *)
Definition name_of (i p : nat) (d : prompt_data) : string :=
  local_filename_of ts i p (prompt_fields d).2.

Definition six_names : list string :=
  [name_of 1 1 d11; name_of 1 2 d12; name_of 1 3 d13;
   name_of 2 1 d21; name_of 2 2 d22; name_of 2 3 d23].

(** What the manifest lists for them: the last component of each local
    path. *)
Definition six_listed : list string :=
  (λ n, path_name (path_join (generated_folder folder_path) n))
    <$> six_names.

(** C5, as amended. The local file name of a pair is
    [video_<session id>_<image ordinal>_<prompt ordinal>_<slug>.mp4] with
    the ordinals counted from 1, written with two digits below 100, and
    the slug the prompt type lower-cased with spaces replaced by [_];
    the name determines the ordinals and the slug. For two images with
    three prompts each, when all six jobs succeed and all six artifacts
    are retrieved, the report counts six successes and the manifest lists
    six names in image-major, prompt-minor order: the last path component
    of each local path, which is the file name itself when neither the
    session id nor a slug contains a path separator. *)
Theorem two_by_three_session w rep w' :
  ia_video_prompts a1 = Some [d11; d12; d13] →
  ia_video_prompts a2 = Some [d21; d22; d23] →
  (3 ≤ num_videos_per_image)%Z →
  generate_ads env folder_path [a1; a2] num_videos_per_image s3_bucket
               use_images session_timestamp w = (Ret (Some rep), w') →
  failed_videos rep = [] →
  Forall (λ r, is_Some (local_filename r)) (successful_videos rep) →
  successful_count rep = 6
  ∧ total_attempted rep = 6
  ∧ fs w' !! session_file folder_path ts
    = Some (FSession (mk_session_data env ts six_listed))
  ∧ fs w' !! latest_session_file folder_path
    = Some (FSession (mk_session_data env ts six_listed))
  ∧ length six_listed = 6
  ∧ (contains_char "/" ts = false →
     Forall (λ d, contains_char "/" (slug (prompt_fields d).2) = false)
            [d11; d12; d13; d21; d22; d23] →
     six_listed = six_names)
  ∧ (∀ i p d, i < 100 → p < 100 →
       name_of i p d
       = "video_" +:+ ts +:+ "_" +:+ two_digits i +:+ "_" +:+ two_digits p
         +:+ "_" +:+ slug (prompt_fields d).2 +:+ ".mp4"
       ∧ read_two_digits (fmt_02d i) = i
       ∧ read_two_digits (fmt_02d p) = p)
  ∧ (∀ i p d i' p' d', i < 100 → p < 100 → i' < 100 → p' < 100 →
       name_of i p d = name_of i' p' d' →
       i = i' ∧ p = p'
       ∧ slug (prompt_fields d).2 = slug (prompt_fields d').2).
Proof.
  intros H1 H2 Hnum Hrun Hfail Hall.
  assert (Hpairs : pairs_of num_videos_per_image 1 [a1; a2]
                   = [(1, 1, d11); (1, 2, d12); (1, 3, d13);
                      (2, 1, d21); (2, 2, d22); (2, 3, d23)]).
  { simpl. rewrite H1, H2. simpl. unfold slice_to.
    destruct (Z.leb_spec 0 num_videos_per_image) as [_|?]; [|lia].
    rewrite !take_ge by (simpl; lia). done. }
  destruct (all_retrieved_session [a1; a2] w rep w' Hrun Hfail Hall)
    as (Htot & Hcount & _ & Hfiles).
  rewrite Hpairs in Htot, Hcount, Hfiles.
  destruct Hfiles as [Hsession Hlatest]; [done|].
  split_and!; try done.
  - intros Hts Hslugs. unfold six_listed, six_names, name_of.
    repeat (apply Forall_cons in Hslugs as [? Hslugs]).
    simpl. rewrite !path_name_join; [done|..];
      by apply local_filename_of_plain; [lia|lia|..].
  - intros i p d Hi Hp. unfold name_of, local_filename_of.
    rewrite !fmt_02d_two_digits by done.
    split; [done|]. rewrite <- !fmt_02d_two_digits by done.
    by rewrite !read_two_digits_fmt.
  - intros i p d i' p' d'. apply local_filename_of_inj.
Qed.

(** The claim as the specification words it: six successful jobs give a
    manifest of six names. *)
Definition six_successes_give_six_names (w : world) : Prop :=
  ∀ rep w',
    generate_ads env folder_path [a1; a2] num_videos_per_image s3_bucket
                 use_images session_timestamp w = (Ret (Some rep), w') →
    failed_videos rep = [] →
    successful_count rep = 6 →
    ∃ d, fs w' !! session_file folder_path ts = Some (FSession d)
         ∧ length (session_videos d) = 6.
End manifest_order.

(** Six jobs complete, the artifact of one is not found in the store: the
    report counts six successes and the manifest lists five names. *)
Local Abbreviation six_jobs_one_lost :=
  (ads_generation.generate_ads samples.env "shop"
     [samples.image ["a"; "b"; "c"]; samples.image ["d"; "lost"; "f"]]
     3 (Some "bucket") false (Some "20240101_000000") samples.empty_world).

Lemma six_successes_five_names :
  ¬ six_successes_give_six_names samples.env "shop" 3 (Some "bucket") false
      (Some "20240101_000000")
      (samples.image ["a"; "b"; "c"]) (samples.image ["d"; "lost"; "f"])
      samples.empty_world.
Proof.
  intros H.
  assert (Hreport : match six_jobs_one_lost.1 with
                    | Ret (Some rep) =>
                        failed_videos rep = [] ∧ successful_count rep = 6
                    | _ => False
                    end) by (by vm_compute).
  assert (Hlisted : match fs six_jobs_one_lost.2
                          !! ads_generation.session_file "shop"
                               "20240101_000000" with
                    | Some (FSession d) => length (session_videos d)
                    | _ => 0
                    end = 5) by (by vm_compute).
  destruct six_jobs_one_lost as [o w'] eqn:Hrun.
  cbn [fst snd] in Hreport, Hlisted.
  destruct o as [[rep|]|]; try contradiction.
  destruct Hreport as [Hfailed Hcount].
  destruct (H rep w' Hrun Hfailed Hcount) as (d & Hd & Hlen).
  change (session_id samples.env (Some "20240101_000000"))
    with "20240101_000000" in Hd.
  rewrite Hd in Hlisted. lia.
Qed.

(** ** The transition path *)

Module merge_samples.
Import merge_videos.

(** A video stream of 1280x720 whose duration is [d], or is not reported. *)
Definition video_stream (d : option Q) : stream :=
  {| codec_type := Some "video"; st_width := Some 1280%Z;
     st_height := Some 720%Z; st_duration := Ret <$> d |}.

(** Tools that probe every file to that stream and merge without error. *)
Definition tools_probing (d : option Q) : tools :=
  {| ffmpeg_installed := true;
     ffprobe := λ _, Ret {| returncode := 0;
                            stdout_streams := Ret (Some [video_stream d]) |};
     ffmpeg := λ _, Ret 0%Z;
     dir_exists := λ _, true;
     strftime_now := "20240103_000000" |}.

End merge_samples.

Section transition_facts.
Import text merge_videos.

Variable tl : tools.
Variable transition_duration : Q.

Lemma Qltb_lt a b : Qltb a b = true ↔ (a < b)%Q.
Proof.
  unfold Qltb. rewrite negb_true_iff, <- not_true_iff_false, Qle_bool_iff.
  split; [apply Qnot_le_lt|apply Qlt_not_le].
Qed.

(** The fade-out of a segment, read off its probe. *)
Lemma fade_out_of_spec video st d :
  fade fade_out st d ∈ fade_out_of tl transition_duration video
  ↔ ∃ info, get_video_info (ffprobe tl) video = Some info
            ∧ (0 < duration info)%Q
            ∧ st = (duration info - transition_duration)%Q
            ∧ d = transition_duration.
Proof.
  unfold fade_out_of.
  destruct (get_video_info (ffprobe tl) video) as [info|].
  - destruct (Qltb 0 (duration info)) eqn:Hpos.
    + rewrite list_elem_of_singleton. apply Qltb_lt in Hpos. split.
      * intros [= -> ->]. eauto.
      * by intros (info' & [= <-] & _ & -> & ->).
    + rewrite elem_of_nil. split; [done|].
      intros (info' & [= <-] & Hlt%Qltb_lt & _). congruence.
  - rewrite elem_of_nil. split; [done|]. by intros (info' & [=] & _).
Qed.

Lemma fade_out_of_only_fade_out video f :
  f ∈ fade_out_of tl transition_duration video →
  ∃ st, f = fade fade_out st transition_duration.
Proof.
  unfold fade_out_of.
  destruct (get_video_info (ffprobe tl) video) as [info|];
    [|by intros ?%elem_of_nil].
  destruct (Qltb 0 (duration info)); [|by intros ?%elem_of_nil].
  intros ->%list_elem_of_singleton. eauto.
Qed.

(** The graph, once the first segment is probed. *)
Lemma filter_complex_entries first rest first_info :
  get_video_info (ffprobe tl) first = Some first_info →
  filter_complex tl (first :: rest) transition_duration
  = Ret (Some (imap (segment_chain tl (first :: rest) transition_duration
                       (width first_info) (height first_info)) (first :: rest)
               ++ [concat (seq 0 (length (first :: rest)))
                          (length (first :: rest))])).
Proof. unfold filter_complex. by intros ->. Qed.

(** Where a fade-out can sit in a chain. *)
Lemma fade_out_in_chain W H (first_one : bool) (tail : list vfilter) st d :
  fade fade_out st d
  ∈ [scale W H; pad W H; setsar1]
    ++ (if first_one then [] else [fade fade_in 0 transition_duration])
    ++ tail
  ↔ fade fade_out st d ∈ tail.
Proof.
  rewrite !elem_of_app, !elem_of_cons, elem_of_nil. split; [|auto].
  intros [[?|[?|[?|[]]]]|[Hin|?]]; try done.
  destruct first_one; [by apply elem_of_nil in Hin|].
  by apply list_elem_of_singleton in Hin.
Qed.

(** C8, as amended. With a first segment that can be probed, the filter
    graph has one chain per segment, in order, followed by the
    concatenation of all of them. Every chain starts with the scaling to
    the first segment's resolution (aspect ratio kept), the centred
    padding to exactly that resolution and [setsar=1]; it has a fade-in
    of the configured duration exactly when the segment is not the first,
    and a fade-out of the configured duration exactly when the segment is
    not the last and its own probe gives a positive duration. *)
Theorem transition_filter_graph first rest first_info :
  get_video_info (ffprobe tl) first = Some first_info →
  let video_files := first :: rest in
  let n := length video_files in
  let W := width first_info in
  let H := height first_info in
  ∃ entries,
    filter_complex tl video_files transition_duration = Ret (Some entries)
    ∧ length entries = n + 1
    ∧ entries !! n = Some (concat (seq 0 n) n)
    ∧ ∀ i video, video_files !! i = Some video →
        ∃ filters,
          entries !! i = Some (chain i filters i)
          ∧ take 3 filters = [scale W H; pad W H; setsar1]
          ∧ (∀ st d, fade fade_in st d ∈ filters
                     ↔ 0 < i ∧ st = 0%Q ∧ d = transition_duration)
          ∧ (∀ st d, fade fade_out st d ∈ filters
                     ↔ i < n - 1
                       ∧ ∃ info,
                           get_video_info (ffprobe tl) video = Some info
                           ∧ (0 < duration info)%Q
                           ∧ st = (duration info - transition_duration)%Q
                           ∧ d = transition_duration).
Proof.
  intros Hfirst video_files n W H.
  unfold filter_complex. fold video_files. unfold video_files at 1.
  rewrite Hfirst. fold W H n. eexists. split; [reflexivity|].
  split_and!.
  - rewrite length_app, length_imap. done.
  - rewrite lookup_app_r by (rewrite length_imap; done).
    by rewrite length_imap, Nat.sub_diag.
  - intros i video Hi.
    eexists. split.
    { rewrite lookup_app_l
        by (rewrite length_imap; by apply lookup_lt_Some in Hi).
      rewrite list_lookup_imap, Hi. reflexivity. }
    fold n. split_and!.
    + done.
    + intros st d. rewrite !elem_of_app, !elem_of_cons, elem_of_nil.
      destruct (Nat.ltb_spec 0 i) as [Hpos|Hzero].
      * rewrite list_elem_of_singleton. split.
        -- intros [[?|[?|[?|[]]]]|[[= -> ->]|Hout]]; try done.
           destruct (i <? n - 1); [|by apply elem_of_nil in Hout].
           by apply fade_out_of_only_fade_out in Hout as [? ?].
        -- intros (_ & -> & ->). right; by left.
      * rewrite elem_of_nil. split; [|lia].
        intros [[?|[?|[?|[]]]]|[[]|Hout]]; try done.
        destruct (i <? n - 1); [|by apply elem_of_nil in Hout].
        by apply fade_out_of_only_fade_out in Hout as [? ?].
    + intros st d. rewrite !elem_of_app, !elem_of_cons, elem_of_nil.
      destruct (Nat.ltb_spec i (n - 1)) as [Hlt|Hge].
      * rewrite fade_out_of_spec. split.
        -- intros [[?|[?|[?|[]]]]|[Hin|Hout]]; try done.
           destruct (0 <? i); [|by apply elem_of_nil in Hin].
           by apply list_elem_of_singleton in Hin.
        -- intros [_ Hinfo]. right; by right.
      * rewrite elem_of_nil. split; [|lia].
        intros [[?|[?|[?|[]]]]|[Hin|[]]]; try done.
        destruct (0 <? i); [|by apply elem_of_nil in Hin].
        by apply list_elem_of_singleton in Hin.
Qed.

(** Without a probe of the first segment, no graph is built and the
    merge returns [False]. *)
Lemma no_first_probe first rest :
  get_video_info (ffprobe tl) first = None →
  filter_complex tl (first :: rest) transition_duration = Ret None.
Proof. unfold filter_complex. by intros ->. Qed.

(** C1, as amended. For a segment that is not the last and whose probe
    gives a positive duration D, the fade-out start written into the
    chain is D - T, with T the transition duration: it is 0 when D equals
    T, it is max(0, D - T) whenever T does not exceed D, and it is
    negative when D is smaller than T; no fade-out is written for a
    segment whose probe gives nothing or a duration that is not
    positive. *)
Theorem fade_out_start first rest entries i video :
  filter_complex tl (first :: rest) transition_duration
  = Ret (Some entries) →
  (first :: rest) !! i = Some video →
  i < length (first :: rest) - 1 →
  ∃ filters,
    entries !! i = Some (chain i filters i)
    ∧ match get_video_info (ffprobe tl) video with
      | Some info =>
          let D := duration info in
          let T := transition_duration in
          if Qltb 0 D then
            (∀ st d, fade fade_out st d ∈ filters ↔
                     st = (D - T)%Q ∧ d = T)
            ∧ (D == T → D - T == 0)%Q
            ∧ (T <= D → D - T == Qmax 0 (D - T))%Q
            ∧ (D < T → D - T < 0)%Q
          else ∀ st d, fade fade_out st d ∉ filters
      | None => ∀ st d, fade fade_out st d ∉ filters
      end.
Proof.
  intros Hfc Hi Hlt.
  destruct (get_video_info (ffprobe tl) first) as [first_info|] eqn:Hfirst;
    [|by rewrite no_first_probe in Hfc].
  pose proof (filter_complex_entries first rest first_info Hfirst) as Heq.
  rewrite Hfc in Heq.
  assert (entries
          = imap (segment_chain tl (first :: rest) transition_duration
                    (width first_info) (height first_info)) (first :: rest)
            ++ [concat (seq 0 (length (first :: rest)))
                       (length (first :: rest))]) as ->
    by congruence.
  clear Heq Hfc. eexists. split.
  { rewrite lookup_app_l
      by (rewrite length_imap; by apply lookup_lt_Some in Hi).
    rewrite list_lookup_imap, Hi. reflexivity. }
  apply Nat.ltb_lt in Hlt. rewrite Hlt.
  assert (Hout : ∀ st d,
            fade fade_out st d
            ∈ [scale (width first_info) (height first_info);
               pad (width first_info) (height first_info); setsar1]
              ++ (if 0 <? i then [fade fade_in 0 transition_duration] else [])
              ++ fade_out_of tl transition_duration video
            ↔ ∃ info, get_video_info (ffprobe tl) video = Some info
                      ∧ (0 < duration info)%Q
                      ∧ st = (duration info - transition_duration)%Q
                      ∧ d = transition_duration).
  { intros st d. rewrite <- fade_out_of_spec.
    destruct (0 <? i).
    - apply (fade_out_in_chain _ _ false).
    - apply (fade_out_in_chain _ _ true). }
  destruct (get_video_info (ffprobe tl) video) as [info|] eqn:Hinfo.
  - cbv zeta. destruct (Qltb 0 (duration info)) eqn:Hpos.
    + apply Qltb_lt in Hpos. split; [|split; [|split]].
      * intros st d. rewrite Hout. split.
        -- by intros (info' & [= <-] & _ & -> & ->).
        -- intros [-> ->]. eauto.
      * intros HDT. lra.
      * intros HTD. symmetry. apply Q.max_r. lra.
      * intros HDT. lra.
    + intros st d. rewrite Hout.
      intros (info' & [= <-] & Hlt'%Qltb_lt & _). congruence.
  - intros st d. rewrite Hout. by intros (info' & [=] & _).
Qed.
End transition_facts.

Section transition_claims_as_worded.
Import text merge_videos.

(** C8 as the specification words it: every segment but the last has a
    fade-out of the configured duration. *)
Definition every_segment_but_last_fades_out (tl : tools)
    (video_files : list string) (T : Q) : Prop :=
  ∀ entries i,
    filter_complex tl video_files T = Ret (Some entries) →
    i < length video_files - 1 →
    ∃ input filters label st,
      entries !! i = Some (chain input filters label)
      ∧ fade fade_out st T ∈ filters.

(** Two segments whose streams report no duration: the first one gets no
    fade-out. *)
Lemma undated_segment_has_no_fade_out :
  ¬ every_segment_but_last_fades_out (merge_samples.tools_probing None)
      ["a.mp4"; "b.mp4"] (1 # 2).
Proof.
  intros H.
  destruct (H _ 0 eq_refl ltac:(simpl; lia))
    as (input & filters & label & st & [= _ <- _] & Hin).
  repeat (apply elem_of_cons in Hin as [Hin|Hin]; [discriminate Hin|]).
  by apply elem_of_nil in Hin.
Qed.

(** C1 as the specification words it: the fade-out start of a probed
    segment is max(0, D - T). *)
Definition fade_out_start_is_clamped (tl : tools)
    (video_files : list string) (T : Q) : Prop :=
  ∀ entries i video info input filters label st d,
    filter_complex tl video_files T = Ret (Some entries) →
    video_files !! i = Some video →
    get_video_info (ffprobe tl) video = Some info →
    entries !! i = Some (chain input filters label) →
    fade fade_out st d ∈ filters →
    (st == Qmax 0 (duration info - T))%Q.

(** Segments of a quarter of a second with a transition of half a
    second: the fade-out of the first starts at minus a quarter. *)
Lemma short_segment_fades_out_before_zero :
  ¬ fade_out_start_is_clamped (merge_samples.tools_probing (Some (1 # 4)))
      ["a.mp4"; "b.mp4"] (1 # 2).
Proof.
  intros H.
  specialize (H _ 0 "a.mp4" _ _ _ _ ((1 # 4) - (1 # 2))%Q (1 # 2)
                eq_refl eq_refl eq_refl eq_refl).
  assert (Hin : fade fade_out ((1 # 4) - (1 # 2)) (1 # 2)
                ∈ [scale 1280 720; pad 1280 720; setsar1;
                   fade fade_out ((1 # 4) - (1 # 2)) (1 # 2)]).
  { do 3 apply list_elem_of_further. apply list_elem_of_here. }
  apply H in Hin. vm_compute in Hin. discriminate Hin.
Qed.
End transition_claims_as_worded.

(** ** Segment resolution *)

Section resolution_facts.
Import text merge_videos.

Lemma parts_compare_antisym a : ∀ b,
  parts_compare b a = CompOpp (parts_compare a b).
Proof.
  induction a as [|x a IH]; intros [|y b]; simpl; try done.
  rewrite (String.compare_antisym y x).
  destruct (String.compare x y); simpl; auto.
Qed.

Global Instance path_le_total : Total path_le.
Proof.
  intros p q. unfold path_le, path_compare.
  rewrite (parts_compare_antisym (split "/" p) (split "/" q)).
  destruct (parts_compare (split "/" p) (split "/" q)); simpl; auto.
Qed.

Lemma sorted_Sorted paths : Sorted path_le (sorted paths).
Proof. apply Sorted_merge_sort, _. Qed.

Lemma sorted_Permutation paths : sorted paths ≡ₚ paths.
Proof. apply merge_sort_Permutation. Qed.

Variable fs0 : gmap string file.
Variable generated_ads_dir : string.
Variable use_timestamp : option string.

(** The session id a session-only merge works with. *)
Definition session_stamp : option string :=
  match ads_generation.truthy use_timestamp with
  | Some _ => use_timestamp
  | None => get_latest_session_timestamp fs0 generated_ads_dir
  end.

(** What strategies (b) and (c) yield for it. *)
Definition manifest_yield : list string :=
  match ads_generation.truthy session_stamp with
  | Some t => manifest_videos fs0 generated_ads_dir t
  | None => []
  end.
Definition pattern_yield : list string :=
  match ads_generation.truthy session_stamp with
  | Some t => pattern_videos fs0 generated_ads_dir t
  | None => []
  end.

(** The priority order among the strategies of [merge_generated_videos]:
    the directory scan at once when all videos are asked for; otherwise
    the manifest, then the file-name pattern, then the directory scan. *)
Definition chosen_in_folder (session_only0 : bool)
    : strategy * list string :=
  if session_only0 then
    match manifest_yield, pattern_yield with
    | _ :: _, _ => (by_manifest, sorted manifest_yield)
    | [], _ :: _ => (by_pattern, sorted pattern_yield)
    | [], [] => (by_scan, sorted (all_videos_in fs0 generated_ads_dir))
    end
  else (by_scan, sorted (all_videos_in fs0 generated_ads_dir)).

Lemma resolve_chosen session_only0 :
  let r := resolve fs0 generated_ads_dir session_only0 use_timestamp in
  (used r, video_files r) = chosen_in_folder session_only0.
Proof.
  unfold resolve, chosen_in_folder, manifest_yield, pattern_yield,
    session_stamp.
  destruct session_only0; [|done].
  destruct (ads_generation.truthy use_timestamp) as [t0|] eqn:Hut.
  - rewrite Hut.
    destruct (manifest_videos fs0 generated_ads_dir t0) as [|v vs]; [|done].
    by destruct (pattern_videos fs0 generated_ads_dir t0).
  - destruct (ads_generation.truthy
                (get_latest_session_timestamp fs0 generated_ads_dir))
      as [t|]; [|done].
    destruct (manifest_videos fs0 generated_ads_dir t) as [|v vs]; [|done].
    by destruct (pattern_videos fs0 generated_ads_dir t).
Qed.
End resolution_facts.

Section merge_facts.
Import text merge_videos.

Variable tl : tools.

(** The segment lists ffmpeg was run on, in order. *)
Definition merged_segments (tr : list event) : list (list string) :=
  omap (λ e, match e with
             | EvMerge segments _ => Some segments
             | _ => None
             end) tr.

Lemma merged_segments_app tr1 tr2 :
  merged_segments (tr1 ++ tr2) = merged_segments tr1 ++ merged_segments tr2.
Proof. apply omap_app. Qed.

Lemma run_ffmpeg_merges segments with_transitions cmd output_path w :
  ∃ ok w',
    run_ffmpeg tl segments with_transitions cmd output_path w = (Ret ok, w')
    ∧ merged_segments (trace w') = merged_segments (trace w) ++ [segments].
Proof.
  unfold run_ffmpeg, bind, emit, write_file, ret.
  destruct (ffmpeg tl cmd) as [code|e]; [destruct (code =? 0)%Z|];
    eexists _, _; (split; [reflexivity|]); simpl;
    rewrite ?merged_segments_app; simpl; by rewrite ?app_nil_r.
Qed.

Lemma merge_videos_concat_merges video_files output_path w :
  ∃ ok w',
    merge_videos_concat tl video_files output_path w = (Ret ok, w')
    ∧ merged_segments (trace w')
      = merged_segments (trace w) ++ [video_files].
Proof.
  unfold merge_videos_concat, bind at 1 2, write_file.
  edestruct run_ffmpeg_merges as (ok & w1 & -> & Htr).
  unfold bind, remove_file, ret. eexists _, _. split; [reflexivity|].
  simpl in *. rewrite merged_segments_app, Htr, merged_segments_app. simpl.
  by rewrite !app_nil_r.
Qed.

Lemma merge_videos_with_transitions_merges first rest output_path T w :
  ∃ ok w',
    merge_videos_with_transitions tl (first :: rest) output_path T w
    = (Ret ok, w')
    ∧ (merged_segments (trace w')
       = merged_segments (trace w) ++ [first :: rest]
       ∨ ok = false ∧ merged_segments (trace w') = merged_segments (trace w)).
Proof.
  unfold merge_videos_with_transitions, bind, lift, filter_complex.
  destruct (get_video_info (ffprobe tl) first) as [info|].
  - edestruct run_ffmpeg_merges as (ok & w1 & -> & Htr). eauto.
  - eexists _, _. unfold ret. split; [reflexivity|]. by right.
Qed.

Lemma merge_generated_videos_merges folder_path transition T session_only0
    use_timestamp w :
  let files :=
    video_files (resolve (fs w) folder_path session_only0 use_timestamp) in
  ∃ ok w',
    merge_generated_videos tl folder_path transition T session_only0
                           use_timestamp w = (Ret ok, w')
    ∧ (files ≠ []
       ∧ merged_segments (trace w') = merged_segments (trace w) ++ [files]
       ∨ ok = false ∧ merged_segments (trace w') = merged_segments (trace w)).
Proof.
  intros files. unfold merge_generated_videos.
  destruct (dir_exists tl folder_path); simpl;
    [|by eexists _, _; split; [reflexivity|right]].
  fold files. destruct files as [|first rest] eqn:Hfiles;
    [by eexists _, _; split; [reflexivity|right]|].
  unfold bind at 1.
  assert (Hmerge : ∀ output_path, ∃ ok w1,
            (if transition
             then merge_videos_with_transitions tl (first :: rest)
                    output_path T
             else merge_videos_concat tl (first :: rest) output_path) w
            = (Ret ok, w1)
            ∧ (merged_segments (trace w1)
               = merged_segments (trace w) ++ [first :: rest]
               ∨ ok = false
                 ∧ merged_segments (trace w1) = merged_segments (trace w))).
  { intros output_path. destruct transition.
    - apply merge_videos_with_transitions_merges.
    - destruct (merge_videos_concat_merges (first :: rest) output_path w)
        as (ok & w1 & ? & ?). eauto. }
  edestruct Hmerge as (ok & w1 & -> & Htr).
  destruct ok.
  - destruct Htr as [Htr|[? _]]; [|done].
    unfold bind, write_file, ret. eexists _, _. split; [reflexivity|].
    left. split; [done|]. simpl.
    rewrite merged_segments_app, Htr. simpl. by rewrite app_nil_r.
  - unfold ret. eexists _, _. split; [reflexivity|].
    destruct Htr as [Htr|[_ Htr]]; [left|right]; done.
Qed.
End merge_facts.

Module resolution_samples.
Import ads_generation.

Definition manifest : session_data :=
  {| sd_timestamp := "20240101_000000";
     sd_timestamp_iso := "2024-01-01T00:00:01";
     session_videos := ["video_20240101_000000_01_01_hero_shot.mp4"];
     generation_report := "generation_report_20240101_000000.json" |}.

(** A directory as a session leaves it: one video, its manifest and the
    latest-session file. *)
Definition directory : gmap string file :=
  <["ads/latest_session_videos.json" := FSession manifest]>
  (<["ads/session_videos_20240101_000000.json" := FSession manifest]>
   (<["ads/video_20240101_000000_01_01_hero_shot.mp4" := FVideo]> ∅)).

Definition arguments_for (all : bool) (explicit : option (list string))
    : merge_videos.arguments :=
  {| merge_videos.folder := "ads"; merge_videos.arg_transition := false;
     merge_videos.arg_transition_duration := 1 # 2;
     merge_videos.all_videos := all; merge_videos.arg_timestamp := None;
     merge_videos.videos := explicit |}.

End resolution_samples.

Section resolution_claim.
Import text merge_videos.

(** The strategy and the segment list of an invocation: the explicit
    list where one is given, else what the folder gives. *)
Definition chosen (args : arguments) (fs0 : gmap string file)
    : strategy * list string :=
  match videos args with
  | Some (v :: vs) => (by_explicit_list, List.filter (exists_in fs0) (v :: vs))
  | _ => chosen_in_folder fs0 (folder args) (arg_timestamp args)
                          (negb (all_videos args))
  end.

Lemma chosen_in_folder_spec fs0 dir use_timestamp session_only0 :
  let c := chosen_in_folder fs0 dir use_timestamp session_only0 in
  (c.1 = by_scan →
     (session_only0 = false
      ∨ manifest_yield fs0 dir use_timestamp = []
        ∧ pattern_yield fs0 dir use_timestamp = [])
     ∧ Sorted path_le c.2
     ∧ c.2 ≡ₚ glob fs0 dir "video_" ".mp4")
  ∧ (c.1 = by_manifest →
     session_only0 = true ∧ c.2 ≡ₚ manifest_yield fs0 dir use_timestamp)
  ∧ (c.1 = by_pattern →
     session_only0 = true
     ∧ manifest_yield fs0 dir use_timestamp = []
     ∧ c.2 ≡ₚ pattern_yield fs0 dir use_timestamp)
  ∧ c.1 ≠ by_explicit_list.
Proof.
  unfold chosen_in_folder.
  assert (Hscan : Sorted path_le (sorted (all_videos_in fs0 dir))
                  ∧ sorted (all_videos_in fs0 dir)
                    ≡ₚ glob fs0 dir "video_" ".mp4").
  { split; [apply sorted_Sorted|].
    unfold all_videos_in. by rewrite !sorted_Permutation. }
  destruct Hscan as [Hsorted Hperm].
  destruct session_only0; simpl; [|by repeat split; auto].
  destruct (manifest_yield _ _ _) as [|m ms] eqn:Hm.
  - destruct (pattern_yield _ _ _) as [|p ps] eqn:Hp; simpl.
    + by repeat split; auto.
    + repeat split; try done. by rewrite sorted_Permutation.
  - simpl. repeat split; try done. by rewrite sorted_Permutation.
Qed.

Lemma main_in_folder tl args w :
  let c := chosen_in_folder (fs w) (folder args) (arg_timestamp args)
                            (negb (all_videos args)) in
  ∃ code w',
    (let* success := merge_generated_videos tl (folder args)
                       (arg_transition args) (arg_transition_duration args)
                       (negb (all_videos args)) (arg_timestamp args) in
     ret (if success then 0%Z else 1%Z)) w = (Ret code, w')
    ∧ (merged_segments (trace w') = merged_segments (trace w) ++ [c.2]
       ∨ code = 1%Z ∧ merged_segments (trace w') = merged_segments (trace w))
    ∧ (c.2 = [] →
       code = 1%Z ∧ merged_segments (trace w') = merged_segments (trace w)).
Proof.
  intros c.
  destruct (merge_generated_videos_merges tl (folder args)
              (arg_transition args) (arg_transition_duration args)
              (negb (all_videos args)) (arg_timestamp args) w)
    as (ok & w' & Hrun & Htr).
  pose proof (resolve_chosen (fs w) (folder args) (arg_timestamp args)
                (negb (all_videos args))) as Hres.
  cbv zeta in Hres. fold c in Hres.
  assert (Hfiles : video_files (resolve (fs w) (folder args)
                     (negb (all_videos args)) (arg_timestamp args)) = c.2)
    by (by rewrite <- Hres).
  rewrite Hfiles in Htr.
  unfold bind. rewrite Hrun. unfold ret.
  destruct Htr as [[Hne Htr]|[-> Htr]]; eexists _, w'.
  - split; [reflexivity|]. split; [by left|done].
  - split; [reflexivity|]. split; [by right|done].
Qed.

Lemma main_explicit tl args v vs w :
  ∃ code w',
    (let video_files := List.filter (exists_in (fs w)) (v :: vs) in
     match video_files with
     | [] => ret 1%Z w
     | first :: _ =>
         (let* success :=
            if arg_transition args then
              merge_videos_with_transitions tl video_files
                (path_join (path_parent first)
                           ("merged_" +:+ strftime_now tl +:+ ".mp4"))
                (arg_transition_duration args)
            else merge_videos_concat tl video_files
                   (path_join (path_parent first)
                              ("merged_" +:+ strftime_now tl +:+ ".mp4")) in
          ret (if success then 0%Z else 1%Z)) w
     end) = (Ret code, w')
    ∧ (merged_segments (trace w')
       = merged_segments (trace w)
         ++ [List.filter (exists_in (fs w)) (v :: vs)]
       ∨ code = 1%Z ∧ merged_segments (trace w') = merged_segments (trace w))
    ∧ (List.filter (exists_in (fs w)) (v :: vs) = [] →
       code = 1%Z ∧ merged_segments (trace w') = merged_segments (trace w)).
Proof.
  cbv zeta.
  destruct (List.filter (exists_in (fs w)) (v :: vs)) as [|first rest].
  - exists 1%Z, w. unfold ret. split; [done|]. split; [by right|done].
  - assert (Hmerge : ∀ output_path, ∃ ok w',
      (if arg_transition args
       then merge_videos_with_transitions tl (first :: rest) output_path
              (arg_transition_duration args)
       else merge_videos_concat tl (first :: rest) output_path) w
      = (Ret ok, w')
      ∧ (merged_segments (trace w')
         = merged_segments (trace w) ++ [first :: rest]
         ∨ ok = false
           ∧ merged_segments (trace w') = merged_segments (trace w))).
    { intros output_path. destruct (arg_transition args).
      - apply merge_videos_with_transitions_merges.
      - destruct (merge_videos_concat_merges tl (first :: rest)
                    output_path w) as (ok & w1 & ? & ?). eauto. }
    edestruct Hmerge as (ok & w' & Hrun & Htr).
    unfold bind. rewrite Hrun. unfold ret. eexists _, w'.
    split; [reflexivity|]. split; [|done].
    destruct Htr as [Htr|[-> Htr]]; [by left|by right].
Qed.

(** C6, as amended. An invocation of [main] with ffmpeg installed merges
    at most once, and then the segments of exactly one strategy: the
    existing files of the explicit list when one is given (no other
    strategy is tried, also when none of them exists); otherwise, unless
    all videos are asked for, the manifest's files for the session id,
    else the files matching the session id's pattern, else the scan of
    the directory; and the scan directly when all videos are asked for.
    Without segments the exit status is 1 and nothing is merged. The scan
    is used only without an explicit list, and then either because all
    videos were asked for or because manifest and pattern both yield
    nothing; its result is the matching entries of the directory in
    path order. *)
Theorem segments_resolved_by_priority tl args w :
  ffmpeg_installed tl = true →
  ∃ code w',
    main tl args w = (Ret code, w')
    ∧ (merged_segments (trace w')
       = merged_segments (trace w) ++ [(chosen args (fs w)).2]
       ∨ code = 1%Z ∧ merged_segments (trace w') = merged_segments (trace w))
    ∧ ((chosen args (fs w)).2 = [] →
       code = 1%Z ∧ merged_segments (trace w') = merged_segments (trace w))
    ∧ ((chosen args (fs w)).1 = by_explicit_list ↔
       ∃ v vs, videos args = Some (v :: vs))
    ∧ ((chosen args (fs w)).1 = by_scan →
       (videos args = None ∨ videos args = Some [])
       ∧ (all_videos args = true
          ∨ manifest_yield (fs w) (folder args) (arg_timestamp args) = []
            ∧ pattern_yield (fs w) (folder args) (arg_timestamp args) = [])
       ∧ Sorted path_le (chosen args (fs w)).2
       ∧ (chosen args (fs w)).2
         ≡ₚ glob (fs w) (folder args) "video_" ".mp4")
    ∧ ((chosen args (fs w)).1 = by_manifest →
       all_videos args = false
       ∧ (chosen args (fs w)).2
         ≡ₚ manifest_yield (fs w) (folder args) (arg_timestamp args))
    ∧ ((chosen args (fs w)).1 = by_pattern →
       all_videos args = false
       ∧ manifest_yield (fs w) (folder args) (arg_timestamp args) = []
       ∧ (chosen args (fs w)).2
         ≡ₚ pattern_yield (fs w) (folder args) (arg_timestamp args)).
Proof.
  intros Hinstalled.
  pose proof (chosen_in_folder_spec (fs w) (folder args) (arg_timestamp args)
                (negb (all_videos args))) as (Hs & Hm & Hp & He).
  assert (Hall : ∀ b, negb (all_videos args) = b →
            (b = false → all_videos args = true)
            ∧ (b = true → all_videos args = false)).
  { intros b <-. by destruct (all_videos args). }
  destruct (Hall _ eq_refl) as [Hall_f Hall_t].
  unfold main, chosen. rewrite Hinstalled. cbn [negb].
  destruct (videos args) as [[|v vs]|] eqn:Hvideos.
  - destruct (main_in_folder tl args w) as (code & w' & Hrun & Hmerged & Hnone).
    exists code, w'. split; [done|]. split; [done|]. split; [done|].
    split; [|split; [|split]].
    + split; [done|]. by intros (? & ? & [=]).
    + intros Hscan. destruct (Hs Hscan) as ([?|?] & ? & ?); eauto 10.
    + intros H. destruct (Hm H) as [? ?]. eauto.
    + intros H. destruct (Hp H) as (? & ? & ?). eauto.
  - destruct (main_explicit tl args v vs w)
      as (code & w' & Hrun & Hmerged & Hnone).
    exists code, w'. split; [done|]. split; [done|]. split; [done|].
    cbn [fst]. split; [|done]. split; eauto.
  - destruct (main_in_folder tl args w) as (code & w' & Hrun & Hmerged & Hnone).
    exists code, w'. split; [done|]. split; [done|]. split; [done|].
    split; [|split; [|split]].
    + split; [done|]. by intros (? & ? & [=]).
    + intros Hscan. destruct (Hs Hscan) as ([?|?] & ? & ?); eauto 10.
    + intros H. destruct (Hm H) as [? ?]. eauto.
    + intros H. destruct (Hp H) as (? & ? & ?). eauto.
Qed.

(** C6 as the specification words it: the directory scan is used only
    when the manifest and the pattern yield nothing. *)
Definition scan_is_last_resort (fs0 : gmap string file) (args : arguments)
    : Prop :=
  used (resolve fs0 (folder args) (negb (all_videos args))
                (arg_timestamp args)) = by_scan →
  manifest_yield fs0 (folder args) (arg_timestamp args) = []
  ∧ pattern_yield fs0 (folder args) (arg_timestamp args) = [].

(** With all videos asked for, the directory is scanned although the
    manifest of the latest session lists an existing video. *)
Lemma scan_despite_manifest :
  ¬ scan_is_last_resort resolution_samples.directory
      (resolution_samples.arguments_for true None).
Proof.
  intros H.
  assert (Hyield : length (manifest_yield resolution_samples.directory
                             "ads" None) = 1) by (by vm_compute).
  destruct H as [Hnone _]; [done|].
  change (folder _) with "ads" in Hnone.
  change (arg_timestamp _) with (@None string) in Hnone.
  by rewrite Hnone in Hyield.
Qed.
End resolution_claim.

(** ** The theorems at sample inputs *)

Section witnesses.
Import text ads_generation.

Local Abbreviation mixed_session :=
  (generate_ads samples.env "shop" [samples.image ["ok"; "fail"; "lost"]] 3
                (Some "bucket") false None samples.empty_world).
Local Abbreviation lost_session :=
  (generate_ads samples.env "shop" [samples.image ["lost"; "slow"]] 3
                (Some "bucket") false None samples.empty_world).
Local Abbreviation full_session :=
  (generate_ads samples.env "shop"
     [samples.image ["a"; "b"; "c"]; samples.image ["d"; "e"; "f"]] 3
     (Some "bucket") false None samples.empty_world).

(** A session with a retrieved, a failed and a lost job: three attempts,
    two successes, one failure. *)
Lemma report_counts_add_up_witness :
  ∃ rep w',
    mixed_session = (Ret (Some rep), w')
    ∧ total_attempted rep = successful_count rep + failed_count rep.
Proof.
  assert (Hsome : match mixed_session.1 with
                  | Ret (Some _) => True
                  | _ => False
                  end) by (by vm_compute).
  destruct mixed_session as [o w'] eqn:Hrun. cbn [fst] in Hsome.
  destruct o as [[rep|]|]; try contradiction.
  exists rep, w'. split; [reflexivity|].
  exact (proj1 (report_counts_add_up _ _ _ _ _ _ _ _ _ _ Hrun)).
Defined.


(** A session whose only completed job is lost in retrieval and whose
    other job times out. *)
Lemma no_manifest_without_retrieved_artifact_witness :
  ∃ rep w',
    lost_session = (Ret (Some rep), w')
    ∧ session_videos_of (successful_videos rep) = []
    ∧ successful_count rep = 1
    ∧ fs w' !! latest_session_file "shop"
      = fs samples.empty_world !! latest_session_file "shop".
Proof.
  assert (Hobs : match lost_session.1 with
                 | Ret (Some rep) =>
                     session_videos_of (successful_videos rep) = []
                     ∧ successful_count rep = 1
                 | _ => False
                 end) by (by vm_compute).
  destruct lost_session as [o w'] eqn:Hrun. cbn [fst] in Hobs.
  destruct o as [[rep|]|]; try contradiction. destruct Hobs as [Hnil Hone].
  destruct (no_manifest_without_retrieved_artifact _ _ _ _ _ _ _ _ _ _
              Hrun Hnil) as (_ & Hlatest & _).
  exists rep, w'. split; [reflexivity|]. split; [exact Hnil|].
  split; [exact Hone|]. exact Hlatest.
Defined.

Lemma two_by_three_session_witness :
  ∃ rep w',
    full_session = (Ret (Some rep), w')
    ∧ successful_count rep = 6
    ∧ fs w' !! session_file "shop" "20240101_000000"
      = fs w' !! latest_session_file "shop".
Proof.
  assert (Hobs : match full_session.1 with
                 | Ret (Some rep) =>
                     failed_videos rep = []
                     ∧ bool_decide
                         (Forall (λ r, is_Some (local_filename r))
                                 (successful_videos rep)) = true
                 | _ => False
                 end) by (by vm_compute).
  destruct full_session as [o w'] eqn:Hrun. cbn [fst] in Hobs.
  destruct o as [[rep|]|]; try contradiction.
  destruct Hobs as [Hfailed Hall%bool_decide_eq_true_1].
  destruct (two_by_three_session samples.env "shop" 3 (Some "bucket") false
              None (samples.image ["a"; "b"; "c"])
              (samples.image ["d"; "e"; "f"])
              (samples.described "a") (samples.described "b")
              (samples.described "c") (samples.described "d")
              (samples.described "e") (samples.described "f")
              samples.empty_world rep w' eq_refl eq_refl ltac:(lia)
              Hrun Hfailed Hall)
    as (Hcount & _ & Hsession & Hlatest & _).
  exists rep, w'. split; [reflexivity|]. split; [exact Hcount|].
  change "20240101_000000" with (session_id samples.env None).
  by rewrite Hsession, Hlatest.
Defined.

(** The job "boom": the first status read raises. *)
Lemma exceptions_become_failed_results_witness :
  ∃ m, generate_video_async samples.client "boom" "bucket" "luma-videos/s"
         1 None None "job" samples.empty_world
       = (Ret (exception_result "boom" 1 None "ReadTimeout"),
          after_job 1 samples.empty_world m).
Proof.
  destruct (exceptions_become_failed_results samples.client "boom" "bucket"
              "luma-videos/s" 1 None None "job" samples.empty_world)
    as (_ & _ & Hremote & _).
  destruct (Hremote "ReadTimeout") as (m & _ & Hrun).
  - apply (poll_raises samples.client "boom" "bucket" "luma-videos/s" None
             "job" {| invocationArn := Some "boom" |} "boom" 0);
      [reflexivity|reflexivity|unfold max_attempts; lia| |reflexivity].
    intros i Hi. lia.
  - exists m. exact Hrun.
Defined.

(** The job "slow": sixty pending answers, ten minutes on the clock. *)
Lemma polling_is_bounded_witness :
  generate_video_async samples.client "slow" "bucket" "luma-videos/s"
    1 None None "job" samples.empty_world
  = (Ret (timed_out_result "slow" 1 None),
     after_job 1 samples.empty_world max_attempts)
  ∧ clock (after_job 1 samples.empty_world max_attempts) = 600.
Proof.
  destruct (polling_is_bounded samples.client "slow" "bucket"
              "luma-videos/s" 1 None None "job" samples.empty_world)
    as (_ & Hbudget & _).
  split; [|reflexivity].
  apply (Hbudget {| invocationArn := Some "slow" |} "slow");
    [reflexivity|reflexivity|].
  intros i Hi. exists (samples.answer "slow" "InProgress"). by split.
Defined.
End witnesses.

Section merge_witnesses.
Import text merge_videos.

Local Abbreviation five_seconds :=
  (merge_samples.tools_probing (Some (5 # 1))).

Lemma transition_filter_graph_witness :
  ∃ entries,
    filter_complex five_seconds ["a.mp4"; "b.mp4"; "c.mp4"] (1 # 2)
    = Ret (Some entries)
    ∧ length entries = 4.
Proof.
  destruct (transition_filter_graph five_seconds (1 # 2) "a.mp4"
              ["b.mp4"; "c.mp4"]
              {| width := 1280; height := 720; duration := 5 # 1 |}
              eq_refl)
    as (entries & Hfc & Hlen & _).
  exists entries. split; [exact Hfc|exact Hlen].
Defined.

Lemma fade_out_start_witness :
  ∃ entries filters,
    filter_complex five_seconds ["a.mp4"; "b.mp4"] (1 # 2)
    = Ret (Some entries)
    ∧ entries !! 0 = Some (chain 0 filters 0)
    ∧ ∀ st d, fade fade_out st d ∈ filters
              ↔ st = ((5 # 1) - (1 # 2))%Q ∧ d = 1 # 2.
Proof.
  eexists. 
  destruct (fade_out_start five_seconds (1 # 2) "a.mp4" ["b.mp4"] _ 0
              "a.mp4" eq_refl eq_refl ltac:(simpl; lia))
    as (filters & Hentry & Hout & _).
  exists filters. split; [reflexivity|]. split; [exact Hentry|exact Hout].
Defined.

Lemma segments_resolved_by_priority_witness :
  ∃ code w',
    main (merge_samples.tools_probing None)
         (resolution_samples.arguments_for false None)
         {| fs := resolution_samples.directory; clock := 0; trace := [] |}
    = (Ret code, w')
    ∧ (merged_segments (trace w')
       = [["ads/video_20240101_000000_01_01_hero_shot.mp4"]]
       ∨ code = 1%Z ∧ merged_segments (trace w') = []).
Proof.
  destruct (segments_resolved_by_priority (merge_samples.tools_probing None)
              (resolution_samples.arguments_for false None)
              {| fs := resolution_samples.directory; clock := 0;
                 trace := [] |} eq_refl)
    as (code & w' & Hrun & Hmerged & _).
  exists code, w'. split; [exact Hrun|].
  assert (Hchosen : (chosen (resolution_samples.arguments_for false None)
                            resolution_samples.directory).2
                    = ["ads/video_20240101_000000_01_01_hero_shot.mp4"])
    by (by vm_compute).
  cbn [fs trace] in Hmerged. rewrite Hchosen in Hmerged. exact Hmerged.
Defined.
End merge_witnesses.

(** * Further properties *)

(** ** The job tracker: the answer that ends the polling *)

Section terminal_status.
Import text ads_generation.

Variable client : bedrock_client.
Variables (prompt_text s3_bucket s3_prefix : string).
Variable k : nat.
Variable keyframe_image : option string.
Variable image_filename : option string.
Variable uuid : string.

Local Abbreviation generate_video_async :=
  (generate_video_async client prompt_text s3_bucket s3_prefix k
                        keyframe_image image_filename uuid).
Local Abbreviation start_call :=
  (start_async_invoke client "luma.ray-v2:0"
     (build_model_input prompt_text keyframe_image)
     (s3_output_uri s3_bucket s3_prefix uuid)).
Local Abbreviation completed :=
  (completed_result prompt_text k image_filename uuid).
Local Abbreviation failed := (failed_result prompt_text k image_filename).
Local Abbreviation from_exception :=
  (exception_result prompt_text k image_filename).

(** [status_response['outputDataConfig']['s3OutputDataConfig']['s3Uri']],
    when all three keys are there. *)
Definition output_location (sr : status_response) : option string :=
  match outputDataConfig sr with
  | Some odc =>
      match s3OutputDataConfig odc with
      | Some s3c => s3Uri s3c
      | None => None
      end
  | None => None
  end.

(** The submission went through and the job is called [arn]. *)
Definition submitted (arn : string) : Prop :=
  ∃ response, start_call = Ret response ∧ invocationArn response = Some arn.

Lemma after_job_poll w j : after_polls k (after_job k w j) 1 = after_job k w (S j).
Proof.
  unfold after_polls, after_job, job_events, poll_events; simpl.
  f_equal; [lia|].
  rewrite <- !app_assoc. simpl. do 2 f_equal.
  change [EvSleep poll_delay; EvPoll k]
    with (concat (replicate 1 [EvSleep poll_delay; EvPoll k])).
  rewrite <- concat_app, <- replicate_add.
  by rewrite Nat.add_1_r.
Qed.

Lemma after_job_polls w j : after_polls k (after_job k w 0) j = after_job k w j.
Proof.
  unfold after_polls, after_job, job_events, poll_events; simpl.
  f_equal; [lia|]. by rewrite <- !app_assoc.
Qed.

(** The call, once [j] pending answers have gone by: the [j]-th read
    decides. *)
Lemma polled_until arn j w :
  submitted arn →
  j < max_attempts →
  pending_until client arn 0 j →
  generate_video_async w =
  match get_async_invoke client arn j with
  | Raise e => (Ret (from_exception e), after_job k w (S j))
  | Ret sr =>
      match status sr with
      | None => (Ret (from_exception "'status'"), after_job k w (S j))
      | Some s =>
          if String.eqb s "Completed" then
            match outputDataConfig sr with
            | None => (Ret (from_exception "'outputDataConfig'"),
                       after_job k w (S j))
            | Some odc =>
                match s3OutputDataConfig odc with
                | None => (Ret (from_exception "'s3OutputDataConfig'"),
                           after_job k w (S j))
                | Some s3c =>
                    match s3Uri s3c with
                    | None => (Ret (from_exception "'s3Uri'"),
                               after_job k w (S j))
                    | Some loc =>
                        (Ret (completed loc (poll_delay * S j)),
                         after_job k w (S j))
                    end
                end
            end
          else if String.eqb s "Failed" then
            (Ret (failed sr), after_job k w (S j))
          else
            generate_video_async w
      end
  end.
Proof.
  intros (response & Hs & Harn) Hj Hp.
  destruct (get_async_invoke client arn j) as [sr|e] eqn:Hread.
  2:{ destruct (remote_exception_caught client prompt_text s3_bucket
                  s3_prefix k keyframe_image image_filename uuid e w)
        as (m & _ & Hrun); [by eapply poll_raises|].
      rewrite generate_video_async_unfold, submit_and_poll_unfold, Hs, Harn.
      replace max_attempts with (j + S (max_attempts - S j)) by lia.
      rewrite (poll_loop_pending _ _ _ _ _ _ _ _ _ _ _ Hp), poll_loop_step.
      simpl. by rewrite Hread, after_job_polls, after_job_poll. }
  destruct (status sr) as [s|] eqn:Hstatus.
  2:{ rewrite generate_video_async_unfold, submit_and_poll_unfold, Hs, Harn.
      replace max_attempts with (j + S (max_attempts - S j)) by lia.
      rewrite (poll_loop_pending _ _ _ _ _ _ _ _ _ _ _ Hp), poll_loop_step.
      simpl. by rewrite Hread, Hstatus, after_job_polls, after_job_poll. }
  destruct (String.eqb s "Completed") eqn:Hc;
    [|destruct (String.eqb s "Failed") eqn:Hf; [|done]];
    rewrite generate_video_async_unfold, submit_and_poll_unfold, Hs, Harn;
    replace max_attempts with (j + S (max_attempts - S j)) by lia;
    rewrite (poll_loop_pending _ _ _ _ _ _ _ _ _ _ _ Hp), poll_loop_step;
    simpl; rewrite Hread, Hstatus, Hc, ?Hf, after_job_polls, after_job_poll.
  - destruct (outputDataConfig sr) as [odc|]; [|done].
    destruct (s3OutputDataConfig odc) as [s3c|]; [|done].
    destruct (s3Uri s3c) as [loc|]; [|done].
    do 3 f_equal. unfold poll_delay. lia.
  - done.
Qed.

(** X1. The first status read that answers [Completed] or [Failed] ends
    the polling: after [j] pending answers, a [Failed] answer at read [j]
    gives the failed result, whose error is "Generation failed: " followed
    by the failure reason (or "No failureReason provided"); a [Completed]
    answer that carries an output location gives the successful result
    with that location and the job identifier. In both cases the service
    was read [j + 1] times, and the recorded generation time is the
    [poll_delay * (j + 1)] seconds slept. *)
Theorem first_terminal_status_decides arn j sr w :
  submitted arn →
  j < max_attempts →
  pending_until client arn 0 j →
  get_async_invoke client arn j = Ret sr →
  (status sr = Some "Failed" →
     generate_video_async w = (Ret (failed sr), after_job k w (S j))
     ∧ success (failed sr) = false
     ∧ error (failed sr)
       = Some ("Generation failed: "
               +:+ default "No failureReason provided" (failureReason sr)))
  ∧ (∀ loc, status sr = Some "Completed" → output_location sr = Some loc →
       generate_video_async w
       = (Ret (completed loc (poll_delay * S j)), after_job k w (S j))
       ∧ success (completed loc (poll_delay * S j)) = true
       ∧ s3_location (completed loc (poll_delay * S j)) = Some loc
       ∧ job_id (completed loc (poll_delay * S j)) = Some uuid
       ∧ generation_time (completed loc (poll_delay * S j))
         = Some (clock (after_job k w (S j)) - clock w)).
Proof.
  intros Hsub Hj Hp Hread.
  pose proof (polled_until arn j w Hsub Hj Hp) as Hrun.
  rewrite Hread in Hrun. split.
  - intros Hstatus. by rewrite Hstatus in Hrun.
  - intros loc Hstatus Hloc. rewrite Hstatus in Hrun. simpl in Hrun.
    unfold output_location in Hloc.
    destruct (outputDataConfig sr) as [odc|]; [|done].
    destruct (s3OutputDataConfig odc) as [s3c|]; [|done].
    rewrite Hloc in Hrun. split_and!; try done.
    simpl. f_equal. lia.
Qed.

(** X2. An answer of the service that lacks a key the code reads is
    reported as a failure of the job, with the text of the [KeyError]:
    a submission answer without [invocationArn] before any status read; a
    status answer without [status], or a [Completed] one without its
    output location, at the read where it arrives. *)
Theorem malformed_answers_become_failures w :
  (∀ response,
     start_call = Ret response → invocationArn response = None →
     generate_video_async w
     = (Ret (from_exception "'invocationArn'"), after_job k w 0))
  ∧ (∀ arn j sr,
       submitted arn → j < max_attempts → pending_until client arn 0 j →
       get_async_invoke client arn j = Ret sr →
       (status sr = None →
          generate_video_async w
          = (Ret (from_exception "'status'"), after_job k w (S j)))
       ∧ (status sr = Some "Completed" → output_location sr = None →
          ∃ key, key ∈ ["outputDataConfig"; "s3OutputDataConfig"; "s3Uri"]
            ∧ generate_video_async w
              = (Ret (from_exception ("'" +:+ key +:+ "'")),
                 after_job k w (S j))))
  ∧ (∀ key, error (from_exception ("'" +:+ key +:+ "'"))
            = Some ("Error generating video: '" +:+ key +:+ "'")).
Proof.
  split_and!.
  - intros response Hs Harn.
    by rewrite generate_video_async_unfold, submit_and_poll_unfold, Hs, Harn.
  - intros arn j sr Hsub Hj Hp Hread.
    pose proof (polled_until arn j w Hsub Hj Hp) as Hrun.
    rewrite Hread in Hrun. split.
    + intros Hstatus. by rewrite Hstatus in Hrun.
    + intros Hstatus Hloc. rewrite Hstatus in Hrun. simpl in Hrun.
      unfold output_location in Hloc.
      destruct (outputDataConfig sr) as [odc|];
        [|exists "outputDataConfig"; split; [set_solver|done]].
      destruct (s3OutputDataConfig odc) as [s3c|];
        [|exists "s3OutputDataConfig"; split; [set_solver|done]].
      rewrite Hloc in Hrun.
      exists "s3Uri"; split; [set_solver|done].
  - done.
Qed.
End terminal_status.

(** ** Retrieval: the location and the object that is fetched *)

Section retrieval_more.
Import text ads_generation.

(** Lines 200-209 of [download_video_from_s3]: the bucket and the prefix
    read off the location. *)
Definition parse_s3_uri (s3_location : string) : option (string * string) :=
  let s3_uri := rstrip_slash s3_location in
  let s3_uri :=
    if startswith "s3://" s3_uri then drop_chars 5 s3_uri else s3_uri in
  split_once "/" s3_uri.

Lemma find_first {A} (f : A → bool) (l : list A) x :
  List.find f l = Some x
  ↔ ∃ before after,
      l = before ++ x :: after
      ∧ Forall (λ y, f y = false) before ∧ f x = true.
Proof.
  split.
  - induction l as [|y l IH]; simpl; [done|].
    destruct (f y) eqn:Hy.
    + intros [= ->]. by exists [], l.
    + intros (before & after & -> & Hb & Hx)%IH.
      exists (y :: before), after. split_and!; [done| |done].
      by constructor.
  - intros (before & after & -> & Hb & Hx).
    induction Hb as [|y before Hy _ IH]; simpl; [by rewrite Hx|].
    by rewrite Hy.
Qed.

(** X3. [download_video_from_s3] never raises. It returns [True] exactly
    when the location splits into a bucket and a prefix, the listing of
    that prefix answers with [Contents], and the download of the first
    listed key that ends in [.mp4] goes through; the local file is then
    written. In every other case, also when a later key could have been
    fetched, it returns [False] and changes nothing. *)
Theorem download_fetches_first_mp4 s3c location path w :
  ∃ ok : bool,
    download_video_from_s3 s3c location path w
    = (Ret ok, if ok then downloaded w path else w)
    ∧ (ok = true ↔
       ∃ bucket prefix response before obj after,
         parse_s3_uri location = Some (bucket, prefix)
         ∧ list_objects_v2 s3c bucket prefix = Ret response
         ∧ Contents response = Some (before ++ obj :: after)
         ∧ Forall (λ o, endswith ".mp4" (Key o) = false) before
         ∧ endswith ".mp4" (Key obj) = true
         ∧ download_file s3c bucket (Key obj) path = Ret tt).
Proof.
  unfold download_video_from_s3, try_except.
  change (split_once "/" _) with (parse_s3_uri location).
  destruct (parse_s3_uri location) as [[bucket prefix]|];
    [|exists false; split; [done|]; split; [done|];
      by intros (? & ? & ? & ? & ? & ? & [=] & _)].
  unfold bind, lift, ret.
  destruct (list_objects_v2 s3c bucket prefix) as [response|e] eqn:Hlist;
    [|exists false; split; [done|]; split; [done|];
      by intros (? & ? & ? & ? & ? & ? & [= <- <-] & ? & _); congruence].
  destruct (Contents response) as [objs|] eqn:Hobjs;
    [|exists false; split; [done|]; split; [done|];
      by intros (? & ? & ? & ? & ? & ? & [= <- <-] & ? & ? & _); congruence].
  destruct (List.find is_mp4 objs) as [obj|] eqn:Hfind.
  - apply find_first in Hfind as (before & after & -> & Hb & Hx).
    destruct (download_file s3c bucket (Key obj) path) as [[]|e] eqn:Hdl.
    + exists true. split; [done|]. split; [|done]. intros _.
      by exists bucket, prefix, response, before, obj, after.
    + exists false. split; [done|]. split; [done|].
      intros (b & p & r & before' & obj' & after' & [= <- <-] & Hl & Hc
              & Hb' & Hx' & Hdl').
      rewrite Hlist in Hl. injection Hl as <-.
      rewrite Hobjs in Hc. injection Hc as Hc.
      assert (List.find is_mp4 (before ++ obj :: after) = Some obj) as H1
        by (apply find_first; eauto 6).
      assert (List.find is_mp4 (before' ++ obj' :: after') = Some obj') as H2
        by (apply find_first; eauto 6).
      rewrite Hc, H2 in H1. injection H1 as ->. congruence.
  - exists false. split; [done|]. split; [done|].
    intros (b & p & r & before' & obj' & after' & [= <- <-] & Hl & Hc
            & Hb' & Hx' & _).
    rewrite Hlist in Hl. injection Hl as <-.
    rewrite Hobjs in Hc. injection Hc as ->.
    assert (List.find is_mp4 (before' ++ obj' :: after') = Some obj') as H2
      by (apply find_first; eauto 6).
    congruence.
Qed.

Lemma rstrip_slash_snoc s : rstrip_slash (s +:+ "/") = rstrip_slash s.
Proof.
  induction s as [|c s IH]; [done|].
  change (String c s +:+ "/") with (String c (s +:+ "/")).
  simpl. by rewrite IH.
Qed.

Lemma rstrip_slash_plain s :
  contains_char "/" s = false → rstrip_slash s = s.
Proof.
  induction s as [|c s IH]; simpl; [done|].
  intros [Hc Hs]%orb_false_iff. rewrite IH by done.
  destruct s; [by rewrite Hc|done].
Qed.

Lemma rstrip_slash_app s t t' :
  rstrip_slash t = t' → t' ≠ "" → rstrip_slash (s +:+ t) = s +:+ t'.
Proof.
  intros Ht Hne. induction s as [|c s IH]; [done|].
  change (String c s +:+ t) with (String c (s +:+ t)).
  change (String c s +:+ t') with (String c (s +:+ t')).
  simpl. rewrite IH. destruct s; simpl; [by destruct t'|done].
Qed.

Lemma split_once_first sep s rest :
  contains_char sep s = false →
  split_once sep (s +:+ String sep rest) = Some (s, rest).
Proof.
  induction s as [|c s IH]; simpl.
  - intros _. change ("" +:+ String sep rest) with (String sep rest).
    simpl. by rewrite Ascii.eqb_refl.
  - intros [Hc Hs]%orb_false_iff.
    change (String c s +:+ String sep rest)
      with (String c (s +:+ String sep rest)).
    simpl. by rewrite Hc, IH.
Qed.

Lemma app_not_empty s t : t ≠ "" → s +:+ t ≠ "".
Proof. by destruct s, t. Qed.

(** The location [generate_video_async] asks the service to write to,
    read back. *)
Lemma parse_s3_output_uri bucket prefix job :
  contains_char "/" bucket = false →
  contains_char "/" job = false →
  job ≠ "" →
  parse_s3_uri (s3_output_uri bucket prefix job)
  = Some (bucket, prefix +:+ "/" +:+ job).
Proof.
  intros Hb Hj Hne. unfold parse_s3_uri, s3_output_uri.
  assert (Hjob : rstrip_slash (job +:+ "/") = job)
    by (by rewrite rstrip_slash_snoc, rstrip_slash_plain).
  rewrite (rstrip_slash_app "s3://" _
             (bucket +:+ "/" +:+ prefix +:+ "/" +:+ job)).
  - change ("s3://" +:+ ?r)
      with (String "s" (String "3" (String ":" (String "/" (String "/" r))))).
    unfold startswith. simpl.
    assert (Hempty : ∀ s, String.prefix "" s = true) by (by intros []).
    rewrite Hempty. change ("/" +:+ ?r) with (String "/" r).
    by apply split_once_first.
  - rewrite (rstrip_slash_app bucket _ ("/" +:+ prefix +:+ "/" +:+ job));
      [done| |by repeat apply app_not_empty].
    rewrite (rstrip_slash_app "/" _ (prefix +:+ "/" +:+ job));
      [done| |by repeat apply app_not_empty].
    rewrite (rstrip_slash_app prefix _ ("/" +:+ job));
      [done| |by repeat apply app_not_empty].
    by rewrite (rstrip_slash_app "/" _ job).
  - by repeat apply app_not_empty.
Qed.

(** X4. The output location minted for a job,
    [s3://<bucket>/<prefix>/<job id>/], is read back by the retrieval as
    the same bucket and the prefix [<prefix>/<job id>], when the bucket
    name and the job identifier contain no [/] and the identifier is not
    empty; a store that lists one [.mp4] key under that prefix and serves
    it makes the retrieval of that location succeed. *)
Theorem minted_location_is_retrieved bucket prefix job :
  contains_char "/" bucket = false →
  contains_char "/" job = false →
  job ≠ "" →
  parse_s3_uri (s3_output_uri bucket prefix job)
  = Some (bucket, prefix +:+ "/" +:+ job)
  ∧ ∀ s3c key path w,
      list_objects_v2 s3c bucket (prefix +:+ "/" +:+ job)
      = Ret {| Contents := Some [{| Key := key |}] |} →
      endswith ".mp4" key = true →
      download_file s3c bucket key path = Ret tt →
      download_video_from_s3 s3c (s3_output_uri bucket prefix job) path w
      = (Ret true, downloaded w path).
Proof.
  intros Hb Hj Hne.
  pose proof (parse_s3_output_uri bucket prefix job Hb Hj Hne) as Hparse.
  split; [done|]. intros s3c key path w Hlist Hkey Hdl.
  unfold download_video_from_s3, try_except.
  change (split_once "/" _) with (parse_s3_uri (s3_output_uri bucket prefix job)).
  rewrite Hparse. unfold bind, lift. rewrite Hlist. simpl.
  unfold is_mp4. simpl. rewrite Hkey. simpl. rewrite Hdl. done.
Qed.
End retrieval_more.

(** ** The session: counts, order and files *)

Section session_more.
Import text ads_generation.

Variable env : environment.
Variable folder_path : string.
Variable per_image_analyses : list image_analysis.
Variable num_videos_per_image : Z.
Variable s3_bucket : option string.
Variable use_images : bool.
Variable session_timestamp : option string.

Local Abbreviation generate_ads :=
  (generate_ads env folder_path per_image_analyses num_videos_per_image
                s3_bucket use_images session_timestamp).
Local Abbreviation ts := (session_id env session_timestamp).
Local Abbreviation pairs :=
  (pairs_of num_videos_per_image 1 per_image_analyses).
Local Abbreviation report_file := (report_file folder_path ts).
Local Abbreviation session_file := (session_file folder_path ts).
Local Abbreviation latest_session_file := (latest_session_file folder_path).

(** The number of jobs run for an image: the length of
    [video_prompts[:num_videos_per_image]]. *)
Definition jobs_of (a : image_analysis) : nat :=
  let n := length (default [] (ia_video_prompts a)) in
  if (0 <=? num_videos_per_image)%Z then n `min` Z.to_nat num_videos_per_image
  else n - Z.to_nat (- num_videos_per_image).

Lemma slice_to_length {A} n (l : list A) :
  length (slice_to n l)
  = if (0 <=? n)%Z then length l `min` Z.to_nat n
    else length l - Z.to_nat (- n).
Proof.
  unfold slice_to. destruct (0 <=? n)%Z; rewrite length_take; lia.
Qed.

Lemma pairs_of_prompts_length i : ∀ l p,
  length (pairs_of_prompts i p l) = length l.
Proof. induction l as [|d l IH]; intros p; simpl; [done|]. by rewrite IH. Qed.

Lemma pairs_of_length : ∀ l i,
  length (pairs_of num_videos_per_image i l) = sum_list (jobs_of <$> l).
Proof.
  induction l as [|a l IH]; intros i; simpl; [done|].
  rewrite length_app, pairs_of_prompts_length, slice_to_length, IH. done.
Qed.

(** X5. The number of jobs of a session is the sum, over the images, of
    the length of [video_prompts[:num_videos_per_image]]: for a count that
    is not negative at most that many per image, so at most
    [total_images_processed * num_videos_per_image] in all, and none for a
    count of 0; for a negative count, all prompts of the image but the
    last [- num_videos_per_image]. *)
Theorem jobs_per_image_are_capped w rep w' :
  generate_ads w = (Ret (Some rep), w') →
  total_attempted rep = sum_list (jobs_of <$> per_image_analyses)
  ∧ total_images_processed rep = length per_image_analyses
  ∧ ((0 ≤ num_videos_per_image)%Z →
     Forall (λ a, jobs_of a ≤ Z.to_nat num_videos_per_image)
            per_image_analyses
     ∧ total_attempted rep
       ≤ total_images_processed rep * Z.to_nat num_videos_per_image)
  ∧ (num_videos_per_image = 0%Z → total_attempted rep = 0)
  ∧ ((num_videos_per_image < 0)%Z →
     Forall (λ a, jobs_of a = length (default [] (ia_video_prompts a))
                              - Z.to_nat (- num_videos_per_image))
            per_image_analyses).
Proof.
  intros (bucket & outs & _ & Houts & -> & _)%generate_ads_inv.
  destruct (session_progress_results outs) as (Htot & _ & _).
  assert (Hcount : total_attempted
                     (session_report env num_videos_per_image bucket
                        use_images ts per_image_analyses outs)
                   = sum_list (jobs_of <$> per_image_analyses)).
  { unfold session_report, mk_report; simpl.
    by rewrite Htot, (outcomes_length _ _ _ _ _ Houts), pairs_of_length. }
  assert (Hcap : (0 ≤ num_videos_per_image)%Z →
            Forall (λ a, jobs_of a ≤ Z.to_nat num_videos_per_image)
                   per_image_analyses).
  { intros Hnum. apply Forall_forall. intros a _. unfold jobs_of.
    destruct (Z.leb_spec 0 num_videos_per_image); lia. }
  assert (Hsum : ∀ (l : list image_analysis) n,
            Forall (λ a, jobs_of a ≤ n) l →
            sum_list (jobs_of <$> l) ≤ length l * n).
  { intros l n. induction 1 as [|a l Ha _ IH]; [done|].
    rewrite fmap_cons. cbn [sum_list sum_list_with length].
    change (id (jobs_of a)) with (jobs_of a). lia. }
  rewrite Hcount. split_and!; [done|done| | |].
  - intros Hnum. split; [by apply Hcap|].
    unfold session_report, mk_report; simpl. by apply Hsum, Hcap.
  - intros Hzero.
    assert (sum_list (jobs_of <$> per_image_analyses)
            ≤ length per_image_analyses * Z.to_nat num_videos_per_image)
      by (apply Hsum, Hcap; lia).
    rewrite Hzero in *. simpl in *. lia.
  - intros Hneg. apply Forall_forall. intros a _. unfold jobs_of.
    destruct (Z.leb_spec 0 num_videos_per_image); [lia|done].
Qed.

(** The recorded results carry the ordinals of their pairs, and are
    numbered in the order of the loops. *)
Lemma outcomes_ordinals k0 ps outs :
  outcomes folder_path ts k0 ps outs →
  video_index <$> outs.*1 = seq (S k0) (length ps)
  ∧ (λ r, (image_index r, prompt_index r, prompt_type r)) <$> outs.*1
    = (λ '(i, p, d), (Some i, Some p, Some (prompt_fields d).2)) <$> ps
  ∧ Forall (λ r, timestamp r = Some ts) outs.*1.
Proof.
  induction 1 as [k1|k0 i p d ps r m outs Hm Hr _ (IH1 & IH2 & IH3)];
    [done|].
  destruct Hr as [Hv Hi Hp Ht _ Hts _ _].
  rewrite !fmap_cons. cbn [fst length seq].
  rewrite IH1, IH2, Hv, Hi, Hp, Ht. split_and!; [done..|].
  by constructor.
Qed.

(** X6. The two lists of the report are the results of the jobs in the
    order the loops ran them, split by their [success] flag: the jobs are
    numbered 1, 2, ... without gaps, and the k-th result carries the image
    ordinal, the prompt ordinal and the prompt type of the k-th (image,
    prompt) pair, image-major and prompt-minor, and the session id. *)
Theorem results_follow_the_loops w rep w' :
  generate_ads w = (Ret (Some rep), w') →
  ∃ results,
    successful_videos rep = List.filter success results
    ∧ failed_videos rep = List.filter (λ r, negb (success r)) results
    ∧ video_index <$> results = seq 1 (total_attempted rep)
    ∧ (λ r, (image_index r, prompt_index r, prompt_type r)) <$> results
      = (λ '(i, p, d), (Some i, Some p, Some (prompt_fields d).2)) <$> pairs
    ∧ Forall (λ r, timestamp r = Some ts) results.
Proof.
  intros (bucket & outs & _ & Houts & -> & _)%generate_ads_inv.
  destruct (session_progress_results outs) as (Htot & Hsucc & Hfail).
  destruct (outcomes_ordinals _ _ _ Houts) as (Hidx & Hord & Hts).
  exists outs.*1. unfold session_report, mk_report; simpl.
  rewrite Htot, Hsucc, Hfail, (outcomes_length _ _ _ _ _ Houts).
  done.
Qed.

(** A file that holds a video keeps holding one. *)
Lemma after_pairs_keeps_video outs : ∀ w p,
  fs w !! p = Some FVideo → fs (foldl after_pair w outs) !! p = Some FVideo.
Proof.
  induction outs as [|[r m] outs IH]; intros w p Hp; [done|].
  simpl. apply IH. unfold after_pair, retrieval_fs; simpl.
  destruct (local_filename r) as [q|]; [|done].
  destruct (decide (q = p)) as [->|Hne];
    [apply lookup_insert_eq | by rewrite lookup_insert_ne].
Qed.

(** What a retrieved artifact leaves behind. *)
Lemma outcomes_retrieved k0 ps outs :
  outcomes folder_path ts k0 ps outs →
  ∀ r m p, (r, m) ∈ outs → local_filename r = Some p →
    (∃ i pi d, (i, pi, d) ∈ ps
       ∧ image_index r = Some i ∧ prompt_index r = Some pi
       ∧ p = local_path_of folder_path ts i pi d)
    ∧ EvWrite p ∈ pairs_trace outs
    ∧ ∀ w, fs (foldl after_pair w outs) !! p = Some FVideo.
Proof.
  induction 1 as [k1|k0 i pi d ps r1 m1 outs Hm Hr _ IH]; intros r m p Hin Hp.
  - by apply elem_of_nil in Hin.
  - rewrite pairs_trace_cons.
    apply elem_of_cons in Hin as [[= -> ->]|Hin].
    + destruct (po_local_filename _ _ _ _ _ _ _ Hr) as [Hn|[Hs Hl]];
        [congruence|].
      assert (p = local_path_of folder_path ts i pi d) as -> by congruence.
      split_and!.
      * exists i, pi, d. split_and!; [by left|by destruct Hr..|done].
      * apply elem_of_app. left. unfold pair_trace, retrieval_events.
        cbn [fst snd]. rewrite Hs, Hl. apply elem_of_app. right.
        apply list_elem_of_further, list_elem_of_here.
      * intros w. simpl. apply after_pairs_keeps_video.
        unfold after_pair, retrieval_fs; simpl. rewrite Hl.
        apply lookup_insert_eq.
    + destruct (IH _ _ _ Hin Hp) as ((i' & pi' & d' & Hi' & ?) & Htr & Hfs).
      split_and!.
      * exists i', pi', d'. split; [by right|done].
      * apply elem_of_app. by right.
      * intros w. apply Hfs.
Qed.

(** The files of the directory a session leaves as its jobs left them. *)
Lemma after_session_frame bucket outs w q :
  q ≠ report_file → q ≠ session_file → q ≠ latest_session_file →
  fs (after_session env folder_path num_videos_per_image bucket use_images
                    ts per_image_analyses outs w) !! q
  = fs (foldl after_pair w outs) !! q.
Proof.
  intros Hr Hs Hl. unfold after_session, publish, written.
  destruct (session_videos_of _); simpl;
    by rewrite ?lookup_insert_ne by done.
Qed.

Lemma video_path_not_session_file q :
  is_video_path folder_path q →
  q ≠ report_file ∧ q ≠ session_file ∧ q ≠ latest_session_file.
Proof.
  intros Hq. split_and!; intros ->.
  - by apply report_file_not_video in Hq.
  - by apply session_file_not_video in Hq.
  - by apply latest_session_file_not_video in Hq.
Qed.

(** Where a recorded [local_filename] points. *)
Lemma retrieved_files_are_on_disk_aux w rep w' :
  generate_ads w = (Ret (Some rep), w') →
  ∀ r p, r ∈ successful_videos rep → local_filename r = Some p →
    fs w' !! p = Some FVideo
    ∧ ∃ i pi d, (i, pi, d) ∈ pairs
        ∧ p = local_path_of folder_path ts i pi d.
Proof.
  intros (bucket & outs & _ & Houts & -> & ->)%generate_ads_inv r p Hr Hp.
  destruct (session_progress_results outs) as (_ & Hsucc & _).
  unfold session_report, mk_report in Hr; simpl in Hr. rewrite Hsucc in Hr.
  apply list_elem_of_In, filter_In in Hr as [Hr _].
  apply list_elem_of_In, list_elem_of_fmap in Hr as ([r' m] & -> & Hin).
  cbn [fst] in *.
  destruct (outcomes_retrieved _ _ _ Houts _ _ _ Hin Hp)
    as ((i & pi & d & Hpair & _ & _ & ->) & _ & Hfs).
  destruct (video_path_not_session_file _
              (local_path_is_video_path folder_path ts i pi d))
    as (H1 & H2 & H3).
  split; [by rewrite after_session_frame|by exists i, pi, d].
Qed.

(** X7. Every [local_filename] recorded in [successful_videos] names a
    file that exists after the session and holds a video written during
    the session, at the path derived from the session id, the ordinals and
    the prompt type of the result's pair. *)
Theorem retrieved_files_are_on_disk w rep w' :
  generate_ads w = (Ret (Some rep), w') →
  ∀ r p, r ∈ successful_videos rep → local_filename r = Some p →
    fs w' !! p = Some FVideo
    ∧ (∃ added, trace w' = trace w ++ added ∧ EvWrite p ∈ added)
    ∧ ∃ i pi d, (i, pi, d) ∈ pairs
        ∧ image_index r = Some i ∧ prompt_index r = Some pi
        ∧ p = local_path_of folder_path ts i pi d.
Proof.
  intros (bucket & outs & _ & Houts & -> & ->)%generate_ads_inv r p Hr Hp.
  destruct (session_progress_results outs) as (_ & Hsucc & _).
  unfold session_report, mk_report in Hr; simpl in Hr. rewrite Hsucc in Hr.
  apply list_elem_of_In, filter_In in Hr as [Hr _].
  apply list_elem_of_In, list_elem_of_fmap in Hr as ([r' m] & -> & Hin).
  cbn [fst] in *.
  destruct (outcomes_retrieved _ _ _ Houts _ _ _ Hin Hp)
    as ((i & pi & d & Hpair & Hi & Hpi & ->) & Htr & Hfs).
  destruct (video_path_not_session_file _
              (local_path_is_video_path folder_path ts i pi d))
    as (H1 & H2 & H3).
  split_and!.
  - by rewrite after_session_frame.
  - unfold after_session, publish, written.
    destruct (session_videos_of _); simpl; rewrite after_pairs_trace,
      <- ?app_assoc; eexists; (split; [reflexivity|]);
      apply elem_of_app; by left.
  - by exists i, pi, d.
Qed.


Lemma report_file_inj a b :
  ads_generation.report_file folder_path a
  = ads_generation.report_file folder_path b → a = b.
Proof.
  intros H. apply path_join_inj in H. unfold report_name in H.
  apply (inj (String.app "generation_report_")) in H.
  by apply string_app_inj_r in H.
Qed.

Lemma session_file_inj a b :
  ads_generation.session_file folder_path a
  = ads_generation.session_file folder_path b → a = b.
Proof.
  intros H. apply path_join_inj in H. unfold session_file_name in H.
  apply (inj (String.app "session_videos_")) in H.
  by apply string_app_inj_r in H.
Qed.

(** The events of the jobs: no removal, no merge. *)
Definition job_event (e : event) : Prop :=
  match e with
  | EvRemove _ | EvMerge _ _ => False
  | _ => True
  end.

Lemma pairs_trace_job_events outs e : e ∈ pairs_trace outs → job_event e.
Proof.
  induction outs as [|[r m] outs IH]; [by intros ?%elem_of_nil|].
  rewrite pairs_trace_cons. intros [He|He]%elem_of_app; [|by apply IH].
  unfold pair_trace, job_events, poll_events, retrieval_events in He.
  cbn [fst snd] in He.
  apply elem_of_app in He as [He|He].
  - apply elem_of_cons in He as [->|He]; [done|].
    induction m as [|m IHm]; simpl in He; [by apply elem_of_nil in He|].
    apply elem_of_cons in He as [->|He]; [done|].
    apply elem_of_cons in He as [->|He]; [done|]. auto.
  - destruct (success r); [|by apply elem_of_nil in He].
    apply elem_of_cons in He as [->|He]; [done|].
    destruct (local_filename r); [|by apply elem_of_nil in He].
    by apply list_elem_of_singleton in He as ->.
Qed.


(** *** From the session to the merge *)

(** The file names the session derives for its pairs contain no path
    separator. *)
Definition plain_names : Prop :=
  Forall (λ '(i, p, d),
            contains_char "/"
              (local_filename_of ts i p (prompt_fields d).2) = false)
         pairs.

Lemma truthy_Some t : t ≠ "" → truthy (Some t) = Some t.
Proof. by destruct t. Qed.

(** A session-only merge whose session id has a manifest with existing
    files takes those files. *)
Lemma resolve_by_manifest fs0 dir use_timestamp t v vs :
  match truthy use_timestamp with
  | Some _ => use_timestamp
  | None => merge_videos.get_latest_session_timestamp fs0 dir
  end = Some t →
  t ≠ "" →
  merge_videos.manifest_videos fs0 dir t = v :: vs →
  merge_videos.resolve fs0 dir true use_timestamp
  = {| merge_videos.video_files := merge_videos.sorted (v :: vs);
       merge_videos.session_timestamp := Some t;
       merge_videos.session_only := true;
       merge_videos.used := merge_videos.by_manifest |}.
Proof.
  intros Hts Hne Hm. unfold merge_videos.resolve.
  rewrite Hts, (truthy_Some t Hne), Hm. done.
Qed.

Lemma session_videos_of_names rs :
  session_videos_of rs = path_name <$> omap local_filename rs.
Proof.
  unfold session_videos_of. induction rs as [|r rs IH]; [done|].
  simpl. destruct (local_filename r); simpl; [f_equal|]; exact IH.
Qed.

(** The names of the manifest, joined to the directory, are the recorded
    paths when those are entries of the directory that exist. *)
Lemma listed_exist fs0 dir rs :
  (∀ r p, r ∈ rs → local_filename r = Some p →
     path_join dir (path_name p) = p ∧ fs0 !! p = Some FVideo) →
  List.filter (merge_videos.exists_in fs0)
              (path_join dir <$> session_videos_of rs)
  = omap local_filename rs.
Proof.
  rewrite session_videos_of_names.
  induction rs as [|r rs IH]; intros H; [done|].
  simpl. destruct (local_filename r) as [p|] eqn:Hp.
  - destruct (H r p) as [Hjoin Hfs]; [by left|done|].
    rewrite fmap_cons, fmap_cons. simpl. rewrite Hjoin.
    unfold merge_videos.exists_in at 1. rewrite Hfs.
    rewrite bool_decide_eq_true_2 by done.
    f_equal. apply IH. intros r' p' Hr'. apply H. by right.
  - apply IH. intros r' p' Hr'. apply H. by right.
Qed.

(** What a session-only merge makes of the folder of a session. *)
Lemma session_resolution w rep w' use_timestamp :
  generate_ads w = (Ret (Some rep), w') →
  plain_names →
  session_videos_of (successful_videos rep) ≠ [] →
  ts ≠ "" →
  use_timestamp = None ∨ use_timestamp = Some ts →
  merge_videos.get_latest_session_timestamp
    (fs w') (generated_folder folder_path) = Some ts
  ∧ merge_videos.resolve (fs w') (generated_folder folder_path) true
                         use_timestamp
    = {| merge_videos.video_files :=
           merge_videos.sorted
             (omap local_filename (successful_videos rep));
         merge_videos.session_timestamp := Some ts;
         merge_videos.session_only := true;
         merge_videos.used := merge_videos.by_manifest |}.
Proof.
  intros Hrun Hplain Hne Hts Huse.
  pose proof Hrun as (bucket & outs & _ & Houts & Hrep & Hw)%generate_ads_inv.
  assert (Hfiles : ∀ r p, r ∈ successful_videos rep →
            local_filename r = Some p →
            path_join (generated_folder folder_path) (path_name p) = p
            ∧ fs w' !! p = Some FVideo).
  { intros r p Hr Hp.
    destruct (retrieved_files_are_on_disk_aux w rep w' Hrun r p Hr Hp)
      as (Hfs & i & pi & d & Hpair & ->).
    split; [|done].
    unfold plain_names in Hplain. rewrite Forall_forall in Hplain.
    specialize (Hplain _ Hpair). simpl in Hplain.
    unfold local_path_of. by rewrite path_name_join. }
  subst rep w'.
  destruct (after_session_published env folder_path per_image_analyses
              num_videos_per_image use_images session_timestamp bucket
              outs w Hne) as (_ & Hlatest & Hsession).
  set (rep := session_report _ _ _ _ _ _ _) in *.
  set (w' := after_session _ _ _ _ _ _ _ _ _) in *.
  assert (Hread : merge_videos.get_latest_session_timestamp
                    (fs w') (generated_folder folder_path) = Some ts).
  { unfold merge_videos.get_latest_session_timestamp.
    unfold ads_generation.latest_session_file in Hlatest.
    by rewrite Hlatest. }
  assert (Hmanifest : merge_videos.manifest_videos
                        (fs w') (generated_folder folder_path) ts
                      = omap local_filename (successful_videos rep)).
  { unfold merge_videos.manifest_videos.
    unfold ads_generation.session_file in Hsession.
    rewrite Hsession. simpl. by apply listed_exist. }
  destruct (omap local_filename (successful_videos rep)) as [|v vs] eqn:Hv.
  { rewrite session_videos_of_names, Hv in Hne. done. }
  split; [done|].
  apply resolve_by_manifest; [|done|done].
  destruct Huse as [->| ->]; [done|]. by rewrite truthy_Some.
Qed.

(** X10. After a session that retrieved at least one artifact, a
    session-only merge of the session's output folder, asked without a
    session id or with the id of that session, reads the id back from the
    latest-session file and takes its segments from the manifest: they
    are the retrieved local files of [successful_videos], all of them, in
    path order. This needs the derived file names to contain no [/] and
    the session id not to be empty. *)
Theorem merge_finds_the_session w rep w' use_timestamp :
  generate_ads w = (Ret (Some rep), w') →
  plain_names →
  session_videos_of (successful_videos rep) ≠ [] →
  ts ≠ "" →
  use_timestamp = None ∨ use_timestamp = Some ts →
  let r := merge_videos.resolve (fs w') (generated_folder folder_path) true
                                use_timestamp in
  merge_videos.get_latest_session_timestamp
    (fs w') (generated_folder folder_path) = Some ts
  ∧ merge_videos.used r = merge_videos.by_manifest
  ∧ merge_videos.session_timestamp r = Some ts
  ∧ merge_videos.session_only r = true
  ∧ merge_videos.video_files r ≡ₚ omap local_filename (successful_videos rep)
  ∧ Sorted merge_videos.path_le (merge_videos.video_files r).
Proof.
  intros Hrun Hplain Hne Hts Huse r.
  destruct (session_resolution w rep w' use_timestamp Hrun Hplain Hne Hts
              Huse) as [Hread Hres].
  subst r. rewrite Hres. simpl. split_and!; try done.
  - apply sorted_Permutation.
  - apply sorted_Sorted.
Qed.
End session_more.

(** ** The media prober *)

Section prober_facts.
Import text merge_videos.

Variable probe : string → outcome completed_process.

(** What the prober reports for a stream. *)
Definition info_of (s : stream) (d : Q) : media_info :=
  {| width := default 0%Z (st_width s);
     height := default 0%Z (st_height s);
     duration := d |}.

(** A stream the loop passes over: it has a [codec_type], which is not
    [video]. *)
Definition passed_over (s : stream) : Prop :=
  ∃ c, codec_type s = Some c ∧ c ≠ "video".

Lemma first_video_stream_spec streams info :
  first_video_stream streams = Ret (Some info)
  ↔ ∃ before s after d,
      streams = before ++ s :: after
      ∧ Forall passed_over before
      ∧ codec_type s = Some "video"
      ∧ default (Ret 0%Q) (st_duration s) = Ret d
      ∧ info = info_of s d.
Proof.
  split.
  - induction streams as [|s streams IH]; simpl; [done|].
    destruct (codec_type s) as [c|] eqn:Hc; [|done].
    destruct (String.eqb_spec c "video") as [->|Hne].
    + destruct (default (Ret 0%Q) (st_duration s)) as [d|e] eqn:Hd; [|done].
      intros [= <-]. by exists [], s, streams, d.
    + intros (before & s' & after & d & -> & Hb & ?)%IH.
      exists (s :: before), s', after, d. split; [done|].
      split; [|done]. constructor; [by exists c|done].
  - intros (before & s & after & d & -> & Hb & Hc & Hd & ->).
    induction Hb as [|s' before (c & Hc' & Hne) _ IH]; simpl.
    + by rewrite Hc, Hd.
    + rewrite Hc'. by destruct (String.eqb_spec c "video").
Qed.

(** X11. [get_video_info] gives a result exactly when ffprobe exits with
    status 0, its output parses, and the stream list has a video stream
    before which every stream has a [codec_type] and whose duration, if
    reported, is a number: the result is then read off that first video
    stream, with 0 for a width, a height or a duration that is not
    reported. In every other case it gives [None], and it never raises. *)
Theorem probe_reads_first_video_stream video_path info :
  get_video_info probe video_path = Some info
  ↔ ∃ result streams before s after d,
      probe video_path = Ret result
      ∧ returncode result = 0%Z
      ∧ stdout_streams result = Ret (Some streams)
      ∧ streams = before ++ s :: after
      ∧ Forall passed_over before
      ∧ codec_type s = Some "video"
      ∧ default (Ret 0%Q) (st_duration s) = Ret d
      ∧ info = info_of s d.
Proof.
  unfold get_video_info. split.
  - destruct (probe video_path) as [result|e]; [|done].
    destruct (Z.eqb_spec (returncode result) 0) as [Hcode|]; [|done].
    destruct (stdout_streams result) as [[streams|]|e] eqn:Hout; [|done..].
    simpl.
    destruct (first_video_stream streams) as [o|e] eqn:Hfirst; [|done].
    intros ->. apply first_video_stream_spec in Hfirst
      as (before & s & after & d & ?).
    by exists result, streams, before, s, after, d.
  - intros (result & streams & before & s & after & d & -> & -> & -> & H).
    simpl.
    assert (first_video_stream streams = Ret (Some info)) as ->; [|done].
    apply first_video_stream_spec. by exists before, s, after, d.
Qed.
End prober_facts.

(** ** The two ways of merging *)

Section merging.
Import text merge_videos.

Variable tl : tools.

(** The last character of a string. *)
Fixpoint last_char (s : string) : option ascii :=
  match s with
  | EmptyString => None
  | String c EmptyString => Some c
  | String _ s' => last_char s'
  end.

Lemma last_char_app s t : t ≠ "" → last_char (s +:+ t) = last_char t.
Proof.
  intros Ht. induction s as [|c s IH]; [done|].
  change (String c s +:+ t) with (String c (s +:+ t)).
  simpl. rewrite IH. destruct (s +:+ t) eqn:Hst; [|done].
  by destruct s, t.
Qed.

Lemma ends_differently s t u v :
  u ≠ "" → v ≠ "" → last_char u ≠ last_char v → s +:+ u ≠ t +:+ v.
Proof.
  intros Hu Hv Hne H. apply (f_equal last_char) in H.
  by rewrite !last_char_app in H.
Qed.

(** The temporary list of [merge_videos_concat]. *)
Definition concat_list_of (output_path : string) : string :=
  path_join (path_parent output_path) "concat_list.txt".

Lemma merge_videos_concat_spec video_files output_path w :
  let concat_file := concat_list_of output_path in
  let ok := match ffmpeg tl (concat_copy concat_file output_path) with
            | Ret code => (code =? 0)%Z
            | Raise _ => false
            end in
  merge_videos_concat tl video_files output_path w
  = (Ret ok,
     {| fs := delete concat_file
                (if ok then <[output_path := FVideo]>
                              (<[concat_file := FOther]> (fs w))
                 else <[concat_file := FOther]> (fs w));
        clock := clock w;
        trace := trace w
                 ++ [EvWrite concat_file; EvMerge video_files false]
                 ++ (if ok then [EvWrite output_path] else [])
                 ++ [EvRemove concat_file] |}).
Proof.
  intros concat_file ok. subst ok.
  unfold merge_videos_concat, run_ffmpeg, bind, write_file, emit,
    remove_file, ret. fold (concat_list_of output_path). fold concat_file.
  simpl.
  destruct (ffmpeg tl (concat_copy concat_file output_path)) as [code|e];
    [destruct (code =? 0)%Z|]; simpl; by rewrite <- !app_assoc.
Qed.


Lemma merge_videos_with_transitions_spec first rest output_path T w :
  merge_videos_with_transitions tl (first :: rest) output_path T w
  = match filter_complex tl (first :: rest) T with
    | Ret (Some entries) =>
        match ffmpeg tl (filter_encode (first :: rest) entries output_path)
        with
        | Ret 0%Z =>
            (Ret true,
             {| fs := <[output_path := FVideo]> (fs w); clock := clock w;
                trace := trace w ++ [EvMerge (first :: rest) true;
                                     EvWrite output_path] |})
        | _ =>
            (Ret false,
             {| fs := fs w; clock := clock w;
                trace := trace w ++ [EvMerge (first :: rest) true] |})
        end
    | _ => (Ret false, w)
    end.
Proof.
  unfold merge_videos_with_transitions, bind, lift.
  unfold filter_complex.
  destruct (get_video_info (ffprobe tl) first) as [info|]; [|done].
  unfold run_ffmpeg, bind, emit, write_file, ret. simpl.
  destruct (ffmpeg tl _) as [[|p|p]|e]; simpl; try done.
  by rewrite <- app_assoc.
Qed.

End merging.

(** ** The merge of a folder and the exit status *)

Section merge_reports.
Import text merge_videos.

Variable tl : tools.

Lemma last_char_path_join dir name :
  name ≠ "" → last_char (path_join dir name) = last_char name.
Proof.
  intros Hne. unfold path_join.
  rewrite last_char_app by (by apply app_not_empty).
  by apply last_char_app.
Qed.

Lemma last_char_merged t :
  last_char ("merged_" +:+ t +:+ ".mp4") = Some "4"%char.
Proof.
  rewrite last_char_app by (by apply app_not_empty).
  by rewrite last_char_app.
Qed.

Lemma merged_not_concat_list dir t :
  let output_path := path_join dir ("merged_" +:+ t +:+ ".mp4") in
  output_path ≠ concat_list_of output_path.
Proof.
  intros output_path H. apply (f_equal last_char) in H.
  unfold output_path, concat_list_of in H.
  rewrite !last_char_path_join, last_char_merged in H;
    [done|done|by repeat apply app_not_empty].
Qed.

Lemma merge_report_not_concat_list dir now output_path :
  path_join dir ("merge_report_" +:+ now +:+ ".json")
  ≠ concat_list_of output_path.
Proof.
  intros H. apply (f_equal last_char) in H. unfold concat_list_of in H.
  rewrite !last_char_path_join in H;
    [|done|by repeat apply app_not_empty].
  rewrite last_char_app in H by (by apply app_not_empty).
  by rewrite last_char_app in H.
Qed.

Lemma merge_report_not_merged dir now t :
  path_join dir ("merge_report_" +:+ now +:+ ".json")
  ≠ path_join dir ("merged_" +:+ t +:+ ".mp4").
Proof. intros H%path_join_inj. discriminate H. Qed.

(** One merge, by either way: what it returns and what it leaves. *)
Lemma merge_step (transition : bool) first rest output_path T w :
  ∃ ok w1 added,
    (if transition
     then merge_videos_with_transitions tl (first :: rest) output_path T
     else merge_videos_concat tl (first :: rest) output_path) w
    = (Ret ok, w1)
    ∧ trace w1 = trace w ++ added
    ∧ (∀ q, q ≠ output_path → q ≠ concat_list_of output_path →
         fs w1 !! q = fs w !! q)
    ∧ (ok = true → output_path ≠ concat_list_of output_path →
       fs w1 !! output_path = Some FVideo ∧ EvWrite output_path ∈ added)
    ∧ (∀ q, EvWrite q ∈ added →
         q = output_path ∨ q = concat_list_of output_path).
Proof.
  destruct transition.
  - rewrite merge_videos_with_transitions_spec.
    destruct (filter_complex tl (first :: rest) T) as [[entries|]|e];
      [|exists false, w, []; rewrite app_nil_r; split_and!; try done;
        by intros q ?%elem_of_nil..].
    destruct (ffmpeg tl _) as [[|p|p]|e]; eexists _, _, _;
      (split; [reflexivity|]); cbn [fs trace]; (split; [reflexivity|]);
      split_and!; try done.
    + intros q Hq _. by rewrite lookup_insert_ne.
    + intros _ _. split; [apply lookup_insert_eq|].
      apply list_elem_of_further, list_elem_of_here.
    + intros q Hq. apply elem_of_cons in Hq as [[=]|Hq].
      apply list_elem_of_singleton in Hq as [= ->]. by left.
    + intros q Hq. by apply list_elem_of_singleton in Hq.
    + intros q Hq. by apply list_elem_of_singleton in Hq.
    + intros q Hq. by apply list_elem_of_singleton in Hq.
  - rewrite merge_videos_concat_spec. cbv zeta.
    set (concat_file := concat_list_of output_path).
    destruct (match ffmpeg tl _ with Ret code => _ | Raise _ => _ end);
      eexists _, _, _; (split; [reflexivity|]); cbn [fs trace];
      (split; [reflexivity|]); split_and!; try done.
    + intros q Hq Hc.
      by rewrite lookup_delete_ne, !lookup_insert_ne by done.
    + intros _ Hne. split.
      * rewrite lookup_delete_ne by done. apply lookup_insert_eq.
      * do 2 apply list_elem_of_further. apply list_elem_of_here.
    + intros q Hq. apply elem_of_cons in Hq as [[= ->]|Hq]; [by right|].
      apply elem_of_cons in Hq as [[=]|Hq].
      apply elem_of_cons in Hq as [[= ->]|Hq]; [by left|].
      by apply list_elem_of_singleton in Hq.
    + intros q Hq Hc.
      by rewrite lookup_delete_ne, !lookup_insert_ne by done.
    + intros q Hq. apply elem_of_cons in Hq as [[= ->]|Hq]; [by right|].
      apply elem_of_cons in Hq as [[=]|Hq].
      by apply list_elem_of_singleton in Hq.
Qed.

Section folder_merge.
Variables (folder_path : string) (transition : bool) (T : Q).
Variables (session_only0 : bool) (use_timestamp : option string).

(** The session id a merge is scoped to, if any. *)
Definition merge_scope (r : resolution) : option string :=
  if session_only r then ads_generation.truthy (session_timestamp r)
  else None.

(** [output_filename] *)
Definition merged_name (r : resolution) : string :=
  match merge_scope r with
  | Some t => "merged_" +:+ t +:+ ".mp4"
  | None => "merged_" +:+ strftime_now tl +:+ ".mp4"
  end.

(** [report_file] *)
Definition merge_report_path : string :=
  path_join folder_path ("merge_report_" +:+ strftime_now tl +:+ ".json").

Lemma merged_name_shape r : ∃ t, merged_name r = "merged_" +:+ t +:+ ".mp4".
Proof. unfold merged_name. destruct (merge_scope r); eauto. Qed.

Lemma merge_generated_videos_spec w :
  let r := resolve (fs w) folder_path session_only0 use_timestamp in
  let output_path := path_join folder_path (merged_name r) in
  ∃ ok w' added,
    merge_generated_videos tl folder_path transition T session_only0
                           use_timestamp w = (Ret ok, w')
    ∧ trace w' = trace w ++ added
    ∧ (dir_exists tl folder_path = false ∨ video_files r = [] →
       ok = false ∧ w' = w)
    ∧ (ok = true →
       dir_exists tl folder_path = true
       ∧ video_files r ≠ []
       ∧ fs w' !! output_path = Some FVideo
       ∧ EvWrite output_path ∈ added
       ∧ fs w' !! merge_report_path
         = Some (FMergeReport
             {| mr_timestamp := strftime_now tl;
                mr_session_timestamp :=
                  if session_only r then session_timestamp r else None;
                source_videos := path_name <$> video_files r;
                output_video := merged_name r;
                mr_transition := transition;
                mr_transition_duration := if transition then T else 0%Q;
                total_videos := length (video_files r);
                merge_type := match merge_scope r with
                              | Some t => "session " +:+ t
                              | None => "all available"
                              end |}))
    ∧ (ok = false →
       fs w' !! merge_report_path = fs w !! merge_report_path
       ∧ EvWrite merge_report_path ∉ added)
    ∧ (∀ q, q ≠ output_path → q ≠ concat_list_of output_path →
            q ≠ merge_report_path → fs w' !! q = fs w !! q).
Proof.
  intros r output_path. unfold merge_generated_videos.
  destruct (dir_exists tl folder_path) eqn:Hdir; simpl;
    [|exists false, w, []; rewrite app_nil_r; split_and!; try done;
      intros _; split; [done|apply not_elem_of_nil]].
  fold r. destruct (video_files r) as [|first rest] eqn:Hfiles;
    [exists false, w, []; rewrite app_nil_r; split_and!; try done;
     intros _; split; [done|apply not_elem_of_nil]|].
  fold (merge_scope r). fold (merged_name r). fold output_path.
  fold merge_report_path.
  destruct (merged_name_shape r) as [t Ht].
  assert (Hne : output_path ≠ concat_list_of output_path).
  { unfold output_path. rewrite Ht. apply merged_not_concat_list. }
  assert (Hreport : merge_report_path ≠ output_path).
  { unfold output_path. rewrite Ht. apply merge_report_not_merged. }
  pose proof (merge_report_not_concat_list folder_path (strftime_now tl)
                output_path) as Hreport'.
  fold merge_report_path in Hreport'.
  unfold bind at 1.
  destruct (merge_step transition first rest output_path T w)
    as (ok & w1 & added & -> & Htr & Hframe & Hout & Hwrites).
  destruct ok.
  - destruct (Hout eq_refl Hne) as [Hfs Hin].
    unfold write_file, ret, bind. eexists true, _, (added ++ [_]).
    split; [reflexivity|]. cbn [fs trace]. split_and!.
    + by rewrite Htr, <- app_assoc.
    + by intros [?|?].
    + intros _. split_and!; try done.
      * by rewrite lookup_insert_ne.
      * apply elem_of_app. by left.
      * apply lookup_insert_eq.
    + done.
    + intros q H1 H2 H3. rewrite lookup_insert_ne by done. by apply Hframe.
  - unfold ret. exists false, w1, added. split; [reflexivity|]. split_and!.
    + done.
    + by intros [?|?].
    + done.
    + intros _. split; [by apply Hframe|].
      intros [?|?]%Hwrites; done.
    + intros q H1 H2 H3. by apply Hframe.
Qed.

(** X14. [merge_generated_videos] writes its merge report exactly when
    the merge succeeded: the report then lists the names of the resolved
    segments in merge order and their number, and names the output, which
    exists in the folder as [merged_<session id>.mp4] for a merge scoped
    to a session and as [merged_<time of the merge>.mp4] otherwise. When
    the folder does not exist or no segment is found it returns [False]
    and does nothing; when the merge fails no report is written. *)
Theorem merge_report_follows_success w :
  let r := resolve (fs w) folder_path session_only0 use_timestamp in
  ∃ ok w' added,
    merge_generated_videos tl folder_path transition T session_only0
                           use_timestamp w = (Ret ok, w')
    ∧ trace w' = trace w ++ added
    ∧ (dir_exists tl folder_path = false ∨ video_files r = [] →
       ok = false ∧ w' = w)
    ∧ (ok = true →
       ∃ rep, fs w' !! merge_report_path = Some (FMergeReport rep)
         ∧ source_videos rep = path_name <$> video_files r
         ∧ total_videos rep = length (video_files r)
         ∧ 0 < total_videos rep
         ∧ output_video rep
           = match merge_scope r with
             | Some t => "merged_" +:+ t +:+ ".mp4"
             | None => "merged_" +:+ strftime_now tl +:+ ".mp4"
             end
         ∧ fs w' !! path_join folder_path (output_video rep) = Some FVideo
         ∧ EvWrite (path_join folder_path (output_video rep)) ∈ added)
    ∧ (ok = false →
       fs w' !! merge_report_path = fs w !! merge_report_path
       ∧ EvWrite merge_report_path ∉ added).
Proof.
  intros r.
  destruct (merge_generated_videos_spec w)
    as (ok & w' & added & Hrun & Htr & Hnone & Hok & Hfail & _).
  fold r in Hnone, Hok.
  exists ok, w', added. split_and!; try done.
  intros Htrue. destruct (Hok Htrue) as (_ & Hne & Hout & Hin & Hrep).
  eexists. split; [exact Hrep|]. cbn. split_and!; try done.
  destruct (video_files r); [done|simpl; lia].
Qed.

End folder_merge.

End merge_reports.

(** ** The session id read from the file names *)

Section latest_session_fallback.
Import text merge_videos.

Lemma split_go_plain sep s : ∀ cur,
  contains_char sep s = false → split_go sep cur s = [String.rev_app cur s].
Proof.
  induction s as [|c s IH]; intros cur H; simpl in *; [done|].
  apply orb_false_iff in H as [-> H]. by rewrite IH.
Qed.

Lemma split_go_first sep s rest : ∀ cur,
  contains_char sep s = false →
  split_go sep cur (s +:+ String sep rest)
  = String.rev_app cur s :: split_go sep "" rest.
Proof.
  induction s as [|c s IH]; intros cur H.
  - change ("" +:+ String sep rest) with (String sep rest).
    simpl. by rewrite Ascii.eqb_refl.
  - change (String c s +:+ String sep rest)
      with (String c (s +:+ String sep rest)).
    simpl in *. apply orb_false_iff in H as [-> H]. by rewrite IH.
Qed.

Lemma substring_prefix s u :
  String.substring 0 (String.length s) (s +:+ u) = s.
Proof.
  induction s as [|c s IH]; simpl.
  - by destruct u.
  - change (String c s +:+ u) with (String c (s +:+ u)). simpl.
    by rewrite IH.
Qed.

Lemma string_app_assoc s t u : (s +:+ t) +:+ u = s +:+ t +:+ u.
Proof.
  induction s as [|c s IH]; [done|].
  change ((String c s +:+ t) +:+ u) with (String c ((s +:+ t) +:+ u)).
  by rewrite IH.
Qed.

Lemma stem_json s : stem (s +:+ ".json") = s.
Proof.
  unfold stem. rewrite string_app_length. simpl.
  replace (String.length s + 5 - 5) with (String.length s) by lia.
  apply substring_prefix.
Qed.

(** The parts of the stem of a session file name. *)
Lemma split_session_file_stem t :
  split "_" (stem (ads_generation.session_file_name t))
  = "session" :: "videos" :: split "_" t.
Proof.
  unfold ads_generation.session_file_name.
  rewrite <- string_app_assoc, stem_json. unfold split.
  change ("session_videos_" +:+ t)
    with ("session" +:+ String "_" ("videos" +:+ String "_" t)).
  by rewrite !split_go_first.
Qed.

(** The latest-session file is missing, or is not a JSON object. *)
Definition no_latest_pointer (fs0 : gmap string file) (dir : string) : Prop :=
  match fs0 !! path_join dir ads_generation.latest_session_name with
  | Some f => ∃ e, load_timestamp f = Raise e
  | None => True
  end.

(** The session file that comes last in path order. *)
Definition last_session_file (fs0 : gmap string file) (dir : string)
    : option string :=
  last (sorted (glob fs0 dir "session_videos_" ".json")).

Lemma fallback_parts fs0 dir t :
  no_latest_pointer fs0 dir →
  last_session_file fs0 dir
  = Some (path_join dir (ads_generation.session_file_name t)) →
  contains_char "/" t = false →
  get_latest_session_timestamp fs0 dir
  = match split "_" t with
    | p2 :: p3 :: _ => Some (p2 +:+ "_" +:+ p3)
    | _ => None
    end.
Proof.
  intros Hno Hlast Ht.
  assert (Hname : path_name (path_join dir
                    (ads_generation.session_file_name t))
                  = ads_generation.session_file_name t).
  { apply path_name_join. unfold ads_generation.session_file_name.
    by rewrite !contains_char_app, Ht. }
  assert (Hunderscore : contains_char "_"
            (stem (ads_generation.session_file_name t)) = true).
  { unfold ads_generation.session_file_name.
    rewrite <- string_app_assoc, stem_json. by rewrite contains_char_app. }
  unfold get_latest_session_timestamp.
  unfold last_session_file in Hlast. rewrite Hlast, Hname, Hunderscore.
  rewrite split_session_file_stem.
  unfold no_latest_pointer in Hno.
  destruct (fs0 !! _) as [f|]; [|done].
  destruct Hno as [e ->]. done.
Qed.

(** X16. Without a readable latest-session file,
    [get_latest_session_timestamp] takes the session file that comes last
    in path order and reads the id off its name
    [session_videos_<id>.json]: it gives the first two [_]-separated
    parts of the id joined by [_]. So an id [a_b] whose two parts contain
    no [_] is read back as it is, an id with more parts is cut to the
    first two, and an id without [_] gives [None]. *)
Theorem latest_session_from_file_names fs0 dir t :
  no_latest_pointer fs0 dir →
  last_session_file fs0 dir
  = Some (path_join dir (ads_generation.session_file_name t)) →
  contains_char "/" t = false →
  get_latest_session_timestamp fs0 dir
  = match split "_" t with
    | p2 :: p3 :: _ => Some (p2 +:+ "_" +:+ p3)
    | _ => None
    end
  ∧ (∀ a b, t = a +:+ "_" +:+ b →
       contains_char "_" a = false → contains_char "_" b = false →
       get_latest_session_timestamp fs0 dir = Some t)
  ∧ (∀ a b rest, t = a +:+ "_" +:+ b +:+ "_" +:+ rest →
       contains_char "_" a = false → contains_char "_" b = false →
       get_latest_session_timestamp fs0 dir = Some (a +:+ "_" +:+ b))
  ∧ (contains_char "_" t = false →
     get_latest_session_timestamp fs0 dir = None).
Proof.
  intros Hno Hlast Ht.
  pose proof (fallback_parts fs0 dir t Hno Hlast Ht) as Hparts.
  split_and!; [done|..].
  - intros a b -> Ha Hb. rewrite Hparts. unfold split.
    change ("_" +:+ b) with (String "_" b).
    by rewrite split_go_first, split_go_plain.
  - intros a b rest -> Ha Hb. rewrite Hparts. unfold split.
    change ("_" +:+ b +:+ "_" +:+ rest)
      with (String "_" (b +:+ String "_" rest)).
    by rewrite !split_go_first.
  - intros Hplain. rewrite Hparts. unfold split.
    by rewrite split_go_plain.
Qed.
End latest_session_fallback.

(** ** Loading the prompts and the exit status of the generation *)

Section loading_facts.
Import text ads_generation.

Variable env : environment.
Variable read_json : string → option (outcome analysis_data).

(** What [load_prompts] returns always has the per-image list, so the
    branch of [generate_ads] for the old format is never taken. *)
Lemma load_prompts_per_image folder_path data :
  load_prompts read_json folder_path = Ret data →
  ∃ analyses, per_image_analysis data = Some analyses
              ∧ per_image_analyses_of data = analyses.
Proof.
  unfold load_prompts, per_image_analyses_of.
  destruct (read_json _) as [[original|e]|]; [|done..].
  destruct (per_image_analysis original) as [l|] eqn:Hl.
  - intros [= <-]. rewrite Hl. eauto.
  - destruct (video_prompts original); [|done]. intros [= <-]. simpl. eauto.
Qed.

Lemma generate_ads_from_folder_cases folder_path num s3_bucket use_images
    stamp w :
  generate_ads_from_folder env read_json folder_path num s3_bucket
                           use_images stamp w
  = match truthy s3_bucket with
    | None => (Ret None, w)
    | Some _ =>
        match load_prompts read_json folder_path with
        | Raise e => (Raise e, w)
        | Ret data =>
            generate_ads env folder_path (per_image_analyses_of data) num
                         s3_bucket use_images stamp w
        end
    end.
Proof.
  unfold generate_ads_from_folder.
  destruct (truthy s3_bucket); [|done].
  unfold bind, lift. by destruct (load_prompts read_json folder_path).
Qed.


Lemma outcomes_image_index folder_path ts i0 k0 ps outs :
  outcomes folder_path ts k0 ps outs →
  Forall (λ '(i, _, _), i = i0) ps →
  Forall (λ r, image_index r = Some i0) outs.*1.
Proof.
  induction 1 as [k1|k0 i p d ps r m outs Hm Hr _ IH]; intros Hps;
    [constructor|].
  apply Forall_cons in Hps as [-> Hps]. rewrite fmap_cons.
  constructor; [by destruct Hr|by apply IH].
Qed.

Lemma pairs_of_prompts_image i : ∀ l p,
  Forall (λ '(i', _, _), i' = i) (pairs_of_prompts i p l).
Proof.
  induction l as [|d l IH]; intros p; simpl; constructor; [done|apply IH].
Qed.

Lemma Forall_list_filter {A} (P : A → Prop) (f : A → bool) l :
  Forall P l → Forall P (List.filter f l).
Proof.
  induction 1 as [|x l Hx _ IH]; simpl; [constructor|].
  destruct (f x); [by constructor|done].
Qed.

(** X18. With a prompts file of the old format (a list of prompts and no
    per-image list), the session treats the prompts as those of a single
    image: one image is reported, the jobs are the first
    [num_videos_per_image] prompts, every result has image ordinal 1, and
    an image without a file name gets no keyframe. *)
Theorem old_prompt_format_is_one_image folder_path num s3_bucket use_images
    stamp original prompts w rep w' :
  read_json (path_join folder_path prompts_file_name) = Some (Ret original) →
  per_image_analysis original = None →
  video_prompts original = Some prompts →
  generate_ads_from_folder env read_json folder_path num s3_bucket
                           use_images stamp w = (Ret (Some rep), w') →
  total_images_processed rep = 1
  ∧ total_attempted rep = length (slice_to num prompts)
  ∧ Forall (λ r, image_index r = Some 1)
           (successful_videos rep ++ failed_videos rep)
  ∧ (∀ img_idx,
       keyframe_for env folder_path use_images
         ("image_" +:+ str_of_nat img_idx) img_idx = None).
Proof.
  intros Hread Hnew Hold. rewrite generate_ads_from_folder_cases.
  unfold load_prompts. rewrite Hread, Hnew, Hold.
  unfold per_image_analyses_of. simpl per_image_analysis. cbv iota.
  destruct (truthy s3_bucket) eqn:Hbucket; [|done].
  intros (bucket & outs & _ & Houts & -> & _)%generate_ads_inv.
  destruct (session_progress_results outs) as (Htot & Hsucc & Hfail).
  simpl in Houts. rewrite app_nil_r in Houts.
  pose proof (outcomes_image_index _ _ 1 _ _ _ Houts
                (pairs_of_prompts_image 1 _ 1)) as Hone.
  unfold session_report, mk_report; simpl.
  rewrite Htot, Hsucc, Hfail. split_and!.
  - done.
  - by rewrite (outcomes_length _ _ _ _ _ Houts), pairs_of_prompts_length.
  - apply Forall_app. split; by apply Forall_list_filter.
  - intros img_idx. unfold keyframe_for.
    by rewrite String.eqb_refl, andb_false_r.
Qed.
End loading_facts.

(** ** The pipeline *)

Section pipeline_facts.
Import text generate_video_ads.

Variable subprocess_run : list string → outcome Z.

(** The command exits with status 0. *)
Definition succeeds (c : list string) : Prop := subprocess_run c = Ret 0%Z.

Lemma run_steps_spec steps0 : ∀ log res log',
  run_steps subprocess_run steps0 log = (res, log') →
  ∃ ran, log' = log ++ ran
    ∧ ran `prefix_of` (command <$> steps0)
    ∧ match res with
      | Ret completed => ran = command <$> steps0 ∧ Forall succeeds ran
      | Ret (exited code) =>
          code = 1%Z
          ∧ ∃ before c, ran = before ++ [c] ∧ Forall succeeds before
              ∧ ∃ rc, subprocess_run c = Ret rc ∧ rc ≠ 0%Z
      | Raise e =>
          ∃ before c, ran = before ++ [c] ∧ Forall succeeds before
            ∧ subprocess_run c = Raise e
      end.
Proof.
  induction steps0 as [|s rest IH]; intros log res log'; simpl.
  - intros [= <- <-]. exists []. rewrite app_nil_r.
    split_and!; [done|done|done|constructor].
  - unfold run_command.
    destruct (subprocess_run (command s)) as [rc|e] eqn:Hrun.
    + destruct (Z.eqb_spec rc 0) as [->|Hne].
      * intros (ran & -> & Hpre & Hres)%IH.
        exists (command s :: ran). rewrite <- app_assoc.
        split_and!; [done|by apply prefix_cons|].
        destruct res as [[code|]|e].
        -- destruct Hres as (-> & before & c & -> & Hb & Hc).
           split; [done|]. exists (command s :: before), c.
           split_and!; [done| |done]. by constructor.
        -- destruct Hres as [-> Hall]. split; [done|]. by constructor.
        -- destruct Hres as (before & c & -> & Hb & Hc).
           exists (command s :: before), c.
           split_and!; [done| |done]. by constructor.
      * intros [= <- <-]. exists [command s].
        split_and!; [done|by apply prefix_cons, prefix_nil|done|].
        exists [], (command s). split_and!; [done|constructor|eauto].
    + intros [= <- <-]. exists [command s].
      split_and!; [done|by apply prefix_cons, prefix_nil|].
      exists [], (command s). split_and!; [done|constructor|done].
Qed.

Lemma run_steps_all_succeed steps0 : ∀ log,
  Forall succeeds (command <$> steps0) →
  run_steps subprocess_run steps0 log
  = (Ret completed, log ++ (command <$> steps0)).
Proof.
  induction steps0 as [|s rest IH]; intros log Hall; simpl.
  - by rewrite app_nil_r.
  - rewrite fmap_cons in Hall. apply Forall_cons in Hall as [Hs Hall].
    unfold run_command. rewrite Hs. simpl.
    by rewrite IH, <- app_assoc.
Qed.

(** X19. The pipeline runs its steps in order and stops at the first
    command that does not exit with status 0: the commands run are a
    prefix of the commands of the steps, all but the last of them
    succeeded, and no later step is started. It reaches the summary
    exactly when the folder is valid and every command succeeded; it
    exits with status 1 without running anything when the folder is not
    valid, and with status 1 after the first failing command. *)
Theorem pipeline_stops_at_first_failure dir_exists fs0 now args res log :
  main dir_exists fs0 subprocess_run now args = (res, log) →
  let cmds := command <$> steps args now in
  let valid := validate_folder_structure dir_exists fs0 (folder args) in
  log `prefix_of` cmds
  ∧ (valid = false → res = Ret (exited 1) ∧ log = [])
  ∧ (res = Ret completed ↔ valid = true ∧ Forall succeeds cmds)
  ∧ (res = Ret completed → log = cmds)
  ∧ (∀ code, res = Ret (exited code) → code = 1%Z)
  ∧ (valid = true → res ≠ Ret completed →
     ∃ before c, log = before ++ [c] ∧ Forall succeeds before
                 ∧ ¬ succeeds c).
Proof.
  intros Hrun cmds valid. unfold main in Hrun. fold valid in Hrun.
  destruct valid eqn:Hvalid; simpl in Hrun.
  - apply run_steps_spec in Hrun as (ran & -> & Hpre & Hres). simpl.
    fold cmds in Hpre, Hres. split_and!; try done.
    + split.
      * intros ->. destruct Hres as [-> Hall]. done.
      * intros [_ Hall].
        pose proof (run_steps_all_succeed (steps args now) [] Hall) as Hok.
        destruct res as [[code|]|e]; [| done |].
        -- destruct Hres as (_ & before & c & -> & _ & rc & Hc & Hne).
           destruct Hpre as [tail Hcmds]. fold cmds in Hall.
           rewrite Hcmds, <- app_assoc in Hall.
           apply Forall_app in Hall as [_ Hall].
           apply Forall_cons in Hall as [Hs _]. unfold succeeds in Hs.
           congruence.
        -- destruct Hres as (before & c & -> & _ & Hc).
           destruct Hpre as [tail Hcmds]. fold cmds in Hall.
           rewrite Hcmds, <- app_assoc in Hall.
           apply Forall_app in Hall as [_ Hall].
           apply Forall_cons in Hall as [Hs _]. unfold succeeds in Hs.
           congruence.
    + intros ->. by destruct Hres as [-> _].
    + intros code ->. by destruct Hres as [-> _].
    + intros _ Hnot. destruct res as [[code|]|e]; [| done |].
      * destruct Hres as (_ & before & c & -> & Hb & rc & Hc & Hne).
        exists before, c. split_and!; [done..|].
        unfold succeeds. congruence.
      * destruct Hres as (before & c & -> & Hb & Hc).
        exists before, c. split_and!; [done..|].
        unfold succeeds. congruence.
  - injection Hrun as <- <-. split_and!; try done.
    + apply prefix_nil.
    + split; [done|]. by intros [? _].
    + by intros code [= <-].
Qed.

(** The script a command runs. *)
Definition runs (script : string) (c : list string) : Prop :=
  c !! 1 = Some script.

(** X20. The pipeline hands its session id down: the command of the
    generation step ends with [--timestamp <id>], and the command of a
    merge step, which is the last step and runs on [<folder>/generated_ads]
    right after the generation step, ends with [--timestamp <id>] too,
    unless all videos are to be merged, when it ends with
    [--all-videos]. Without a bucket there is neither a generation step
    nor a merge step, also when a merge was asked for. *)
Theorem session_id_is_handed_down args now :
  let cmds := command <$> steps args now in
  (ads_generation.truthy (s3_bucket args) = None →
   Forall (λ c, ¬ runs "ads_generation.py" c ∧ ¬ runs "merge_videos.py" c)
          cmds)
  ∧ (∀ c, c ∈ cmds → runs "ads_generation.py" c →
       ∃ bucket pre,
         ads_generation.truthy (s3_bucket args) = Some bucket
         ∧ c = pre ++ ["--s3-bucket"; bucket; "--timestamp"; now])
  ∧ (∀ c, c ∈ cmds → runs "merge_videos.py" c →
       merge args || merge_all args = true
       ∧ (∃ before g, cmds = before ++ [g; c] ∧ runs "ads_generation.py" g)
       ∧ c !! 2 = Some (path_join (folder args) "generated_ads")
       ∧ ∃ pre, c = pre ++ (if merge_all args then ["--all-videos"]
                            else ["--timestamp"; now])).
Proof.
  intros cmds. subst cmds. unfold steps, runs.
  destruct (ads_generation.truthy (s3_bucket args)) as [bucket|];
    destruct (skip_selection args), (skip_analysis args);
    destruct (merge args), (merge_all args), (transition args);
    cbn [orb app fmap list_fmap command];
    (split_and!;
     [ try done; intros _; repeat constructor; cbn; try done
     | intros c Hc Hr;
       repeat (apply elem_of_cons in Hc as [->|Hc];
               [try discriminate Hr|]);
       try (by apply elem_of_nil in Hc);
       try (exists bucket; eexists [_; _; _; _; _]; by split)
     | intros c Hc Hr;
       repeat (apply elem_of_cons in Hc as [->|Hc];
               [try discriminate Hr|]);
       try (by apply elem_of_nil in Hc);
       (split_and!;
        [ done
        | first [ by eexists [], _
                | by eexists [_], _
                | by eexists [_; _], _ ]
        | done
        | first [ by eexists [_; _; _]
                | by eexists [_; _; _; _] ] ]) ]).
Qed.
End pipeline_facts.

(** ** The time a session waits *)

Section session_time.
Import text ads_generation.

Variable env : environment.
Variable folder_path : string.
Variable per_image_analyses : list image_analysis.
Variable num_videos_per_image : Z.
Variable s3_bucket : option string.
Variable use_images : bool.
Variable session_timestamp : option string.

Local Abbreviation generate_ads :=
  (generate_ads env folder_path per_image_analyses num_videos_per_image
                s3_bucket use_images session_timestamp).

(** The status reads in a trace. *)
Definition status_reads (tr : list event) : nat :=
  length (List.filter (λ e, match e with EvPoll _ => true | _ => false end)
                      tr).

Lemma status_reads_app tr1 tr2 :
  status_reads (tr1 ++ tr2) = status_reads tr1 + status_reads tr2.
Proof. unfold status_reads. by rewrite List.filter_app, length_app. Qed.

Lemma status_reads_job k m : status_reads (job_events k m) = m.
Proof.
  unfold job_events, poll_events, status_reads. simpl.
  induction m as [|m IH]; simpl; [done|]. by rewrite IH.
Qed.

Lemma status_reads_retrieval k r : status_reads (retrieval_events k r) = 0.
Proof.
  unfold retrieval_events, status_reads.
  destruct (success r); [|done]. by destruct (local_filename r).
Qed.

(** The status reads of a run of jobs. *)
Definition polls_of (outs : list (video_result * nat)) : nat :=
  sum_list outs.*2.

Lemma status_reads_pairs outs :
  status_reads (pairs_trace outs) = polls_of outs.
Proof.
  unfold polls_of. induction outs as [|[r m] outs IH]; [done|].
  rewrite pairs_trace_cons, status_reads_app, IH. unfold pair_trace.
  cbn [fst snd]. rewrite status_reads_app, status_reads_job,
    status_reads_retrieval, fmap_cons.
  cbn [sum_list sum_list_with snd]. change (id m) with m. lia.
Qed.

Lemma after_pairs_clock outs : ∀ w,
  clock (foldl after_pair w outs) = clock w + poll_delay * polls_of outs.
Proof.
  unfold polls_of. induction outs as [|[r m] outs IH]; intros w.
  - simpl. lia.
  - cbn [foldl]. rewrite IH, fmap_cons. unfold after_pair.
    cbn [clock snd sum_list sum_list_with]. change (id m) with m. lia.
Qed.

Lemma outcomes_polls ts k0 ps outs :
  outcomes folder_path ts k0 ps outs →
  polls_of outs ≤ max_attempts * length outs.
Proof.
  unfold polls_of.
  induction 1 as [k1|k0 i p d ps r m outs Hm Hr _ IH]; [simpl; lia|].
  rewrite fmap_cons. cbn [sum_list sum_list_with snd length].
  change (id m) with m. lia.
Qed.

(** X21. On the clock of the model, which only [time.sleep] advances, a
    session takes [poll_delay] seconds for each status read it makes, and
    it makes at most [max_attempts] reads per job: it ends at most
    [max_attempts * poll_delay * total_attempted] seconds after it
    started, and at once when no job polls. *)
Theorem session_waits_per_status_read w rep w' :
  generate_ads w = (Ret (Some rep), w') →
  ∃ added,
    trace w' = trace w ++ added
    ∧ clock w' = clock w + poll_delay * status_reads added
    ∧ status_reads added ≤ max_attempts * total_attempted rep
    ∧ clock w' ≤ clock w + max_attempts * poll_delay * total_attempted rep.
Proof.
  intros (bucket & outs & _ & Houts & -> & ->)%generate_ads_inv.
  destruct (session_progress_results outs) as (Htot & _ & _).
  pose proof (outcomes_polls _ _ _ _ Houts) as Hpolls.
  assert (Htrace : ∃ tail,
            trace (after_session env folder_path num_videos_per_image
                     bucket use_images (session_id env session_timestamp)
                     per_image_analyses outs w)
            = trace w ++ pairs_trace outs ++ tail
            ∧ status_reads tail = 0
            ∧ clock (after_session env folder_path num_videos_per_image
                       bucket use_images (session_id env session_timestamp)
                       per_image_analyses outs w)
              = clock (foldl after_pair w outs)).
  { unfold after_session, publish, written.
    destruct (session_videos_of _); simpl; rewrite after_pairs_trace,
      <- ?app_assoc; eexists; (split; [reflexivity|]); done. }
  destruct Htrace as (tail & Htrace & Htail & Hclock).
  exists (pairs_trace outs ++ tail).
  rewrite status_reads_app, status_reads_pairs, Htail, Hclock,
    after_pairs_clock, Nat.add_0_r.
  unfold session_report, mk_report; cbn [total_attempted]. rewrite Htot.
  split_and!; [done|done|done|].
  pose proof (Nat.mul_le_mono_l _ _ poll_delay Hpolls). lia.
Qed.
End session_time.

(** ** The order of the segments *)

Section path_order.
Import text merge_videos.

Lemma ascii_compare_refl c : Ascii.compare c c = Eq.
Proof. apply N.compare_refl. Qed.

Lemma ascii_compare_lt_trans a b c :
  Ascii.compare a b = Lt → Ascii.compare b c = Lt → Ascii.compare a c = Lt.
Proof.
  unfold Ascii.compare. rewrite !N.compare_lt_iff. apply N.lt_trans.
Qed.

Lemma string_compare_refl s : String.compare s s = Eq.
Proof.
  induction s as [|c s IH]; simpl; [done|]. by rewrite ascii_compare_refl.
Qed.

Lemma string_compare_lt_trans s : ∀ t u,
  String.compare s t = Lt → String.compare t u = Lt →
  String.compare s u = Lt.
Proof.
  induction s as [|a s IH]; intros [|b t] [|c u]; simpl; try done.
  destruct (Ascii.compare a b) eqn:Hab; [|clear IH|done].
  - apply Ascii.compare_eq_iff in Hab as ->.
    destruct (Ascii.compare b c); [apply IH|done|done].
  - destruct (Ascii.compare b c) eqn:Hbc; [|  |done].
    + apply Ascii.compare_eq_iff in Hbc as <-. by rewrite Hab.
    + by rewrite (ascii_compare_lt_trans a b c).
Qed.

(** A common prefix does not count; prefixes of the same length decide
    before what follows them. *)
Lemma string_compare_app_same_length s : ∀ t a b,
  String.length s = String.length t →
  String.compare (s +:+ a) (t +:+ b)
  = match String.compare s t with
    | Eq => String.compare a b
    | c => c
    end.
Proof.
  induction s as [|c s IH]; intros [|c' t] a b Hlen; try done.
  change (String c s +:+ a) with (String c (s +:+ a)).
  change (String c' t +:+ b) with (String c' (t +:+ b)).
  simpl. destruct (Ascii.compare c c'); [|done..].
  apply IH. simpl in Hlen. lia.
Qed.

Lemma string_compare_app_prefix s a b :
  String.compare (s +:+ a) (s +:+ b) = String.compare a b.
Proof.
  by rewrite string_compare_app_same_length, string_compare_refl.
Qed.

Lemma parts_compare_refl a : parts_compare a a = Eq.
Proof.
  induction a as [|x a IH]; simpl; [done|]. by rewrite string_compare_refl.
Qed.

Lemma parts_compare_eq a : ∀ b, parts_compare a b = Eq → a = b.
Proof.
  induction a as [|x a IH]; intros [|y b]; simpl; try done.
  destruct (String.compare x y) eqn:Hxy; [|done..].
  apply String.compare_eq_iff in Hxy as ->. intros ->%IH. done.
Qed.

Lemma parts_compare_lt_trans a : ∀ b c,
  parts_compare a b = Lt → parts_compare b c = Lt → parts_compare a c = Lt.
Proof.
  induction a as [|x a IH]; intros [|y b] [|z c]; simpl; try done.
  destruct (String.compare x y) eqn:Hxy; [|clear IH|done].
  - apply String.compare_eq_iff in Hxy as ->.
    destruct (String.compare y z); [apply IH|done|done].
  - destruct (String.compare y z) eqn:Hyz; [|  |done].
    + apply String.compare_eq_iff in Hyz as <-. by rewrite Hxy.
    + by rewrite (string_compare_lt_trans x y z).
Qed.

Global Instance path_le_trans : Transitive path_le.
Proof.
  intros p q r. unfold path_le, path_compare.
  destruct (parts_compare (split "/" p) (split "/" q)) eqn:Hpq; [| |done].
  - apply parts_compare_eq in Hpq as ->. done.
  - destruct (parts_compare (split "/" q) (split "/" r)) eqn:Hqr; [| |done].
    + apply parts_compare_eq in Hqr as <-. by rewrite Hpq.
    + by rewrite (parts_compare_lt_trans _ _ _ Hpq Hqr).
Qed.

(** A path is its parts joined by the separator. *)
Fixpoint join (sep : ascii) (parts : list string) : string :=
  match parts with
  | [] => ""
  | [x] => x
  | x :: rest => x +:+ String sep (join sep rest)
  end.

Lemma rev_app_app s : ∀ t, String.rev_app s t = String.rev s +:+ t.
Proof.
  unfold String.rev.
  induction s as [|c s IH]; intros t; simpl; [done|].
  rewrite IH, (IH (String c "")).
  by rewrite string_app_assoc.
Qed.

Lemma split_go_not_nil sep s : ∀ cur, split_go sep cur s ≠ [].
Proof.
  induction s as [|c s IH]; intros cur; simpl; [done|].
  destruct (Ascii.eqb c sep); [done|apply IH].
Qed.

Lemma join_cons sep x rest :
  rest ≠ [] → join sep (x :: rest) = x +:+ String sep (join sep rest).
Proof. by destruct rest. Qed.

Lemma join_split_go sep s : ∀ cur,
  join sep (split_go sep cur s) = String.rev_app cur s.
Proof.
  induction s as [|c s IH]; intros cur; simpl; [done|].
  destruct (Ascii.eqb_spec c sep) as [->|Hne].
  - rewrite join_cons by apply split_go_not_nil.
    by rewrite IH, (rev_app_app cur).
  - apply IH.
Qed.

Lemma split_inj sep s t : split sep s = split sep t → s = t.
Proof.
  intros H. apply (f_equal (join sep)) in H.
  unfold split in H. by rewrite !join_split_go in H.
Qed.

Global Instance path_le_antisymm : AntiSymm (=) path_le.
Proof.
  intros p q. unfold path_le, path_compare. intros Hpq Hqp.
  rewrite (parts_compare_antisym (split "/" p) (split "/" q)) in Hqp.
  destruct (parts_compare (split "/" p) (split "/" q)) eqn:Hcmp;
    [|done|done].
  by apply parts_compare_eq, split_inj in Hcmp.
Qed.

(** Entries of one directory compare as their names do. *)
Lemma split_app_sep sep s t : ∀ cur,
  split_go sep cur (s +:+ String sep t)
  = split_go sep cur s ++ split_go sep "" t.
Proof.
  induction s as [|c s IH]; intros cur.
  - change ("" +:+ String sep t) with (String sep t). simpl.
    by rewrite Ascii.eqb_refl.
  - change (String c s +:+ String sep t) with (String c (s +:+ String sep t)).
    simpl. destruct (Ascii.eqb c sep); by rewrite IH.
Qed.

Lemma parts_compare_app l a b :
  parts_compare (l ++ a) (l ++ b) = parts_compare a b.
Proof.
  induction l as [|x l IH]; simpl; [done|].
  by rewrite string_compare_refl.
Qed.

Lemma path_compare_in_dir dir a b :
  contains_char "/" a = false → contains_char "/" b = false →
  path_compare (path_join dir a) (path_join dir b) = String.compare a b.
Proof.
  intros Ha Hb. unfold path_compare, path_join, split.
  change ("/" +:+ ?n) with (String "/" n).
  rewrite !split_app_sep, parts_compare_app.
  rewrite !split_go_plain by done. simpl.
  by destruct (String.compare a b).
Qed.

(** Two digits compare as the numbers they write. *)
Lemma two_digits_compare n n' :
  n < 100 → n' < 100 →
  String.compare (two_digits n) (two_digits n') = Nat.compare n n'.
Proof.
  intros Hn Hn'.
  assert (H : forallb (λ n, forallb (λ n',
                match String.compare (two_digits n) (two_digits n'),
                      Nat.compare n n' with
                | Eq, Eq | Lt, Lt | Gt, Gt => true
                | _, _ => false
                end) (seq 0 100)) (seq 0 100) = true) by (by vm_compute).
  rewrite forallb_forall in H.
  specialize (H n ltac:(apply in_seq; lia)). rewrite forallb_forall in H.
  specialize (H n' ltac:(apply in_seq; lia)).
  by destruct (String.compare _ _), (Nat.compare _ _).
Qed.

Lemma two_digits_length n : String.length (two_digits n) = 2.
Proof. done. Qed.

(** The names of a session compare by image ordinal, then by prompt
    ordinal. *)
Lemma local_filename_of_compare stamp i p t i' p' t' :
  i < 100 → p < 100 → i' < 100 → p' < 100 →
  i < i' ∨ (i = i' ∧ p < p') →
  String.compare (ads_generation.local_filename_of stamp i p t)
                 (ads_generation.local_filename_of stamp i' p' t') = Lt.
Proof.
  intros Hi Hp Hi' Hp' Hlt. unfold ads_generation.local_filename_of.
  rewrite !fmt_02d_two_digits by done.
  rewrite !string_compare_app_prefix.
  rewrite string_compare_app_same_length by done.
  rewrite two_digits_compare by done.
  destruct Hlt as [Hlt|[<- Hlt]].
  - apply Nat.compare_lt_iff in Hlt. by rewrite Hlt.
  - rewrite Nat.compare_refl, string_compare_app_prefix.
    rewrite string_compare_app_same_length by done.
    rewrite two_digits_compare by done.
    apply Nat.compare_lt_iff in Hlt. by rewrite Hlt.
Qed.

Lemma local_path_of_compare folder_path stamp i p d i' p' d' :
  i < 100 → p < 100 → i' < 100 → p' < 100 →
  contains_char "/"
    (ads_generation.local_filename_of stamp i p
       (ads_generation.prompt_fields d).2) = false →
  contains_char "/"
    (ads_generation.local_filename_of stamp i' p'
       (ads_generation.prompt_fields d').2) = false →
  i < i' ∨ (i = i' ∧ p < p') →
  path_compare (local_path_of folder_path stamp i p d)
               (local_path_of folder_path stamp i' p' d') = Lt.
Proof.
  intros Hi Hp Hi' Hp' Hplain Hplain' Hlt.
  unfold local_path_of. rewrite path_compare_in_dir by done.
  by apply local_filename_of_compare.
Qed.

(** X22. In path order, which is the order [sorted] gives the segments
    of a merge, the files of a session come in generation order: a file
    derived for an earlier image, or for the same image and an earlier
    prompt, comes strictly before the other. This holds for ordinals
    below 100, which are written with two digits, and names without
    [/]. *)
Theorem segments_sort_in_generation_order folder_path stamp
    i p d i' p' d' :
  i < 100 → p < 100 → i' < 100 → p' < 100 →
  contains_char "/"
    (ads_generation.local_filename_of stamp i p
       (ads_generation.prompt_fields d).2) = false →
  contains_char "/"
    (ads_generation.local_filename_of stamp i' p'
       (ads_generation.prompt_fields d').2) = false →
  i < i' ∨ (i = i' ∧ p < p') →
  path_compare (local_path_of folder_path stamp i p d)
               (local_path_of folder_path stamp i' p' d') = Lt
  ∧ path_le (local_path_of folder_path stamp i p d)
            (local_path_of folder_path stamp i' p' d')
  ∧ ¬ path_le (local_path_of folder_path stamp i' p' d')
              (local_path_of folder_path stamp i p d).
Proof.
  intros Hi Hp Hi' Hp' Hplain Hplain' Hlt.
  pose proof (local_path_of_compare folder_path stamp i p d i' p' d'
                Hi Hp Hi' Hp' Hplain Hplain' Hlt) as Hcmp.
  split_and!; [done|unfold path_le; by rewrite Hcmp|].
  unfold path_le, path_compare in *.
  rewrite (parts_compare_antisym _ _), Hcmp. simpl. by intros [].
Qed.
End path_order.

Section merge_order.
Import text ads_generation.

Variable env : environment.
Variable folder_path : string.
Variable per_image_analyses : list image_analysis.
Variable num_videos_per_image : Z.
Variable s3_bucket : option string.
Variable use_images : bool.
Variable session_timestamp : option string.

Local Abbreviation generate_ads :=
  (generate_ads env folder_path per_image_analyses num_videos_per_image
                s3_bucket use_images session_timestamp).
Local Abbreviation ts := (session_id env session_timestamp).
Local Abbreviation pairs :=
  (pairs_of num_videos_per_image 1 per_image_analyses).

(** The order in which the loops visit the pairs. *)
Definition pair_lt (a b : nat * nat * prompt_data) : Prop :=
  a.1.1 < b.1.1 ∨ (a.1.1 = b.1.1 ∧ a.1.2 < b.1.2).

Lemma pairs_of_prompts_sorted i : ∀ l p,
  StronglySorted pair_lt (pairs_of_prompts i p l)
  ∧ Forall (λ x, x.1.1 = i ∧ p ≤ x.1.2) (pairs_of_prompts i p l).
Proof.
  induction l as [|d l IH]; intros p; simpl.
  - split; constructor.
  - destruct (IH (S p)) as [Hsorted Hall]. split.
    + constructor; [done|].
      eapply Forall_impl; [exact Hall|].
      intros [[i' p'] d'] [Hi Hp]. right. simpl in *. lia.
    + constructor; [done|].
      eapply Forall_impl; [exact Hall|].
      intros [[i' p'] d'] [Hi Hp]. simpl in *. lia.
Qed.

Lemma pairs_of_sorted : ∀ l i,
  StronglySorted pair_lt (pairs_of num_videos_per_image i l)
  ∧ Forall (λ x, i ≤ x.1.1) (pairs_of num_videos_per_image i l).
Proof.
  induction l as [|a l IH]; intros i; simpl.
  - split; constructor.
  - destruct (IH (S i)) as [Hsorted Hall].
    destruct (pairs_of_prompts_sorted i
                (slice_to num_videos_per_image
                   (default [] (ia_video_prompts a))) 1)
      as [Hsorted1 Hall1].
    split.
    + apply StronglySorted_app_2; [|done..].
      intros x1 x2 H1 H2. rewrite Forall_forall in Hall1, Hall.
      destruct (Hall1 _ H1) as [Hi _]. specialize (Hall _ H2).
      left. lia.
    + apply Forall_app. split.
      * eapply Forall_impl; [exact Hall1|]. intros x [Hi _]. lia.
      * eapply Forall_impl; [exact Hall|]. intros x Hi. simpl in Hi. lia.
Qed.

(** Ordinals that are written with two digits. *)
Definition two_digit_ordinals : Prop :=
  Forall (λ '(i, p, _), i < 100 ∧ p < 100) pairs.

(** A job that is not recorded as successful has no local file. *)
Lemma outcomes_retrieved_successful k0 ps outs :
  outcomes folder_path ts k0 ps outs →
  omap local_filename (List.filter success outs.*1)
  = omap local_filename outs.*1.
Proof.
  induction 1 as [k1|k0 i p d ps r m outs Hm Hr _ IH]; [done|].
  rewrite fmap_cons. simpl.
  destruct (po_local_filename _ _ _ _ _ _ _ Hr) as [Hn|[Hs Hl]].
  - destruct (success r); simpl; rewrite Hn; exact IH.
  - rewrite Hs. simpl. rewrite Hl. f_equal. exact IH.
Qed.

(** The retrieved files of a session are in path order. *)
Lemma outcomes_sorted k0 ps outs :
  outcomes folder_path ts k0 ps outs →
  StronglySorted pair_lt ps →
  Forall (λ '(i, p, d),
            i < 100 ∧ p < 100
            ∧ contains_char "/"
                (local_filename_of ts i p (prompt_fields d).2) = false) ps →
  StronglySorted merge_videos.path_le (omap local_filename outs.*1)
  ∧ Forall (λ q, ∃ i p d, (i, p, d) ∈ ps
                          ∧ q = local_path_of folder_path ts i p d)
           (omap local_filename outs.*1).
Proof.
  induction 1 as [k1|k0 i p d ps r m outs Hm Hr _ IH]; intros Hsorted Hok.
  - split; constructor.
  - apply StronglySorted_inv in Hsorted as [Hsorted Hfirst].
    apply Forall_cons in Hok as [(Hi & Hp & Hplain) Hok].
    destruct (IH Hsorted Hok) as [IHs IHa].
    assert (Htail : Forall (λ q, ∃ i' p' d', (i', p', d') ∈ (i, p, d) :: ps
                      ∧ q = local_path_of folder_path ts i' p' d')
                    (omap local_filename outs.*1)).
    { eapply Forall_impl; [exact IHa|].
      intros q (i' & p' & d' & Hin & ->). exists i', p', d'.
      split; [by right|done]. }
    rewrite fmap_cons. cbn [fst].
    change (omap local_filename (r :: outs.*1))
      with (match local_filename r with
            | Some q => q :: omap local_filename outs.*1
            | None => omap local_filename outs.*1
            end).
    destruct (po_local_filename _ _ _ _ _ _ _ Hr) as [Hn|[_ Hl]].
    + rewrite Hn. done.
    + rewrite Hl. split.
      * constructor; [done|].
        eapply Forall_impl; [exact IHa|].
        intros q (i' & p' & d' & Hin & ->).
        rewrite Forall_forall in Hfirst, Hok.
        specialize (Hfirst _ Hin). specialize (Hok _ Hin).
        destruct Hok as (Hi' & Hp' & Hplain').
        unfold merge_videos.path_le.
        by rewrite (local_path_of_compare folder_path ts i p d i' p' d').
      * constructor; [|done]. exists i, p, d. split; [by left|done].
Qed.

(** X23. After a session that retrieved at least one artifact, the
    segments a session-only merge of its folder resolves are the
    retrieved files of [successful_videos] in the very order the session
    generated them, image by image and prompt by prompt: the merged video
    plays them in generation order. This needs fewer than 100 images and
    prompts per image, so that the ordinals are written with two digits,
    file names without [/] and a session id that is not empty. *)
Theorem merge_keeps_generation_order w rep w' use_timestamp :
  generate_ads w = (Ret (Some rep), w') →
  plain_names env per_image_analyses num_videos_per_image
              session_timestamp →
  two_digit_ordinals →
  session_videos_of (successful_videos rep) ≠ [] →
  ts ≠ "" →
  use_timestamp = None ∨ use_timestamp = Some ts →
  merge_videos.video_files
    (merge_videos.resolve (fs w') (generated_folder folder_path) true
                          use_timestamp)
  = omap local_filename (successful_videos rep).
Proof.
  intros Hrun Hplain Hdigits Hne Hts Huse.
  destruct (session_resolution env folder_path per_image_analyses
              num_videos_per_image s3_bucket use_images session_timestamp
              w rep w' use_timestamp Hrun Hplain Hne Hts Huse)
    as [_ ->].
  cbn [merge_videos.video_files].
  apply generate_ads_inv in Hrun as (bucket & outs & _ & Houts & -> & _).
  destruct (session_progress_results outs) as (_ & Hsucc & _).
  unfold session_report, mk_report. cbn [successful_videos].
  rewrite Hsucc, (outcomes_retrieved_successful _ _ _ Houts).
  assert (Hok : Forall (λ '(i, p, d),
                  i < 100 ∧ p < 100
                  ∧ contains_char "/"
                      (local_filename_of ts i p (prompt_fields d).2) = false)
                pairs).
  { unfold plain_names, two_digit_ordinals in *.
    rewrite Forall_forall in *. intros [[i p] d] Hin.
    specialize (Hplain _ Hin). specialize (Hdigits _ Hin).
    simpl in *. by destruct Hdigits. }
  destruct (outcomes_sorted _ _ _ Houts
              (proj1 (pairs_of_sorted per_image_analyses 1)) Hok)
    as [Hsorted _].
  apply (Sorted_unique merge_videos.path_le).
  - apply sorted_Sorted.
  - by apply StronglySorted_Sorted.
  - apply sorted_Permutation.
Qed.
End merge_order.

(** ** What a listing can return, and merging again *)

Section listings.
Import text merge_videos.

Lemma startswith_app p : ∀ s,
  startswith p s = true → s = p +:+ drop_chars (String.length p) s.
Proof.
  unfold startswith.
  induction p as [|c p IH]; intros [|d s]; simpl; try done.
  destruct (Ascii.ascii_dec c d) as [->|]; [|done].
  intros H. change (String d p +:+ ?t) with (String d (p +:+ t)).
  f_equal. by apply IH.
Qed.

Lemma startswith_same p s : startswith p (p +:+ s) = true.
Proof.
  unfold startswith. induction p as [|c p IH]; [by destruct s|].
  change (String c p +:+ s) with (String c (p +:+ s)). simpl.
  by destruct (Ascii.ascii_dec c c).
Qed.

Lemma drop_chars_app p s : drop_chars (String.length p) (p +:+ s) = s.
Proof.
  induction p as [|c p IH]; [by destruct s|].
  by change (String c p +:+ s) with (String c (p +:+ s)).
Qed.

Lemma length_app_one dir : String.length (dir +:+ "/") = String.length dir + 1.
Proof.
  induction dir as [|c dir IH]; [done|].
  change (String c dir +:+ "/") with (String c (dir +:+ "/")). simpl.
  by rewrite IH.
Qed.

(** An entry of a directory is the directory joined with a plain name. *)
Lemma entry_name_Some dir p name :
  entry_name dir p = Some name →
  p = path_join dir name ∧ contains_char "/" name = false ∧ name ≠ "".
Proof.
  unfold entry_name. destruct (startswith _ p) eqn:Hpre; [|done].
  destruct (contains_char _ _) eqn:Hslash; [done|]. simpl.
  destruct (String.eqb _ "") eqn:Hempty; [done|]. intros [= <-].
  apply startswith_app in Hpre. rewrite length_app_one in Hpre.
  split_and!; [|done|by apply String.eqb_neq].
  unfold path_join. by rewrite <- string_app_assoc.
Qed.

Lemma entry_name_path_join dir name :
  entry_name dir (path_join dir name)
  = if contains_char "/" name || String.eqb name "" then None else Some name.
Proof.
  unfold entry_name, path_join. rewrite <- string_app_assoc.
  by rewrite startswith_same, <- length_app_one, drop_chars_app.
Qed.

Lemma elem_of_glob fs dir pre suf p :
  p ∈ glob fs dir pre suf
  ↔ is_Some (fs !! p)
    ∧ ∃ name, entry_name dir p = Some name ∧ glob_match pre suf name = true.
Proof.
  unfold glob. rewrite list_elem_of_In, filter_In, <- list_elem_of_In.
  rewrite list_elem_of_fmap. split.
  - intros [([q f] & -> & Hin%elem_of_map_to_list) Hp]. simpl in *.
    split; [by eexists|]. destruct (entry_name dir q); [eauto|done].
  - intros [[f Hf] (name & Hname & Hmatch)]. split.
    + exists (p, f). split; [done|]. by apply elem_of_map_to_list.
    + by rewrite Hname.
Qed.

Lemma NoDup_glob fs dir pre suf : NoDup (glob fs dir pre suf).
Proof.
  unfold glob. apply NoDup_ListNoDup, List.NoDup_filter, NoDup_ListNoDup.
  apply NoDup_fst_map_to_list.
Qed.

(** Two stores that hold the same matching entries list the same paths. *)
Lemma glob_Permutation fs fs' dir pre suf :
  (∀ p name, entry_name dir p = Some name →
             glob_match pre suf name = true →
             (is_Some (fs' !! p) ↔ is_Some (fs !! p))) →
  glob fs' dir pre suf ≡ₚ glob fs dir pre suf.
Proof.
  intros Hsame. apply NoDup_Permutation; [apply NoDup_glob..|].
  intros p. rewrite !elem_of_glob. split.
  - intros [Hp (name & Hname & Hmatch)]. split; [|eauto].
    by apply (Hsame p name).
  - intros [Hp (name & Hname & Hmatch)]. split; [|eauto].
    by apply (Hsame p name).
Qed.

Lemma sorted_Permutation_eq l k : l ≡ₚ k → sorted l = sorted k.
Proof.
  intros Hperm. apply (Sorted_unique path_le); try apply sorted_Sorted.
  by rewrite !sorted_Permutation.
Qed.

Lemma elem_of_sorted p l : p ∈ sorted l ↔ p ∈ l.
Proof. by rewrite sorted_Permutation. Qed.

End listings.

(** ** The segments of a merge, and merging again *)

Section segments.
Import text ads_generation merge_videos.

Lemma truthy_inv o t : truthy o = Some t → o = Some t ∧ t ≠ "".
Proof. destruct o as [[|c s]|]; simpl; by intros [= <-]. Qed.

(** The three ways a segment list comes about. *)
Lemma resolve_cases fs0 dir session_only0 use_timestamp :
  let r := resolve fs0 dir session_only0 use_timestamp in
  (∃ t, session_timestamp r = Some t ∧ used r = by_manifest
        ∧ video_files r = sorted (manifest_videos fs0 dir t))
  ∨ (∃ t, session_timestamp r = Some t ∧ used r = by_pattern
          ∧ video_files r = sorted (pattern_videos fs0 dir t))
  ∨ (used r = by_scan ∧ video_files r = sorted (all_videos_in fs0 dir)).
Proof.
  unfold resolve. destruct session_only0; [|by right; right].
  set (ts := match truthy use_timestamp with
             | Some _ => use_timestamp
             | None => get_latest_session_timestamp fs0 dir
             end).
  destruct (truthy ts) as [t|] eqn:Ht; [|by right; right].
  apply truthy_inv in Ht as [Hts _].
  destruct (manifest_videos fs0 dir t) as [|v vs] eqn:Hm.
  - destruct (pattern_videos fs0 dir t) as [|v vs] eqn:Hp;
      [by right; right|].
    right; left. exists t. by rewrite Hp.
  - left. exists t. by rewrite Hm.
Qed.

Lemma elem_of_manifest_videos fs0 dir t p :
  p ∈ manifest_videos fs0 dir t →
  is_Some (fs0 !! p)
  ∧ ∃ f names name,
      fs0 !! path_join dir (session_file_name t) = Some f
      ∧ load_session_videos f = Ret names
      ∧ name ∈ names ∧ p = path_join dir name.
Proof.
  unfold manifest_videos.
  destruct (fs0 !! path_join dir (session_file_name t)) as [f|] eqn:Hf;
    [|by intros ?%elem_of_nil].
  destruct (load_session_videos f) as [names|] eqn:Hnames;
    [|by intros ?%elem_of_nil].
  rewrite list_elem_of_In, filter_In, <- list_elem_of_In, list_elem_of_fmap.
  intros [(name & -> & Hin) Hex]. split.
  - unfold exists_in in Hex. by apply bool_decide_eq_true in Hex.
  - by exists f, names, name.
Qed.

Lemma startswith_longer p q s :
  startswith (p +:+ q) s = true → startswith p s = true.
Proof.
  intros H%startswith_app. rewrite H, string_app_assoc.
  apply startswith_same.
Qed.


End segments.

Section merging_again.
Import text ads_generation merge_videos.

Lemma drop_chars_last_char n : ∀ s x,
  drop_chars n s = x → x ≠ "" → last_char s = last_char x.
Proof.
  induction n as [|n IH]; intros s x; [by intros <-|].
  destruct s as [|c s]; [by intros <-|]. simpl. intros Hx Hne.
  rewrite <- (IH s x Hx Hne). destruct s; [|done].
  destruct n; simpl in Hx; by subst.
Qed.

Lemma endswith_last_char suf s :
  endswith suf s = true → suf ≠ "" → last_char s = last_char suf.
Proof.
  unfold endswith. intros [_ Heq%String.eqb_eq]%andb_true_iff Hne.
  by apply (drop_chars_last_char _ _ _ Heq).
Qed.

Lemma startswith_cons a p b s :
  startswith (String a p) (String b s)
  = if Ascii.ascii_dec a b then startswith p s else false.
Proof. reflexivity. Qed.

(** The names a merge writes under, seen from the folder [dir]. *)
Variables (dir stamp now : string).
Local Abbreviation output_path :=
  (path_join dir ("merged_" +:+ stamp +:+ ".mp4")).
Local Abbreviation report_path :=
  (path_join dir ("merge_report_" +:+ now +:+ ".json")).
Local Abbreviation concat_file := (concat_list_of output_path).

Definition written_by_merge (q : string) : Prop :=
  q = output_path ∨ q = concat_file ∨ q = report_path.

Lemma last_char_concat_file : last_char concat_file = Some "t"%char.
Proof.
  unfold concat_list_of. by rewrite last_char_path_join.
Qed.

(** No pattern the merge lists by matches a name the merge writes under. *)
Lemma written_not_listed pre suf c q name :
  c ≠ "m"%char → suf ≠ "" → last_char suf ≠ Some "t"%char →
  written_by_merge q →
  entry_name dir q = Some name →
  glob_match (String c pre) suf name = false.
Proof.
  intros Hc Hsuf Hlast Hq Hname. unfold glob_match.
  assert (Hm : ∀ rest, startswith (String c pre) (String "m" rest) = false).
  { intros rest. rewrite startswith_cons.
    by destruct (Ascii.ascii_dec c "m"). }
  destruct Hq as [->|[->| ->]].
  - rewrite entry_name_path_join in Hname.
    destruct (_ || _); [done|]. injection Hname as <-.
    change ("merged_" +:+ ?x) with (String "m" ("erged_" +:+ x)).
    by rewrite Hm.
  - destruct (endswith suf name) eqn:Hends; [|by rewrite andb_false_r].
    apply endswith_last_char in Hends; [|done].
    apply entry_name_Some in Hname as (Heq & _ & Hne).
    apply (f_equal last_char) in Heq.
    rewrite last_char_concat_file, last_char_path_join in Heq by done.
    congruence.
  - rewrite entry_name_path_join in Hname.
    destruct (_ || _); [done|]. injection Hname as <-.
    change ("merge_report_" +:+ ?x)
      with (String "m" ("erge_report_" +:+ x)).
    by rewrite Hm.
Qed.

(** A name that begins with a letter other than m and ends in a letter
    other than t is none of the names the merge writes under. *)
Lemma not_written c rest :
  c ≠ "m"%char → (∃ d, last_char (String c rest) = Some d ∧ d ≠ "t"%char) →
  ¬ written_by_merge (path_join dir (String c rest)).
Proof.
  intros Hc (d & Hlast & Hd) [H|[H|H]].
  - apply path_join_inj in H.
    change ("merged_" +:+ ?x) with (String "m" ("erged_" +:+ x)) in H.
    congruence.
  - apply (f_equal last_char) in H.
    rewrite last_char_concat_file, last_char_path_join in H by done.
    congruence.
  - apply path_join_inj in H.
    change ("merge_report_" +:+ ?x)
      with (String "m" ("erge_report_" +:+ x)) in H.
    congruence.
Qed.

Variables (fs0 fs1 : gmap string file).
Hypothesis frame : ∀ q, ¬ written_by_merge q → fs1 !! q = fs0 !! q.

Lemma glob_after_merge pre suf c :
  c ≠ "m"%char → suf ≠ "" → last_char suf ≠ Some "t"%char →
  sorted (glob fs1 dir (String c pre) suf)
  = sorted (glob fs0 dir (String c pre) suf).
Proof.
  intros Hc Hsuf Hlast. apply sorted_Permutation_eq, glob_Permutation.
  intros p name Hname Hmatch. rewrite frame; [done|]. intros Hq.
  by rewrite (written_not_listed pre suf c p name) in Hmatch.
Qed.

Lemma latest_after_merge :
  get_latest_session_timestamp fs1 dir = get_latest_session_timestamp fs0 dir.
Proof.
  unfold get_latest_session_timestamp.
  change "session_videos_" with (String "s" "ession_videos_").
  rewrite glob_after_merge by done.
  rewrite frame; [done|]. by apply not_written; [|exists "n"%char].
Qed.

Lemma pattern_after_merge t :
  pattern_videos fs1 dir t = pattern_videos fs0 dir t.
Proof.
  unfold pattern_videos.
  change ("video_" +:+ ?x) with (String "v" ("ideo_" +:+ x)).
  by rewrite glob_after_merge.
Qed.

Lemma scan_after_merge : all_videos_in fs1 dir = all_videos_in fs0 dir.
Proof.
  unfold all_videos_in. change "video_" with (String "v" "ideo_").
  by rewrite glob_after_merge.
Qed.

(** The names a manifest lists are those of videos. *)
Definition lists_videos (names : list string) : Prop :=
  Forall (λ name, startswith "video_" name = true
                  ∧ endswith ".mp4" name = true) names.

Lemma video_not_written name :
  startswith "video_" name = true → endswith ".mp4" name = true →
  ¬ written_by_merge (path_join dir name).
Proof.
  intros Hpre Hsuf. destruct name as [|c rest]; [done|].
  assert (c = "v"%char) as ->.
  { rewrite startswith_cons in Hpre.
    by destruct (Ascii.ascii_dec "v" c) as [<-|]. }
  apply not_written; [done|]. exists "4"%char. split; [|done].
  by rewrite (endswith_last_char ".mp4" _ Hsuf).
Qed.

Lemma session_file_not_written t :
  ¬ written_by_merge (path_join dir (session_file_name t)).
Proof.
  assert (Hlast : last_char (session_file_name t) = Some "n"%char).
  { unfold session_file_name.
    rewrite last_char_app by (by apply app_not_empty).
    by rewrite last_char_app. }
  unfold session_file_name in *.
  change ("session_videos_" +:+ ?x)
    with (String "s" ("ession_videos_" +:+ x)) in *.
  apply not_written; [done|]. by exists "n"%char.
Qed.

Lemma manifest_after_merge t :
  (∀ f names, fs0 !! path_join dir (session_file_name t) = Some f →
              load_session_videos f = Ret names → lists_videos names) →
  manifest_videos fs1 dir t = manifest_videos fs0 dir t.
Proof.
  intros Hlisted. unfold manifest_videos.
  rewrite frame by apply session_file_not_written.
  destruct (fs0 !! _) as [f|] eqn:Hf; [|done].
  destruct (load_session_videos f) as [names|] eqn:Hnames; [|done].
  specialize (Hlisted f names eq_refl Hnames).
  apply List.filter_ext_in. intros p Hin%list_elem_of_In.
  apply list_elem_of_fmap in Hin as (name & -> & Hin).
  unfold lists_videos in Hlisted. rewrite Forall_forall in Hlisted.
  destruct (Hlisted name Hin) as [Hpre Hsuf].
  unfold exists_in. by rewrite frame by (by apply video_not_written).
Qed.

Lemma resolve_after_merge session_only0 use_timestamp :
  (∀ t f names,
     session_timestamp (resolve fs0 dir session_only0 use_timestamp)
     = Some t →
     fs0 !! path_join dir (session_file_name t) = Some f →
     load_session_videos f = Ret names → lists_videos names) →
  resolve fs1 dir session_only0 use_timestamp
  = resolve fs0 dir session_only0 use_timestamp.
Proof.
  unfold resolve. rewrite latest_after_merge, scan_after_merge.
  destruct session_only0; [|done].
  set (ts := match truthy use_timestamp with
             | Some _ => use_timestamp
             | None => get_latest_session_timestamp fs0 dir
             end).
  destruct (truthy ts) as [t|] eqn:Ht; [|done].
  intros Hlisted. rewrite pattern_after_merge, manifest_after_merge; [done|].
  apply truthy_inv in Ht as [Hts _]. intros f names. apply Hlisted.
  by destruct (manifest_videos fs0 dir t), (pattern_videos fs0 dir t).
Qed.

End merging_again.

Section merging_twice.
Import text ads_generation merge_videos.

(** X25. A merge of a folder changes no file but its output, its report
    and the temporary list; when the manifest of the session, if there is
    one, lists names that begin with video_ and end in .mp4, the segments
    are left as they were, and a second merge of the folder settles on the
    same segments, session id and strategy as the first. *)
Theorem merging_again_takes_the_same_segments tl folder_path transition T
    session_only0 use_timestamp w :
  let r := resolve (fs w) folder_path session_only0 use_timestamp in
  let w' := (merge_generated_videos tl folder_path transition T
               session_only0 use_timestamp w).2 in
  (∀ t f names,
     session_timestamp r = Some t →
     fs w !! path_join folder_path (session_file_name t) = Some f →
     load_session_videos f = Ret names → lists_videos names) →
  (∀ q, ¬ written_by_merge folder_path
            (default (strftime_now tl) (merge_scope r)) (strftime_now tl) q →
        fs w' !! q = fs w !! q)
  ∧ Forall (λ p, fs w' !! p = fs w !! p) (video_files r)
  ∧ resolve (fs w') folder_path session_only0 use_timestamp = r.
Proof.
  intros r w' Hlisted.
  set (stamp := default (strftime_now tl) (merge_scope r)).
  assert (Hframe : ∀ q,
            ¬ written_by_merge folder_path stamp (strftime_now tl) q →
            fs w' !! q = fs w !! q).
  { destruct (merge_generated_videos_spec tl folder_path transition T
                session_only0 use_timestamp w)
      as (ok & w1 & added & Hrun & _ & _ & _ & _ & Hframe).
    unfold w'. rewrite Hrun. cbn [snd]. intros q Hq.
    assert (Hname : merged_name tl r = "merged_" +:+ stamp +:+ ".mp4").
    { unfold merged_name, stamp. by destruct (merge_scope r). }
    fold r in Hframe. rewrite Hname in Hframe.
    apply Hframe; intros ->; apply Hq; unfold written_by_merge; auto. }
  split; [done|]. split; [|by apply (resolve_after_merge _ stamp
                                       (strftime_now tl))].
  apply Forall_forall. intros p Hp. apply Hframe.
  destruct (resolve_cases (fs w) folder_path session_only0 use_timestamp)
    as [(t & Hts & _ & Hfiles)|[(t & _ & _ & Hfiles)|[_ Hfiles]]];
    fold r in Hfiles; rewrite Hfiles, elem_of_sorted in Hp.
  - apply elem_of_manifest_videos
      in Hp as (_ & f & names & name & Hf & Hnames & Hin & ->).
    specialize (Hlisted t f names Hts Hf Hnames).
    unfold lists_videos in Hlisted. rewrite Forall_forall in Hlisted.
    destruct (Hlisted name Hin). by apply video_not_written.
  - unfold pattern_videos in Hp. rewrite elem_of_sorted in Hp.
    apply elem_of_glob in Hp as (_ & name & Hname & Hmatch). intros Hq.
    change ("video_" +:+ ?x) with (String "v" ("ideo_" +:+ x)) in Hmatch.
    by rewrite (written_not_listed folder_path stamp (strftime_now tl)
                  _ ".mp4" "v" p name) in Hmatch.
  - unfold all_videos_in in Hp. rewrite elem_of_sorted in Hp.
    apply elem_of_glob in Hp as (_ & name & Hname & Hmatch). intros Hq.
    change "video_" with (String "v" "ideo_") in Hmatch.
    by rewrite (written_not_listed folder_path stamp (strftime_now tl)
                  _ ".mp4" "v" p name) in Hmatch.
Qed.

End merging_twice.

(** ** The folder a session leaves, as the listings see it *)

Section listing_after_session.
Import text ads_generation.

Variable env : environment.
Variable folder_path : string.
Variable per_image_analyses : list image_analysis.
Variable num_videos_per_image : Z.
Variable s3_bucket : option string.
Variable use_images : bool.
Variable session_timestamp : option string.

Local Abbreviation generate_ads :=
  (generate_ads env folder_path per_image_analyses num_videos_per_image
                s3_bucket use_images session_timestamp).
Local Abbreviation ts := (session_id env session_timestamp).
Local Abbreviation pairs :=
  (pairs_of num_videos_per_image 1 per_image_analyses).
Local Abbreviation dir := (generated_folder folder_path).

Lemma endswith_same s suf : endswith suf (s +:+ suf) = true.
Proof.
  unfold endswith. rewrite string_app_length.
  replace (String.length s + String.length suf - String.length suf)
    with (String.length s) by lia.
  rewrite drop_chars_app, String.eqb_refl, andb_true_r.
  apply Nat.leb_le. lia.
Qed.

Lemma glob_match_app pre mid suf :
  merge_videos.glob_match pre suf (pre +:+ mid +:+ suf) = true.
Proof.
  unfold merge_videos.glob_match. rewrite startswith_same.
  rewrite <- (string_app_assoc pre mid suf), endswith_same.
  rewrite !string_app_length. apply Nat.leb_le. lia.
Qed.

(** The name of a video matches the pattern of its session, and the
    pattern of all videos. *)
Lemma local_filename_of_matches stamp i p type_name :
  merge_videos.glob_match ("video_" +:+ stamp +:+ "_") ".mp4"
    (local_filename_of stamp i p type_name) = true
  ∧ merge_videos.glob_match "video_" ".mp4"
      (local_filename_of stamp i p type_name) = true.
Proof.
  unfold local_filename_of.
  set (rest := fmt_02d i +:+ "_" +:+ fmt_02d p +:+ "_" +:+ slug type_name).
  split.
  - replace ("video_" +:+ stamp +:+ "_" +:+ fmt_02d i +:+ "_" +:+ fmt_02d p
             +:+ "_" +:+ slug type_name +:+ ".mp4")
      with (("video_" +:+ stamp +:+ "_") +:+ rest +:+ ".mp4")
      by (unfold rest; by rewrite !string_app_assoc).
    apply glob_match_app.
  - replace ("video_" +:+ stamp +:+ "_" +:+ fmt_02d i +:+ "_" +:+ fmt_02d p
             +:+ "_" +:+ slug type_name +:+ ".mp4")
      with ("video_" +:+ (stamp +:+ "_" +:+ rest) +:+ ".mp4")
      by (unfold rest; by rewrite !string_app_assoc).
    apply glob_match_app.
Qed.

(** The files after the jobs: the retrieved ones hold a video, the others
    are as before. *)
Lemma after_pairs_fs outs : ∀ w q,
  fs (foldl after_pair w outs) !! q
  = if decide (q ∈ omap local_filename outs.*1) then Some FVideo
    else fs w !! q.
Proof.
  induction outs as [|[r m] outs IH]; intros w q.
  - rewrite decide_False; [done|]. by intros ?%elem_of_nil.
  - rewrite fmap_cons. cbn [foldl fst]. rewrite IH.
    change (omap local_filename (r :: outs.*1))
      with (match local_filename r with
            | Some p => p :: omap local_filename outs.*1
            | None => omap local_filename outs.*1
            end).
    unfold after_pair, retrieval_fs. cbn [fs fst].
    destruct (local_filename r) as [p|]; [|done].
    destruct (decide (q ∈ omap local_filename outs.*1)) as [Hin|Hout].
    + by rewrite decide_True by (by right).
    + destruct (decide (q = p)) as [->|Hne].
      * rewrite decide_True by (by left). apply lookup_insert_eq.
      * rewrite lookup_insert_ne by done.
        rewrite decide_False; [done|].
        by intros [?|?]%elem_of_cons.
Qed.

(** The retrieved files of a session are pairwise different. *)
Lemma outcomes_NoDup k0 ps outs :
  outcomes folder_path ts k0 ps outs →
  StronglySorted pair_lt ps →
  Forall (λ '(i, p, d),
            i < 100 ∧ p < 100
            ∧ contains_char "/"
                (local_filename_of ts i p (prompt_fields d).2) = false) ps →
  NoDup (omap local_filename outs.*1).
Proof.
  induction 1 as [k1|k0 i p d ps r m outs Hm Hr Houts IH];
    intros Hsorted Hok; [constructor|].
  apply StronglySorted_inv in Hsorted as [Hsorted Hfirst].
  apply Forall_cons in Hok as [(Hi & Hp & Hplain) Hok].
  rewrite fmap_cons. cbn [fst].
  change (omap local_filename (r :: outs.*1))
    with (match local_filename r with
          | Some q => q :: omap local_filename outs.*1
          | None => omap local_filename outs.*1
          end).
  destruct (po_local_filename _ _ _ _ _ _ _ Hr) as [Hn|[_ Hl]].
  - rewrite Hn. by apply IH.
  - rewrite Hl. constructor; [|by apply IH].
    intros Hin.
    destruct (outcomes_sorted env folder_path session_timestamp _ _ _
                Houts Hsorted Hok) as [_ Hall].
    rewrite Forall_forall in Hall. rewrite Forall_forall in Hfirst, Hok.
    destruct (Hall _ Hin) as (i' & p' & d' & Hin' & Heq).
    specialize (Hfirst _ Hin'). specialize (Hok _ Hin').
    destruct Hok as (Hi' & Hp' & Hplain').
    pose proof (local_path_of_compare folder_path ts i p d i' p' d'
                  Hi Hp Hi' Hp' Hplain Hplain' Hfirst) as Hlt.
    rewrite <- Heq in Hlt. unfold merge_videos.path_compare in Hlt.
    by rewrite parts_compare_refl in Hlt.
Qed.

(** The listing of the folder after a session, for a pattern that every
    video name matches and no earlier entry does. *)
Lemma listing_after_session pre w rep w' :
  generate_ads w = (Ret (Some rep), w') →
  plain_names env per_image_analyses num_videos_per_image
              session_timestamp →
  two_digit_ordinals per_image_analyses num_videos_per_image →
  (∀ i p type_name,
     merge_videos.glob_match (String "v" pre) ".mp4"
       (local_filename_of ts i p type_name) = true) →
  merge_videos.glob (fs w) dir (String "v" pre) ".mp4" = [] →
  merge_videos.sorted (merge_videos.glob (fs w') dir (String "v" pre) ".mp4")
  = omap local_filename (successful_videos rep)
  ∧ Sorted merge_videos.path_le (omap local_filename (successful_videos rep)).
Proof.
  intros Hrun Hplain Hdigits Hmatch Hfresh.
  apply generate_ads_inv in Hrun as (bucket & outs & _ & Houts & -> & ->).
  destruct (session_progress_results outs) as (_ & Hsucc & _).
  unfold session_report, mk_report. cbn [successful_videos].
  rewrite Hsucc,
    (outcomes_retrieved_successful env folder_path session_timestamp
       _ _ _ Houts).
  assert (Hok : Forall (λ '(i, p, d),
                  i < 100 ∧ p < 100
                  ∧ contains_char "/"
                      (local_filename_of ts i p (prompt_fields d).2) = false)
                pairs).
  { unfold plain_names, two_digit_ordinals in *.
    rewrite Forall_forall in *. intros [[i p] d] Hin.
    specialize (Hplain _ Hin). specialize (Hdigits _ Hin).
    simpl in *. by destruct Hdigits. }
  pose proof (proj1 (pairs_of_sorted num_videos_per_image
                       per_image_analyses 1)) as Hpairs.
  destruct (outcomes_sorted env folder_path session_timestamp _ _ _
              Houts Hpairs Hok) as [Hsorted Hall].
  pose proof (outcomes_NoDup _ _ _ Houts Hpairs Hok) as Hnodup.
  split; [|by apply StronglySorted_Sorted].
  apply (Sorted_unique merge_videos.path_le);
    [apply sorted_Sorted|by apply StronglySorted_Sorted|].
  rewrite sorted_Permutation.
  apply NoDup_Permutation; [apply NoDup_glob|done|].
  assert (Hfs : ∀ q name,
            merge_videos.entry_name dir q = Some name →
            merge_videos.glob_match (String "v" pre) ".mp4" name = true →
            fs (after_session env folder_path num_videos_per_image bucket
                  use_images ts per_image_analyses outs w) !! q
            = fs (foldl after_pair w outs) !! q).
  { intros q name (-> & _ & _)%entry_name_Some Hm.
    unfold merge_videos.glob_match in Hm.
    apply andb_true_iff in Hm as [[Hm _]%andb_true_iff _].
    apply after_session_frame; intros Heq%path_join_inj; subst name.
    - unfold report_name in Hm.
      change ("generation_report_" +:+ ?x)
        with (String "g" ("eneration_report_" +:+ x)) in Hm.
      by rewrite startswith_cons in Hm.
    - unfold session_file_name in Hm.
      change ("session_videos_" +:+ ?x)
        with (String "s" ("ession_videos_" +:+ x)) in Hm.
      by rewrite startswith_cons in Hm.
    - unfold latest_session_name in Hm.
      by rewrite startswith_cons in Hm. }
  intros q. rewrite elem_of_glob. split.
  - intros [Hq (name & Hname & Hm)].
    rewrite (Hfs q name Hname Hm), after_pairs_fs in Hq.
    destruct (decide (q ∈ omap local_filename outs.*1)); [done|].
    assert (Hin : q ∈ merge_videos.glob (fs w) dir (String "v" pre) ".mp4")
      by (apply elem_of_glob; eauto).
    rewrite Hfresh in Hin. by apply elem_of_nil in Hin.
  - intros Hin. rewrite Forall_forall in Hall. rewrite Forall_forall in Hok.
    destruct (Hall q Hin) as (i & p & d & Hpair & ->).
    destruct (Hok _ Hpair) as (_ & _ & Hslash).
    assert (Hname : merge_videos.entry_name dir
                      (local_path_of folder_path ts i p d)
                    = Some (local_filename_of ts i p (prompt_fields d).2)).
    { unfold local_path_of. by rewrite entry_name_path_join, Hslash. }
    split; [|eauto].
    rewrite (Hfs _ _ Hname (Hmatch _ _ _)), after_pairs_fs.
    by rewrite decide_True.
Qed.


End listing_after_session.

(** ** From the session to the merged video *)

Section session_then_merge.
Import text ads_generation.

Variable env : environment.
Variable folder_path : string.
Variable per_image_analyses : list image_analysis.
Variable num_videos_per_image : Z.
Variable s3_bucket : option string.
Variable use_images : bool.
Variable session_timestamp : option string.
Variable tl : merge_videos.tools.

Local Abbreviation generate_ads :=
  (generate_ads env folder_path per_image_analyses num_videos_per_image
                s3_bucket use_images session_timestamp).
Local Abbreviation ts := (session_id env session_timestamp).
Local Abbreviation pairs :=
  (pairs_of num_videos_per_image 1 per_image_analyses).
Local Abbreviation dir := (generated_folder folder_path).

(** The retrieved files of a report are in path order. *)
Lemma retrieved_in_path_order w rep w' :
  generate_ads w = (Ret (Some rep), w') →
  plain_names env per_image_analyses num_videos_per_image
              session_timestamp →
  two_digit_ordinals per_image_analyses num_videos_per_image →
  merge_videos.sorted (omap local_filename (successful_videos rep))
  = omap local_filename (successful_videos rep).
Proof.
  intros Hrun Hplain Hdigits.
  apply generate_ads_inv in Hrun as (bucket & outs & _ & Houts & -> & _).
  destruct (session_progress_results outs) as (_ & Hsucc & _).
  unfold session_report, mk_report. cbn [successful_videos].
  rewrite Hsucc,
    (outcomes_retrieved_successful env folder_path session_timestamp
       _ _ _ Houts).
  assert (Hok : Forall (λ '(i, p, d),
                  i < 100 ∧ p < 100
                  ∧ contains_char "/"
                      (local_filename_of ts i p (prompt_fields d).2) = false)
                pairs).
  { unfold plain_names, two_digit_ordinals in *.
    rewrite Forall_forall in *. intros [[i p] d] Hin.
    specialize (Hplain _ Hin). specialize (Hdigits _ Hin).
    simpl in *. by destruct Hdigits. }
  destruct (outcomes_sorted env folder_path session_timestamp _ _ _ Houts
              (proj1 (pairs_of_sorted num_videos_per_image
                        per_image_analyses 1)) Hok) as [Hsorted _].
  apply (Sorted_unique merge_videos.path_le);
    [apply sorted_Sorted|by apply StronglySorted_Sorted
    |apply sorted_Permutation].
Qed.

(** A folder merge without transitions whose ffmpeg run exits with
    status 0 succeeds. *)
Lemma merge_generated_videos_succeeds T session_only0 use_timestamp w :
  let r := merge_videos.resolve (fs w) dir session_only0 use_timestamp in
  let output_path := path_join dir (merged_name tl r) in
  merge_videos.dir_exists tl dir = true →
  merge_videos.video_files r ≠ [] →
  merge_videos.ffmpeg tl
    (merge_videos.concat_copy (concat_list_of output_path) output_path)
  = Ret 0%Z →
  (merge_videos.merge_generated_videos tl dir false T session_only0
     use_timestamp w).1 = Ret true.
Proof.
  intros r output_path Hdir Hne Hffmpeg.
  unfold merge_videos.merge_generated_videos. rewrite Hdir. simpl.
  fold r. destruct (merge_videos.video_files r) as [|first rest]; [done|].
  fold (merge_scope r). fold (merged_name tl r). fold output_path.
  unfold bind at 1. rewrite merge_videos_concat_spec. cbv zeta.
  by rewrite Hffmpeg.
Qed.

(** X27. Generation and merge compose: after a session that retrieved at
    least one file, a session-only merge of its folder without
    transitions, with a folder check and an ffmpeg run that succeed,
    returns True and the merge script exits with status 0. ffmpeg has
    then been given the retrieved files in generation order, the output
    is merged_<session id>.mp4, the merge report names the session and
    lists the names the manifest lists, and the retrieved files are
    still there. *)
Theorem session_then_merge T w rep w1 :
  let output_path := path_join dir ("merged_" +:+ ts +:+ ".mp4") in
  let args :=
    {| merge_videos.folder := dir; merge_videos.arg_transition := false;
       merge_videos.arg_transition_duration := T;
       merge_videos.all_videos := false;
       merge_videos.arg_timestamp := None;
       merge_videos.videos := None |} in
  generate_ads w = (Ret (Some rep), w1) →
  plain_names env per_image_analyses num_videos_per_image
              session_timestamp →
  two_digit_ordinals per_image_analyses num_videos_per_image →
  session_videos_of (successful_videos rep) ≠ [] →
  ts ≠ "" →
  merge_videos.ffmpeg_installed tl = true →
  merge_videos.dir_exists tl dir = true →
  merge_videos.ffmpeg tl
    (merge_videos.concat_copy (concat_list_of output_path) output_path)
  = Ret 0%Z →
  ∃ w2 report,
    merge_videos.merge_generated_videos tl dir false T true None w1
    = (Ret true, w2)
    ∧ merge_videos.main tl args w1 = (Ret 0%Z, w2)
    ∧ merged_segments (trace w2)
      = merged_segments (trace w1)
        ++ [omap local_filename (successful_videos rep)]
    ∧ fs w2 !! output_path = Some FVideo
    ∧ fs w2 !! merge_report_path tl dir = Some (FMergeReport report)
    ∧ mr_session_timestamp report = Some ts
    ∧ source_videos report = session_videos_of (successful_videos rep)
    ∧ output_video report = "merged_" +:+ ts +:+ ".mp4"
    ∧ ∀ r p, r ∈ successful_videos rep → local_filename r = Some p →
        fs w2 !! p = Some FVideo.
Proof.
  intros output_path args Hrun Hplain Hdigits Hne Hts Hinstalled Hdir
    Hffmpeg.
  destruct (session_resolution env folder_path per_image_analyses
              num_videos_per_image s3_bucket use_images session_timestamp
              w rep w1 None Hrun Hplain Hne Hts ltac:(by left))
    as [_ Hres].
  rewrite (retrieved_in_path_order w rep w1 Hrun Hplain Hdigits) in Hres.
  set (files := omap local_filename (successful_videos rep)) in *.
  assert (Hfiles : files ≠ []).
  { intros Hnil. apply Hne. rewrite session_videos_of_names.
    fold files. by rewrite Hnil. }
  assert (Hname : merged_name tl
                    (merge_videos.resolve (fs w1) dir true None)
                  = "merged_" +:+ ts +:+ ".mp4").
  { rewrite Hres. unfold merged_name, merge_scope.
    cbn [merge_videos.session_only merge_videos.session_timestamp].
    by rewrite truthy_Some. }
  pose proof (merge_generated_videos_succeeds T true None w1) as Hok.
  pose proof (merge_generated_videos_spec tl dir false T true None w1)
    as Hspec.
  cbv zeta in Hok, Hspec.
  destruct Hspec
    as (ok & w2 & added & Hmerge & Htrace & _ & Hthen & _ & Hframe).
  rewrite Hname in Hok, Hthen, Hframe. fold output_path in Hok, Hthen, Hframe.
  rewrite Hres in Hok, Hthen.
  cbn [merge_videos.video_files merge_videos.session_only
       merge_videos.session_timestamp] in Hok, Hthen.
  rewrite Hmerge in Hok. cbn [fst] in Hok.
  injection (Hok Hdir Hfiles Hffmpeg) as ->.
  destruct (Hthen eq_refl) as (_ & _ & Hout & Hwrite & Hreport).
  eexists w2, _. split_and!; [done| |
    |exact Hout|exact Hreport|done
    |by cbn [source_videos]; rewrite session_videos_of_names|done|].
  - unfold merge_videos.main. rewrite Hinstalled. cbn [negb].
    unfold args at 1. cbn [merge_videos.videos].
    unfold bind, args.
    cbn [merge_videos.folder merge_videos.arg_transition
         merge_videos.arg_transition_duration merge_videos.all_videos
         merge_videos.arg_timestamp negb].
    by rewrite Hmerge.
  - destruct (merge_generated_videos_merges tl dir false T true None w1)
      as (ok' & w2' & Hmerge' & Hsegs).
    rewrite Hmerge in Hmerge'. injection Hmerge' as <- <-.
    rewrite Hres in Hsegs. cbn [merge_videos.video_files] in Hsegs.
    by destruct Hsegs as [[_ Hsegs]|[[=] _]].
  - intros r p Hr Hp.
    destruct (retrieved_files_are_on_disk_aux env folder_path
                per_image_analyses num_videos_per_image s3_bucket
                use_images session_timestamp w rep w1 Hrun r p Hr Hp)
      as (Hfs & i & pi & d & _ & ->).
    rewrite <- Hfs. unfold local_path_of.
    pose proof (video_not_written dir ts (merge_videos.strftime_now tl)
                  (local_filename_of ts i pi (prompt_fields d).2)) as Hnot.
    destruct (local_filename_of_matches ts i pi (prompt_fields d).2)
      as [_ Hmatch].
    unfold merge_videos.glob_match in Hmatch.
    apply andb_true_iff in Hmatch as [[Hpre Hsuf]%andb_true_iff _].
    specialize (Hnot Hpre Hsuf).
    apply Hframe; intros Heq; apply Hnot; unfold written_by_merge;
      rewrite Heq; auto.
Qed.

End session_then_merge.

(** ** Further sample services *)

Module more_samples.
Import text ads_generation.

(** A service whose jobs are in progress for two status reads; then the
    job "fail" fails and any other completes. *)
Definition patient : bedrock_client :=
  {| start_async_invoke := λ _ input _,
       Ret {| invocationArn := Some (mi_prompt input) |};
     get_async_invoke := λ arn a,
       if a <? 2 then Ret (samples.answer arn "InProgress")
       else if String.eqb arn "fail"
            then Ret {| status := Some "Failed"; outputDataConfig := None;
                        failureReason := Some "content policy" |}
            else Ret (samples.answer arn "Completed") |}.

(** A service that leaves keys out: no name for the job "unnamed", no
    status for the job "mute", no output location for any job. *)
Definition terse : bedrock_client :=
  {| start_async_invoke := λ _ input _,
       Ret {| invocationArn :=
                if String.eqb (mi_prompt input) "unnamed" then None
                else Some (mi_prompt input) |};
     get_async_invoke := λ arn _,
       Ret {| status := if String.eqb arn "mute" then None
                        else Some "Completed";
              outputDataConfig := None; failureReason := None |} |}.

(** A folder with the manifests of two sessions and no latest-session
    file. *)
Definition two_manifests : gmap string file :=
  <["ads/session_videos_20240101_000000.json"
      := FSession resolution_samples.manifest]>
  (<["ads/session_videos_20231231_235959.json" := FOther]> ∅).

(** A prompts file of the old format. *)
Definition old_prompts (path : string) : option (outcome analysis_data) :=
  Some (Ret {| per_image_analysis := None;
               video_prompts := Some [samples.described "ok";
                                      samples.described "fail"] |}).

(** A product folder with one image, and a command runner on which the
    generation script fails. *)
Definition product_folder : gmap string file :=
  <["shop/product_images/front.jpg" := FOther]> ∅.

Definition generation_fails (command : list string) : outcome Z :=
  if bool_decide (command !! 1 = Some "ads_generation.py") then Ret 1%Z
  else Ret 0%Z.

Definition pipeline_arguments : generate_video_ads.arguments :=
  {| generate_video_ads.folder := "shop";
     generate_video_ads.num_images := 1;
     generate_video_ads.prompts := 2;
     generate_video_ads.skip_selection := false;
     generate_video_ads.skip_analysis := false;
     generate_video_ads.s3_bucket := Some "bucket";
     generate_video_ads.merge := true;
     generate_video_ads.merge_all := false;
     generate_video_ads.transition := false |}.

End more_samples.

(** ** The further theorems at sample inputs *)

Section more_witnesses.
Import text ads_generation.

Local Abbreviation mixed_session :=
  (generate_ads samples.env "shop" [samples.image ["ok"; "fail"; "lost"]] 3
                (Some "bucket") false None samples.empty_world).
Local Abbreviation full_session :=
  (generate_ads samples.env "shop"
     [samples.image ["a"; "b"; "c"]; samples.image ["d"; "e"; "f"]] 3
     (Some "bucket") false None samples.empty_world).
Local Abbreviation old_session :=
  (generate_ads_from_folder samples.env more_samples.old_prompts "shop" 3
     (Some "bucket") false None samples.empty_world).

(** Two pending answers, then the terminal one at the third read. *)
Lemma first_terminal_status_decides_witness :
  generate_video_async more_samples.patient "fail" "bucket" "luma-videos/s"
    1 None None "job" samples.empty_world
  = (Ret (failed_result "fail" 1 None
            {| status := Some "Failed"; outputDataConfig := None;
               failureReason := Some "content policy" |}),
     after_job 1 samples.empty_world 3)
  ∧ generate_video_async more_samples.patient "ok" "bucket" "luma-videos/s"
      1 None None "job" samples.empty_world
    = (Ret (completed_result "ok" 1 None "job" "s3://bucket/luma-videos/ok/"
              (poll_delay * 3)),
       after_job 1 samples.empty_world 3).
Proof.
  assert (Hpending : ∀ arn,
            pending_until more_samples.patient arn 0 2).
  { intros arn i Hi. exists (samples.answer arn "InProgress").
    destruct i as [|[|i]]; [by split..|lia]. }
  split.
  - apply (first_terminal_status_decides more_samples.patient "fail"
             "bucket" "luma-videos/s" 1 None None "job" "fail" 2
             {| status := Some "Failed"; outputDataConfig := None;
                failureReason := Some "content policy" |}
             samples.empty_world);
      [by eexists|unfold max_attempts; lia|apply Hpending|done|done].
  - apply (first_terminal_status_decides more_samples.patient "ok"
             "bucket" "luma-videos/s" 1 None None "job" "ok" 2
             (samples.answer "ok" "Completed") samples.empty_world);
      [by eexists|unfold max_attempts; lia|apply Hpending|done|done|done].
Defined.

Lemma malformed_answers_become_failures_witness :
  generate_video_async more_samples.terse "unnamed" "bucket" "luma-videos/s"
    1 None None "job" samples.empty_world
  = (Ret (exception_result "unnamed" 1 None "'invocationArn'"),
     after_job 1 samples.empty_world 0)
  ∧ generate_video_async more_samples.terse "mute" "bucket" "luma-videos/s"
      1 None None "job" samples.empty_world
    = (Ret (exception_result "mute" 1 None "'status'"),
       after_job 1 samples.empty_world 1).
Proof.
  split.
  - apply (proj1 (malformed_answers_become_failures more_samples.terse
                    "unnamed" "bucket" "luma-videos/s" 1 None None "job"
                    samples.empty_world) {| invocationArn := None |});
      done.
  - destruct (malformed_answers_become_failures more_samples.terse
                "mute" "bucket" "luma-videos/s" 1 None None "job"
                samples.empty_world) as (_ & Hread & _).
    apply (Hread "mute" 0
             {| status := None; outputDataConfig := None;
                failureReason := None |});
      [by eexists|unfold max_attempts; lia|intros i Hi; lia|done|done].
Defined.

Lemma minted_location_is_retrieved_witness :
  download_video_from_s3 samples.store
    (s3_output_uri "bucket" "luma-videos/s" "job") "out.mp4"
    samples.empty_world
  = (Ret true, downloaded samples.empty_world "out.mp4").
Proof.
  apply (proj2 (minted_location_is_retrieved "bucket" "luma-videos/s" "job"
                  eq_refl eq_refl ltac:(done))
           samples.store "luma-videos/s/job/video.mp4");
    reflexivity.
Defined.

Lemma jobs_per_image_are_capped_witness :
  ∃ rep w',
    mixed_session = (Ret (Some rep), w')
    ∧ total_attempted rep ≤ total_images_processed rep * 3.
Proof.
  assert (Hsome : match mixed_session.1 with
                  | Ret (Some _) => True
                  | _ => False
                  end) by (by vm_compute).
  destruct mixed_session as [o w'] eqn:Hrun. cbn [fst] in Hsome.
  destruct o as [[rep|]|]; try contradiction.
  destruct (jobs_per_image_are_capped _ _ _ _ _ _ _ _ _ _ Hrun)
    as (_ & _ & Hcap & _).
  exists rep, w'. split; [reflexivity|].
  exact (proj2 (Hcap ltac:(lia))).
Defined.

Lemma results_follow_the_loops_witness :
  ∃ rep w' results,
    mixed_session = (Ret (Some rep), w')
    ∧ successful_videos rep = List.filter success results
    ∧ video_index <$> results = seq 1 (total_attempted rep).
Proof.
  assert (Hsome : match mixed_session.1 with
                  | Ret (Some _) => True
                  | _ => False
                  end) by (by vm_compute).
  destruct mixed_session as [o w'] eqn:Hrun. cbn [fst] in Hsome.
  destruct o as [[rep|]|]; try contradiction.
  destruct (results_follow_the_loops _ _ _ _ _ _ _ _ _ _ Hrun)
    as (results & Hsucc & _ & Hidx & _).
  exists rep, w', results. split; [reflexivity|]. split; [exact Hsucc|].
  exact Hidx.
Defined.

Lemma retrieved_files_are_on_disk_witness :
  ∃ rep w',
    mixed_session = (Ret (Some rep), w')
    ∧ ∀ r p, r ∈ successful_videos rep → local_filename r = Some p →
        fs w' !! p = Some FVideo.
Proof.
  assert (Hsome : match mixed_session.1 with
                  | Ret (Some _) => True
                  | _ => False
                  end) by (by vm_compute).
  destruct mixed_session as [o w'] eqn:Hrun. cbn [fst] in Hsome.
  destruct o as [[rep|]|]; try contradiction.
  exists rep, w'. split; [reflexivity|]. intros r p Hr Hp.
  exact (proj1 (retrieved_files_are_on_disk _ _ _ _ _ _ _ _ _ _ Hrun
                  r p Hr Hp)).
Defined.



(** The merge of the folder of a session of six retrieved videos. *)
Lemma merge_finds_the_session_witness :
  ∃ rep w',
    full_session = (Ret (Some rep), w')
    ∧ merge_videos.get_latest_session_timestamp
        (fs w') (generated_folder "shop") = Some "20240101_000000"
    ∧ merge_videos.used
        (merge_videos.resolve (fs w') (generated_folder "shop") true None)
      = merge_videos.by_manifest.
Proof.
  assert (Hobs : match full_session.1 with
                 | Ret (Some rep) =>
                     length (session_videos_of (successful_videos rep)) = 6
                 | _ => False
                 end) by (by vm_compute).
  destruct full_session as [o w'] eqn:Hrun. cbn [fst] in Hobs.
  destruct o as [[rep|]|]; try contradiction.
  assert (Hne : session_videos_of (successful_videos rep) ≠ [])
    by (by intros Hnil; rewrite Hnil in Hobs).
  assert (Hplain : plain_names samples.env
            [samples.image ["a"; "b"; "c"]; samples.image ["d"; "e"; "f"]]
            3 None) by (by repeat constructor).
  destruct (merge_finds_the_session _ _ _ _ _ _ _ _ _ _ None Hrun Hplain Hne
              ltac:(done) ltac:(by left))
    as (Hlatest & Hused & _).
  exists rep, w'. split; [reflexivity|]. split; [exact Hlatest|exact Hused].
Defined.

Lemma latest_session_from_file_names_witness :
  merge_videos.get_latest_session_timestamp more_samples.two_manifests "ads"
  = Some "20240101_000000".
Proof.
  destruct (latest_session_from_file_names more_samples.two_manifests "ads"
              "20240101_000000")
    as (_ & Hround & _).
  - by vm_compute.
  - by vm_compute.
  - reflexivity.
  - by apply (Hround "20240101" "000000").
Defined.

Lemma old_prompt_format_is_one_image_witness :
  ∃ rep w',
    old_session = (Ret (Some rep), w')
    ∧ total_images_processed rep = 1
    ∧ total_attempted rep = 2.
Proof.
  assert (Hsome : match old_session.1 with
                  | Ret (Some _) => True
                  | _ => False
                  end) by (by vm_compute).
  destruct old_session as [o w'] eqn:Hrun. cbn [fst] in Hsome.
  destruct o as [[rep|]|]; try contradiction.
  destruct (old_prompt_format_is_one_image samples.env
              more_samples.old_prompts "shop" 3 (Some "bucket") false None
              _ _ samples.empty_world rep w' eq_refl eq_refl eq_refl Hrun)
    as (Himages & Hjobs & _).
  exists rep, w'. split; [reflexivity|]. split; [exact Himages|exact Hjobs].
Defined.

Lemma pipeline_stops_at_first_failure_witness :
  ∃ res log,
    generate_video_ads.main (λ _, true) more_samples.product_folder
      more_samples.generation_fails "20240101_000000"
      more_samples.pipeline_arguments = (res, log)
    ∧ log `prefix_of`
        (generate_video_ads.command
         <$> generate_video_ads.steps more_samples.pipeline_arguments
               "20240101_000000").
Proof.
  destruct (generate_video_ads.main (λ _, true)
              more_samples.product_folder more_samples.generation_fails
              "20240101_000000" more_samples.pipeline_arguments)
    as [res log] eqn:Hrun.
  exists res, log. split; [reflexivity|].
  exact (proj1 (pipeline_stops_at_first_failure _ _ _ _ _ _ _ Hrun)).
Defined.

Lemma session_waits_per_status_read_witness :
  ∃ rep w',
    mixed_session = (Ret (Some rep), w')
    ∧ clock w' ≤ clock samples.empty_world
                 + max_attempts * poll_delay * total_attempted rep.
Proof.
  assert (Hsome : match mixed_session.1 with
                  | Ret (Some _) => True
                  | _ => False
                  end) by (by vm_compute).
  destruct mixed_session as [o w'] eqn:Hrun. cbn [fst] in Hsome.
  destruct o as [[rep|]|]; try contradiction.
  destruct (session_waits_per_status_read _ _ _ _ _ _ _ _ _ _ Hrun)
    as (added & _ & _ & _ & Hbound).
  exists rep, w'. split; [reflexivity|exact Hbound].
Defined.

(** The third video of the first image and the first of the second. *)
Lemma segments_sort_in_generation_order_witness :
  merge_videos.path_le
    (local_path_of "shop" "20240101_000000" 1 3 (samples.described "c"))
    (local_path_of "shop" "20240101_000000" 2 1 (samples.described "d")).
Proof.
  destruct (segments_sort_in_generation_order "shop" "20240101_000000"
              1 3 (samples.described "c") 2 1 (samples.described "d"))
    as (_ & Hle & _); [lia..|reflexivity|reflexivity|left; lia|exact Hle].
Defined.

Lemma merge_keeps_generation_order_witness :
  ∃ rep w',
    full_session = (Ret (Some rep), w')
    ∧ merge_videos.video_files
        (merge_videos.resolve (fs w') (generated_folder "shop") true None)
      = omap local_filename (successful_videos rep).
Proof.
  assert (Hobs : match full_session.1 with
                 | Ret (Some rep) =>
                     length (session_videos_of (successful_videos rep)) = 6
                 | _ => False
                 end) by (by vm_compute).
  destruct full_session as [o w'] eqn:Hrun. cbn [fst] in Hobs.
  destruct o as [[rep|]|]; try contradiction.
  assert (Hne : session_videos_of (successful_videos rep) ≠ [])
    by (by intros Hnil; rewrite Hnil in Hobs).
  assert (Hplain : plain_names samples.env
            [samples.image ["a"; "b"; "c"]; samples.image ["d"; "e"; "f"]]
            3 None) by (by repeat constructor).
  assert (Hdigits : two_digit_ordinals
            [samples.image ["a"; "b"; "c"]; samples.image ["d"; "e"; "f"]]
            3).
  { unfold two_digit_ordinals. simpl.
    repeat (constructor; [simpl; lia|]). constructor. }
  exists rep, w'. split; [reflexivity|].
  exact (merge_keeps_generation_order _ _ _ _ _ _ _ _ _ _ None Hrun Hplain
           Hdigits Hne ltac:(done) ltac:(by left)).
Defined.
(** A second merge of the folder a session left. *)
Lemma merging_again_takes_the_same_segments_witness :
  fs (merge_videos.merge_generated_videos
        (merge_samples.tools_probing None) "ads" false (1 # 2) true None
        {| fs := resolution_samples.directory; clock := 0; trace := [] |}).2
    !! "ads/merged_20240101_000000.mp4" = Some FVideo
  ∧ merge_videos.resolve
      (fs (merge_videos.merge_generated_videos
             (merge_samples.tools_probing None) "ads" false (1 # 2) true
             None
             {| fs := resolution_samples.directory; clock := 0;
                trace := [] |}).2)
      "ads" true None
    = merge_videos.resolve resolution_samples.directory "ads" true None.
Proof.
  destruct (merging_again_takes_the_same_segments
              (merge_samples.tools_probing None) "ads" false (1 # 2)
              true None
              {| fs := resolution_samples.directory; clock := 0;
                 trace := [] |}) as (_ & _ & Hsame).
  - intros t f names Ht Hf Hnames. vm_compute in Ht.
    injection Ht as <-. vm_compute in Hf. injection Hf as <-.
    injection Hnames as <-. by repeat constructor.
  - split; [by vm_compute|exact Hsame].
Defined.


(** The session of two images and three prompts each, then the merge
    script on its folder. *)
Lemma session_then_merge_witness :
  ∃ rep w1 w2,
    full_session = (Ret (Some rep), w1)
    ∧ merge_videos.main (merge_samples.tools_probing None)
        {| merge_videos.folder := generated_folder "shop";
           merge_videos.arg_transition := false;
           merge_videos.arg_transition_duration := 1 # 2;
           merge_videos.all_videos := false;
           merge_videos.arg_timestamp := None;
           merge_videos.videos := None |} w1
      = (Ret 0%Z, w2)
    ∧ merged_segments (trace w2)
      = [omap local_filename (successful_videos rep)].
Proof.
  assert (Hobs : match full_session with
                 | (Ret (Some rep), w1) =>
                     length (session_videos_of (successful_videos rep)) = 6
                     ∧ merged_segments (trace w1) = []
                 | _ => False
                 end) by (by vm_compute).
  destruct full_session as [o w1] eqn:Hrun.
  destruct o as [[rep|]|]; try contradiction.
  destruct Hobs as [Hobs Hnone].
  assert (Hne : session_videos_of (successful_videos rep) ≠ [])
    by (by intros Hnil; rewrite Hnil in Hobs).
  assert (Hplain : plain_names samples.env
            [samples.image ["a"; "b"; "c"]; samples.image ["d"; "e"; "f"]]
            3 None) by (by repeat constructor).
  assert (Hdigits : two_digit_ordinals
            [samples.image ["a"; "b"; "c"]; samples.image ["d"; "e"; "f"]]
            3).
  { unfold two_digit_ordinals. simpl.
    repeat (constructor; [simpl; lia|]). constructor. }
  destruct (session_then_merge _ _ _ _ _ _ _
              (merge_samples.tools_probing None) (1 # 2) _ _ _
              Hrun Hplain Hdigits Hne ltac:(done) eq_refl eq_refl eq_refl)
    as (w2 & report & _ & Hmain & Hsegs & _).
  exists rep, w1, w2. split; [reflexivity|]. split; [exact Hmain|].
  by rewrite Hsegs, Hnone.
Defined.
End more_witnesses.
